(** * Jinteia Loot Analyzer: the streaming aggregation core

    A shallow embedding of [Jinteia-Loot-Analyzer-FREE.py]: the log-line
    parser ([LOG_LINE_RE], [parse_log_line]), the window of the live monitor
    worker ([add_event], [compute_stats_from_window]) and the crafting
    reconciliation kept by the application object ([update_stats],
    [recalc_crafting_deltas_from_passes], the pass-state operations and
    [render_items]).

    Modelling conventions.
    - Python [int] is [Z].  A Python [float] is a binary64 number, given by
      the rational [Q] it denotes; every float operation returns the binary64
      nearest to the exact result, ties to the even mantissa ([fl]), as does
      the conversion of an [int].  [round] is round-half-to-even and [int]
      on a float truncates toward zero.  Magnitudes of [2^1024] and more,
      where Python has infinities or raises [OverflowError], are not
      modelled.
    - A [datetime] is the number of microseconds since 0001-01-01 00:00:00
      (proleptic Gregorian), a [timedelta] a number of microseconds; the
      range limits of [datetime] and of [int(str)] are not modelled.
    - Text is a [string] whose characters are the code points below
      U+0100; among these the decimal digits, for [\d] and for [int], are
      the ten ASCII digits.  Lines with characters from U+0100 on are
      outside the model.
    - A Python [dict] whose iteration order the program observes is an
      association list in insertion order ([odict]); the other dictionaries
      are [gmap]s, and iterating one goes through [map_to_list].
    - A raised exception is the [Raise] branch of [result]. *)

From Stdlib Require Import ZArith QArith Qround Qabs Qpower Lqa Lia String Ascii List.
From stdpp Require Import gmap strings list fin_maps sorting.
Import ListNotations.

Open Scope string_scope.
Open Scope list_scope.
Open Scope Z_scope.

(** ** Exceptions *)

Inductive exn : Type :=
| ValueError
| AttributeError.

(** The outcome of a call.  [OutOfFuel] is not a behaviour of the program:
    it marks a run of the model cut short by the depth bound given to
    [render_items]. *)
Inductive result (A : Type) : Type :=
| Ok (a : A)
| Raise (e : exn)
| OutOfFuel.

Arguments Ok {A} a.
Arguments Raise {A} e.
Arguments OutOfFuel {A}.

Definition bind {A B : Type} (r : result A) (f : A -> result B) : result B :=
  match r with
  | Ok a => f a
  | Raise e => Raise e
  | OutOfFuel => OutOfFuel
  end.

(** ** Regular expressions of the [re] module, as far as [LOG_LINE_RE] uses them *)

(** One-character atoms: a literal character, [\d] and [.] *)
Inductive cclass : Type :=
| CChar (c : ascii)
| CDigit
| CAny.

Definition newline : ascii := ascii_of_nat 10.

(** [\d], and the digits [int] accepts, among the characters below U+0100:
    the ten ASCII digits *)
Definition is_digit (a : ascii) : bool :=
  (48 <=? nat_of_ascii a)%nat && (nat_of_ascii a <=? 57)%nat.

Definition cclass_match (cl : cclass) (a : ascii) : bool :=
  match cl with
  | CChar c => Ascii.eqb c a
  | CDigit => is_digit a
  | CAny => negb (Ascii.eqb a newline)
  end.

Inductive regex : Type :=
| RLit (l : string)              (* literal text *)
| RRep (cl : cclass) (n : nat)   (* cl{n} *)
| RPlus (cl : cclass)            (* cl+   greedy *)
| RPlusLazy (cl : cclass)        (* cl+?  lazy *)
| RGroup (r : regex)             (* ( r ) capturing group *)
| RCat (r1 r2 : regex).          (* r1 r2 *)

Declare Scope regex_scope.
Delimit Scope regex_scope with regex.
Bind Scope regex_scope with regex.
Infix "·" := RCat (at level 41, right associativity) : regex_scope.

(** [strip_prefix l s]: the rest of [s] after the literal [l], if [s] starts with it *)
Fixpoint strip_prefix (l s : string) : option string :=
  match l with
  | EmptyString => Some s
  | String c l' =>
      match s with
      | EmptyString => None
      | String a s' => if Ascii.eqb c a then strip_prefix l' s' else None
      end
  end.

(** [take_class cl n s]: the first [n] characters of [s], all in [cl], and the rest *)
Fixpoint take_class (cl : cclass) (n : nat) (s : string) : option (string * string) :=
  match n with
  | O => Some (EmptyString, s)
  | S n' =>
      match s with
      | EmptyString => None
      | String a s' =>
          if cclass_match cl a then
            match take_class cl n' s' with
            | Some (m, rest) => Some (String a m, rest)
            | None => None
            end
          else None
      end
  end.

(** Greedy [cl+]: take one character, then prefer taking more over going on.
    [acc] is the text matched so far. *)
Fixpoint plus_greedy {R : Type} (cl : cclass) (k : string -> string -> option R)
    (acc s : string) : option R :=
  match s with
  | EmptyString => None
  | String a s' =>
      if cclass_match cl a then
        let acc' := acc +:+ String a EmptyString in
        match plus_greedy cl k acc' s' with
        | Some r => Some r
        | None => k acc' s'
        end
      else None
  end.

(** Lazy [cl+?]: take one character, then prefer going on over taking more *)
Fixpoint plus_lazy {R : Type} (cl : cclass) (k : string -> string -> option R)
    (acc s : string) : option R :=
  match s with
  | EmptyString => None
  | String a s' =>
      if cclass_match cl a then
        let acc' := acc +:+ String a EmptyString in
        match k acc' s' with
        | Some r => Some r
        | None => plus_lazy cl k acc' s'
        end
      else None
  end.

(** The backtracking matcher, anchored at the start of [s].  The continuation
    receives the text matched, the groups captured so far and the rest of
    the input; [None] makes the matcher backtrack. *)
Fixpoint rmatch {R : Type} (r : regex) (s : string) (caps : list string)
    (k : string -> list string -> string -> option R) : option R :=
  match r with
  | RLit l =>
      match strip_prefix l s with
      | Some s' => k l caps s'
      | None => None
      end
  | RRep cl n =>
      match take_class cl n s with
      | Some (m, s') => k m caps s'
      | None => None
      end
  | RPlus cl => plus_greedy cl (fun m s' => k m caps s') EmptyString s
  | RPlusLazy cl => plus_lazy cl (fun m s' => k m caps s') EmptyString s
  | RGroup r1 => rmatch r1 s caps (fun m caps' s' => k m (caps' ++ [m]) s')
  | RCat r1 r2 =>
      rmatch r1 s caps (fun m1 caps1 s1 =>
        rmatch r2 s1 caps1 (fun m2 caps2 s2 => k (m1 +:+ m2) caps2 s2))
  end.

(** [pattern.match(s)] followed by [.groups()] *)
Definition re_match (r : regex) (s : string) : option (list string) :=
  rmatch r s [] (fun _ caps _ => Some caps).

(** [pattern.search(s)] followed by [.groups()]: the leftmost position where
    the pattern matches *)
Fixpoint re_search (r : regex) (s : string) : option (list string) :=
  match re_match r s with
  | Some caps => Some caps
  | None =>
      match s with
      | EmptyString => None
      | String _ s' => re_search r s'
      end
  end.

(** [\[(\d{2}/\d{2}/\d{2})\] \[(\d{2}:\d{2}:\d{2})\]: You receive (\d+) (.+?)\.] *)
Definition LOG_LINE_RE : regex :=
  (RLit "["
   · RGroup (RRep CDigit 2 · RLit "/" · RRep CDigit 2 · RLit "/" · RRep CDigit 2)
   · RLit "] ["
   · RGroup (RRep CDigit 2 · RLit ":" · RRep CDigit 2 · RLit ":" · RRep CDigit 2)
   · RLit "]: You receive "
   · RGroup (RPlus CDigit)
   · RLit " "
   · RGroup (RPlusLazy CAny)
   · RLit ".")%regex.

(** ** Dates and times *)

Definition is_leap (y : Z) : bool :=
  (y mod 4 =? 0) && (negb (y mod 100 =? 0) || (y mod 400 =? 0)).

Definition days_in_month (y m : Z) : Z :=
  if m =? 2 then (if is_leap y then 29 else 28)
  else if (m =? 4) || (m =? 6) || (m =? 9) || (m =? 11) then 30
  else 31.

Definition days_before_year (y : Z) : Z :=
  let p := y - 1 in p * 365 + p / 4 - p / 100 + p / 400.

Fixpoint days_before_month_aux (y : Z) (n : nat) : Z :=
  match n with
  | O => 0
  | S n' => days_before_month_aux y n' + days_in_month y (Z.of_nat n)
  end.

(** Days of year [y] before the first day of month [m] *)
Definition days_before_month (y m : Z) : Z :=
  days_before_month_aux y (Z.to_nat (m - 1)).

Definition US_PER_SECOND : Z := 1000000.

(** [datetime(y, m, d, hh, mm, ss)] as a count of microseconds; [ValueError]
    for a field out of range *)
Definition mk_datetime (y m d hh mm ss : Z) : result Z :=
  if (1 <=? m) && (m <=? 12) && (1 <=? d) && (d <=? days_in_month y m)
     && (0 <=? hh) && (hh <=? 23) && (0 <=? mm) && (mm <=? 59)
     && (0 <=? ss) && (ss <=? 59)
  then
    let ord := days_before_year y + days_before_month y m + d in
    Ok (((((ord - 1) * 24 + hh) * 60 + mm) * 60 + ss) * US_PER_SECOND)
  else Raise ValueError.

Definition digit_val (a : ascii) : Z := Z.of_nat (nat_of_ascii a) - 48.

(** [int(s)] for a string of decimal digits *)
Fixpoint py_int_acc (acc : Z) (s : string) : Z :=
  match s with
  | EmptyString => acc
  | String a s' => py_int_acc (acc * 10 + digit_val a) s'
  end.

Definition py_int (s : string) : Z := py_int_acc 0 s.

(** Three two-digit numbers separated by [sep] *)
Definition three_fields (sep : ascii) (s : string) : option (Z * Z * Z) :=
  match s with
  | String a1 (String a2 (String s1 (String b1 (String b2
      (String s2 (String c1 (String c2 EmptyString))))))) =>
      if is_digit a1 && is_digit a2 && Ascii.eqb s1 sep
         && is_digit b1 && is_digit b2 && Ascii.eqb s2 sep
         && is_digit c1 && is_digit c2
      then Some (digit_val a1 * 10 + digit_val a2,
                 digit_val b1 * 10 + digit_val b2,
                 digit_val c1 * 10 + digit_val c2)
      else None
  | _ => None
  end.

(** [dt.datetime.strptime(f"{date_str} {time_str}", "%d/%m/%y %H:%M:%S")],
    for the two-digit fields that [LOG_LINE_RE] lets through.  [%y] maps
    00..68 to 2000..2068 and 69..99 to 1969..1999; a field that is not a
    day of its month or not a time of day raises [ValueError]. *)
Definition parse_datetime_from_log (date_str time_str : string) : result Z :=
  match three_fields "/" date_str, three_fields ":" time_str with
  | Some (d, m, yy), Some (hh, mm, ss) =>
      let y := if yy <=? 68 then 2000 + yy else 1900 + yy in
      mk_datetime y m d hh mm ss
  | _, _ => Raise ValueError
  end.

(** ** Events *)

(** The dataclass [LootEvent]; [ts] is the timestamp as a [datetime] *)
Record LootEvent : Type := mkLootEvent {
  ts : Z;
  quantity : Z;
  item : string
}.

(** The property [is_yang] *)
Definition is_yang (ev : LootEvent) : bool := String.eqb (item ev) "Yang".

(** [parse_log_line]: [None] when the pattern is found nowhere in the line,
    otherwise the event read from the four groups; the [ValueError] of
    [strptime] is not caught *)
Definition parse_log_line (line : string) : result (option LootEvent) :=
  match re_search LOG_LINE_RE line with
  | None => Ok None
  | Some [date_str; time_str; qty_str; item_str] =>
      bind (parse_datetime_from_log date_str time_str) (fun t =>
        Ok (Some (mkLootEvent t (py_int qty_str) item_str)))
  | Some _ => Raise ValueError
  end.


(** ** Ordered dictionaries *)

Definition odict (V : Type) : Type := list (string * V).

Fixpoint odict_get {V : Type} (k : string) (d : odict V) : option V :=
  match d with
  | [] => None
  | (k', v) :: d' => if String.eqb k k' then Some v else odict_get k d'
  end.

(** [d[k] = v]: an existing key keeps its place, a new key goes last *)
Fixpoint odict_set {V : Type} (k : string) (v : V) (d : odict V) : odict V :=
  match d with
  | [] => [(k, v)]
  | (k', v') :: d' =>
      if String.eqb k k' then (k', v) :: d' else (k', v') :: odict_set k v d'
  end.

(** [sorted(l, key=key, reverse=True)]: stable, largest key first *)
Fixpoint insert_desc {A : Type} (key : A -> Z) (x : A) (l : list A) : list A :=
  match l with
  | [] => [x]
  | y :: l' => if key x <? key y then y :: insert_desc key x l' else x :: l
  end.

Definition sort_desc {A : Type} (key : A -> Z) (l : list A) : list A :=
  fold_right (insert_desc key) [] l.

(** ** Floats *)

(** [round(q)]: nearest integer, ties to the even one *)
Definition py_round (q : Q) : Z :=
  let n := Qnum q in
  let d := Z.pos (Qden q) in
  let f := n / d in
  let r := n mod d in
  if 2 * r <? d then f
  else if d <? 2 * r then f + 1
  else if Z.even f then f else f + 1.

(** [int(q)]: truncation toward zero *)
Definition py_trunc (q : Q) : Z := Z.quot (Qnum q) (Z.pos (Qden q)).

(** [q > 0] *)
Definition Qpositive (q : Q) : bool := negb (Qle_bool q 0).

(** [2^e] *)
Definition pow2 (e : Z) : Q := (2 ^ e)%Q.

(** The binary exponent of [q]: the integer part of [log2 |q|], for [q]
    other than zero *)
Definition ilog2 (q : Q) : Z :=
  let e0 := Z.log2 (Z.abs (Qnum q)) - Z.log2 (Z.pos (Qden q)) in
  if Qle_bool (pow2 e0) (Qabs q) then e0 else e0 - 1.

(** The binary64 nearest to [q]: a mantissa of 53 bits, fewer below
    [2^-1022], ties to the even mantissa *)
Definition fl (q : Q) : Q :=
  if Qeq_bool q 0 then 0%Q
  else
    let e := Z.max (ilog2 q - 52) (-1074) in
    Qred (inject_Z (py_round (q / pow2 e)) * pow2 e).

(** [float(z)], the conversion of an [int] operand *)
Definition float_of_int (z : Z) : Q := fl (inject_Z z).

(** [x / y] and [x - y] on floats, [y] not zero *)
Definition fdiv (x y : Q) : Q := fl (x / y).
Definition fsub (x y : Q) : Q := fl (x - y).

(** ** The live monitor worker *)

(** The fields of [LiveMonitorWorker] that decide the window: the retention
    settings and the deque [window] *)
Record Worker : Type := mkWorker {
  window_minutes : Z;
  fixed_start_ts : option Z;
  unlimited : bool;
  window : list LootEvent
}.

Definition set_window (w : Worker) (win : list LootEvent) : Worker :=
  mkWorker (window_minutes w) (fixed_start_ts w) (unlimited w) win.

(** [dt.timedelta(minutes=m)] *)
Definition timedelta_minutes (m : Z) : Z := m * 60 * US_PER_SECOND.

(** [while self.window and self.window[0].ts < bound: self.window.popleft()] *)
Fixpoint popleft_while (bound : Z) (win : list LootEvent) : list LootEvent :=
  match win with
  | [] => []
  | e :: win' => if ts e <? bound then popleft_while bound win' else win
  end.

(** [add_event]: append, then trim from the left according to the mode:
    never when [unlimited], below [fixed_start_ts] when it is set, otherwise
    below the timestamp of [ev] minus [window_minutes] *)
Definition add_event (w : Worker) (ev : LootEvent) : Worker :=
  let win := window w ++ [ev] in
  if unlimited w then set_window w win
  else
    match fixed_start_ts w with
    | Some fixed => set_window w (popleft_while fixed win)
    | None =>
        let cutoff := ts ev - timedelta_minutes (window_minutes w) in
        set_window w (popleft_while cutoff win)
    end.

(** The reading branch of the loop of [run]: a line that parses is added to
    the window, a line that does not is dropped, an exception of the parser
    is not caught. *)
Definition run_line (w : Worker) (line : string) : result Worker :=
  bind (parse_log_line line) (fun r =>
    match r with
    | Some ev => Ok (add_event w ev)
    | None => Ok w
    end).

(** The dictionary returned by [compute_stats_from_window]; an entry of
    [items] is [(name, qty, per_hour)] *)
Record Stats : Type := mkStats {
  start : Z;
  end_ : Z;
  hours : Q;
  minutes : Q;
  total_yang : Z;
  yang_per_hour : Z;
  yang_per_minute : Z;
  items : list (string * Z * Z)
}.

(** [sum(ev.quantity for ev in events_list if ev.is_yang)] *)
Definition sum_yang (events_list : list LootEvent) : Z :=
  fold_left (fun acc ev => if is_yang ev then acc + quantity ev else acc)
    events_list 0.

(** [items_qty[ev.item] += ev.quantity] on a [defaultdict(int)] *)
Definition items_qty_add (items_qty : odict Z) (ev : LootEvent) : odict Z :=
  if is_yang ev then items_qty
  else odict_set (item ev)
         (default 0 (odict_get (item ev) items_qty) + quantity ev) items_qty.

Definition collect_items_qty (events_list : list LootEvent) : odict Z :=
  fold_left items_qty_add events_list [].

(** [(end - start).total_seconds()]: the microseconds divided by [10**6],
    a true division of two [int]s *)
Definition total_seconds (delta : Z) : Q := fl (Qmake delta 1000000).

(** [max(x, 1)] *)
Definition max_1 (x : Q) : Q := if Qle_bool 1 x then x else 1%Q.

(** [compute_stats_from_window]: [None] for an empty window, otherwise the
    totals, the elapsed time with its floor of one second, the rounded rates
    and the items sorted by quantity, largest first *)
Definition compute_stats_from_window (w : Worker) : option Stats :=
  match window w with
  | [] => None
  | first :: _ =>
      let events_list := window w in
      let total := sum_yang events_list in
      let items_qty := collect_items_qty events_list in
      let start_ts := ts first in
      let end_ts := ts (List.last events_list first) in
      let elapsed := max_1 (total_seconds (end_ts - start_ts)) in
      let hrs := fdiv elapsed 3600 in
      let mins := fdiv elapsed 60 in
      let items_list :=
        map (fun '(name, qty) => (name, qty, py_round (fdiv (float_of_int qty) hrs)))
          items_qty in
      Some {| start := start_ts;
              end_ := end_ts;
              hours := hrs;
              minutes := mins;
              total_yang := total;
              yang_per_hour := py_round (fdiv (float_of_int total) hrs);
              yang_per_minute := py_round (fdiv (float_of_int total) mins);
              items := sort_desc (fun x => snd (fst x)) items_list |}
  end.

(** ** The application: crafting reconciliation *)

(** An entry of [PASS_COSTS]: the keys ["yang"] and ["items"] *)
Record PassCost : Type := mkPassCost {
  cost_yang : Z;
  cost_items : list (string * Z)
}.

Definition PASS_COSTS : gmap string PassCost :=
  list_to_map [
    ("Hellish Pass", mkPassCost 2000000
       [("Fragment of a Pass [U-1]", 1); ("Fragment of a Pass [U-2]", 1); ("Shard", 400)]);
    ("Ice-cold Pass", mkPassCost 1500000
       [("Fragment of a Pass [N-1]", 1); ("Fragment of a Pass [N-2]", 1); ("Shard", 200)]);
    ("Grass-covered Pass", mkPassCost 1500000
       [("Fragment of a Pass [J-1]", 1); ("Fragment of a Pass [J-2]", 1); ("Shard", 200)]);
    ("Charred Pass", mkPassCost 1500000
       [("Fragment of a Pass [R-1]", 1); ("Fragment of a Pass [R-2]", 1); ("Shard", 200)]);
    ("Owl Pass", mkPassCost 2000000
       [("Piece of an Owl Pass [L]", 1); ("Piece of an Owl Pass [R]", 1); ("Shard", 500)]);
    ("Taliko's Paradise Pass", mkPassCost 2000000
       [("Piece of a Papyrus [L]", 1); ("Piece of a Papyrus [R]", 1); ("Shard", 700)]);
    ("Demonic Key", mkPassCost 5000000
       [("Piece of a Demonic Key [1]", 1); ("Piece of a Demonic Key [2]", 1); ("Shard", 1000)]);
    ("Nalantir's Tooth", mkPassCost 7500000
       [("Broken Dragon Tooth [1]", 1); ("Broken Dragon Tooth [2]", 1); ("Shard", 1500)]);
    ("Map to the Abandoned Fortress", mkPassCost 7500000
       [("Part of an Ancient Map [1]", 1); ("Part of an Ancient Map [2]", 1); ("Shard", 2000)])
  ].

(** An entry of [pass_states]: the keys ["total"], ["crafted"], ["dropped"] *)
Record PassState : Type := mkPassState {
  total : Z;
  crafted : Z;
  dropped : Z
}.

(** What the worker hands to [update_stats]: statistics, or the error dictionary *)
Inductive Snapshot : Type :=
| SnapError (msg : string)
| SnapStats (st : Stats).

(** One row of the item table: name, source ([Craft:c / Drop:d] or empty),
    adjusted quantity and [int(net_per_hour)] *)
Record Row : Type := mkRow {
  row_name : string;
  row_source : option (Z * Z);
  row_qty : Z;
  row_per_hour : Z
}.

(** The fields of [LootMonitorApp] that the statistics touch.  [last_stats]
    is [None] while the attribute has never been assigned; [yang_label] and
    [yang_per_hour_label] are the numbers shown by the two labels, [tree]
    the rows of the item table. *)
Record App : Type := mkApp {
  pass_costs : gmap string PassCost;
  pass_states : gmap string PassState;
  pass_applied : gset string;
  base_yang : Z;
  crafting_yang_delta : Z;
  base_items : odict Z;
  crafting_item_delta : gmap string Z;
  base_item_rates : gmap string Z;
  data_hours : Q;
  net_yang : Z;
  net_yang_per_hour : Q;
  last_stats : option Snapshot;
  yang_label : Z;
  yang_per_hour_label : Z;
  tree : list Row
}.

(** The application as [__init__] leaves it *)
Definition init_app : App :=
  {| pass_costs := PASS_COSTS;
     pass_states := ∅;
     pass_applied := ∅;
     base_yang := 0;
     crafting_yang_delta := 0;
     base_items := [];
     crafting_item_delta := ∅;
     base_item_rates := ∅;
     data_hours := 0%Q;
     net_yang := 0;
     net_yang_per_hour := 0%Q;
     last_stats := None;
     yang_label := 0;
     yang_per_hour_label := 0;
     tree := [] |}.

(** Assignments to single fields *)
Definition set_pass_states (app : App) (ps : gmap string PassState) : App :=
  mkApp (pass_costs app) ps (pass_applied app) (base_yang app)
    (crafting_yang_delta app) (base_items app) (crafting_item_delta app)
    (base_item_rates app) (data_hours app) (net_yang app)
    (net_yang_per_hour app) (last_stats app) (yang_label app)
    (yang_per_hour_label app) (tree app).

Definition set_pass_applied (app : App) (pa : gset string) : App :=
  mkApp (pass_costs app) (pass_states app) pa (base_yang app)
    (crafting_yang_delta app) (base_items app) (crafting_item_delta app)
    (base_item_rates app) (data_hours app) (net_yang app)
    (net_yang_per_hour app) (last_stats app) (yang_label app)
    (yang_per_hour_label app) (tree app).

Definition set_crafting (app : App) (yd : Z) (idl : gmap string Z) : App :=
  mkApp (pass_costs app) (pass_states app) (pass_applied app) (base_yang app)
    yd (base_items app) idl
    (base_item_rates app) (data_hours app) (net_yang app)
    (net_yang_per_hour app) (last_stats app) (yang_label app)
    (yang_per_hour_label app) (tree app).

Definition set_yang_label (app : App) (v : Z) : App :=
  mkApp (pass_costs app) (pass_states app) (pass_applied app) (base_yang app)
    (crafting_yang_delta app) (base_items app) (crafting_item_delta app)
    (base_item_rates app) (data_hours app) (net_yang app)
    (net_yang_per_hour app) (last_stats app) v
    (yang_per_hour_label app) (tree app).

Definition set_tree (app : App) (t : list Row) : App :=
  mkApp (pass_costs app) (pass_states app) (pass_applied app) (base_yang app)
    (crafting_yang_delta app) (base_items app) (crafting_item_delta app)
    (base_item_rates app) (data_hours app) (net_yang app)
    (net_yang_per_hour app) (last_stats app) (yang_label app)
    (yang_per_hour_label app) t.

(** [d.get(k, 0)] *)
Definition get0 (d : gmap string Z) (k : string) : Z := default 0 (d !! k).

(** [for item, qty in cost.get("items", {}).items(): delta[item] += n * qty] *)
Definition add_item_costs (n : Z) (its : list (string * Z))
    (delta : gmap string Z) : gmap string Z :=
  fold_left (fun d '(it, qty) => <[it := get0 d it + n * qty]> d) its delta.

(** The body of the loop of [recalc_crafting_deltas_from_passes] *)
Definition recalc_step (costs : gmap string PassCost)
    (acc : Z * gmap string Z) (entry : string * PassState) : Z * gmap string Z :=
  let '(name, state) := entry in
  if crafted state <=? 0 then acc
  else
    match costs !! name with
    | None => acc
    | Some cost =>
        (fst acc + crafted state * cost_yang cost,
         add_item_costs (crafted state) (cost_items cost) (snd acc))
    end.

(** [recalc_crafting_deltas_from_passes]: both deltas are reset, then every
    pass state adds its share *)
Definition recalc_crafting_deltas_from_passes (app : App) : App :=
  let acc := fold_left (recalc_step (pass_costs app))
               (map_to_list (pass_states app)) (0, ∅) in
  set_crafting app (fst acc) (snd acc).

(** [update_yang_display]: the label shows [base_yang - crafting_yang_delta] *)
Definition update_yang_display (app : App) : App :=
  set_yang_label app (base_yang app - crafting_yang_delta app).

(** The body of the loop "Initialize / update pass states" of [update_stats] *)
Definition observe_pass (costs : gmap string PassCost)
    (ps : gmap string PassState) (entry : string * Z) : gmap string PassState :=
  let '(name, qty) := entry in
  match costs !! name with
  | None => ps
  | Some _ =>
      match ps !! name with
      | None => <[name := mkPassState qty qty 0]> ps
      | Some state =>
          let delta := qty - total state in
          if 0 <? delta then
            <[name := mkPassState (total state + delta) (crafted state + delta)
                        (dropped state)]> ps
          else ps
      end
  end.

(** The loop "Initialize / update pass states" of [update_stats] *)
Definition observe_passes (costs : gmap string PassCost) (bi : odict Z)
    (ps : gmap string PassState) : gmap string PassState :=
  fold_left (observe_pass costs) bi ps.

(** [{name: qty for name, qty, _ in items_list}] *)
Definition base_items_of (items_list : list (string * Z * Z)) : odict Z :=
  fold_left (fun d '(name, qty, _) => odict_set name qty d) items_list [].

(** [{name: per_hour for name, _, per_hour in items_list}] *)
Definition base_item_rates_of (items_list : list (string * Z * Z)) : gmap string Z :=
  fold_left (fun d '(name, _, per_hour) => <[name := per_hour]> d) items_list ∅.

(** [apply_pass_adjustment], with [render] standing for [self.render_items] *)
Definition apply_pass_adjustment (render : App -> result App) (app : App)
    (pass_name new_state : string) : result App :=
  match pass_costs app !! pass_name with
  | None => Ok app
  | Some cost =>
      let owned_qty := default 0 (odict_get pass_name (base_items app)) in
      if owned_qty <=? 0 then Ok app
      else
        let currently_applied := bool_decide (pass_name ∈ pass_applied app) in
        if String.eqb new_state "Crafted" && negb currently_applied then
          let app1 := set_pass_applied app ({[pass_name]} ∪ pass_applied app) in
          let app2 :=
            set_crafting app1
              (crafting_yang_delta app1 + cost_yang cost * owned_qty)
              (fold_left (fun d '(it, qty) => <[it := get0 d it + qty * owned_qty]> d)
                 (cost_items cost) (crafting_item_delta app1)) in
          render (update_yang_display app2)
        else if String.eqb new_state "Dropped" && currently_applied then
          let app1 := set_pass_applied app (pass_applied app ∖ {[pass_name]}) in
          let app2 :=
            set_crafting app1
              (crafting_yang_delta app1 - cost_yang cost * owned_qty)
              (fold_left (fun d '(it, qty) => <[it := get0 d it - qty * owned_qty]> d)
                 (cost_items cost) (crafting_item_delta app1)) in
          render (update_yang_display app2)
        else Ok app
  end.

(** The per-item net rate computed by [render_items] *)
Definition net_per_hour (app : App) (name : string) : Q :=
  let base_per_hour := get0 (base_item_rates app) name in
  let crafted_qty := get0 (crafting_item_delta app) name in
  if Qpositive (data_hours app)
  then fsub (float_of_int base_per_hour)
         (fdiv (float_of_int crafted_qty) (data_hours app))
  else inject_Z base_per_hour.

(** The loop of [render_items] over the sorted items *)
Fixpoint render_rows (render : App -> result App) (items_list : list (string * Z))
    (app : App) : result App :=
  match items_list with
  | [] => Ok app
  | (name, qty) :: rest =>
      let adjusted_qty := qty - get0 (crafting_item_delta app) name in
      let rate := net_per_hour app name in
      let source :=
        match pass_costs app !! name, pass_states app !! name with
        | Some _, Some ps => Some (crafted ps, dropped ps)
        | _, _ => None
        end in
      bind
        (match pass_costs app !! name, pass_states app !! name with
         | Some _, None =>
             apply_pass_adjustment render
               (set_pass_states app (<[name := mkPassState qty qty 0]> (pass_states app)))
               name "Crafted"
         | _, _ => Ok app
         end)
        (fun app1 =>
           render_rows render rest
             (set_tree app1
                (tree app1 ++ [mkRow name source adjusted_qty (py_trunc rate)])))
  end.

(** [render_items]; [fuel] bounds the depth of the calls of [render_items]
    from [apply_pass_adjustment] *)
Fixpoint render_items (fuel : nat) (app : App) : result App :=
  match fuel with
  | O => OutOfFuel
  | S fuel' =>
      render_rows (render_items fuel') (sort_desc snd (base_items app))
        (set_tree app [])
  end.

(** The literal [1e-6] *)
Definition tiny : Q := fl (Qmake 1 1000000).

(** [update_stats], statement by statement; the wall-clock [elapsed_hours],
    the dungeon counters and the widgets other than the two labels and the
    item table are left out *)
Definition update_stats (app : App) (stats : Snapshot) : result App :=
  match stats with
  | SnapError _ =>
      (* the error is shown and the monitor stopped; only [last_stats] changed *)
      Ok (mkApp (pass_costs app) (pass_states app) (pass_applied app)
            (base_yang app) (crafting_yang_delta app) (base_items app)
            (crafting_item_delta app) (base_item_rates app) (data_hours app)
            (net_yang app) (net_yang_per_hour app) (Some stats)
            (yang_label app) (yang_per_hour_label app) (tree app))
  | SnapStats st =>
      let data_hours' := if Qpositive (hours st) then hours st else 0%Q in
      let base_items' := base_items_of (items st) in
      let pass_states' :=
        observe_passes (pass_costs app) base_items' (pass_states app) in
      let base_item_rates' := base_item_rates_of (items st) in
      let base_yang' := total_yang st in
      (* net yang rate calculation *)
      let elapsed_hours := if Qpositive (hours st) then hours st else tiny in
      let base_yang_per_hour := fdiv (float_of_int base_yang') elapsed_hours in
      let crafting_yang_per_hour :=
        fdiv (float_of_int (crafting_yang_delta app)) elapsed_hours in
      let net_yang_per_hour' := fsub base_yang_per_hour crafting_yang_per_hour in
      let app1 :=
        recalc_crafting_deltas_from_passes
          (mkApp (pass_costs app) pass_states' (pass_applied app)
             base_yang' (crafting_yang_delta app) base_items'
             (crafting_item_delta app) base_item_rates' data_hours'
             (net_yang app) (net_yang_per_hour app) (Some stats)
             (yang_label app) (yang_per_hour_label app) (tree app)) in
      let app2 :=
        mkApp (pass_costs app1) (pass_states app1) (pass_applied app1)
          (base_yang app1) (crafting_yang_delta app1) (base_items app1)
          (crafting_item_delta app1) (base_item_rates app1) (data_hours app1)
          (base_yang app1 - crafting_yang_delta app1) net_yang_per_hour'
          (last_stats app1) (yang_label app1) (py_trunc net_yang_per_hour')
          (tree app1) in
      render_items (S (length base_items')) (update_yang_display app2)
  end.

(** [self.update_stats(self.last_stats)] *)
Definition refresh (app : App) : result App :=
  match last_stats app with
  | None => Raise AttributeError
  | Some stats => update_stats app stats
  end.

(** [set_pass_all_crafted] and [set_pass_all_dropped]: nothing happens for a
    name without pass state *)
Definition set_pass_all_crafted (app : App) (name : string) : result App :=
  match pass_states app !! name with
  | None => Ok app
  | Some state =>
      let state' := mkPassState (total state) (total state) 0 in
      refresh (recalc_crafting_deltas_from_passes
                 (set_pass_states app (<[name := state']> (pass_states app))))
  end.

Definition set_pass_all_dropped (app : App) (name : string) : result App :=
  match pass_states app !! name with
  | None => Ok app
  | Some state =>
      let state' := mkPassState (total state) 0 (total state) in
      refresh (recalc_crafting_deltas_from_passes
                 (set_pass_states app (<[name := state']> (pass_states app))))
  end.

(** [open_pass_count_editor(name)] followed by [apply()] with [dropped] in the
    entry field, the pass state being the one looked up when the editor
    opened *)
Definition open_pass_count_editor_apply (app : App) (name : string)
    (dropped_count : Z) : result App :=
  match pass_states app !! name with
  | None => Ok app
  | Some state =>
      if (dropped_count <? 0) || (total state <? dropped_count) then Ok app
      else
        let state' :=
          mkPassState (total state) (total state - dropped_count) dropped_count in
        refresh (recalc_crafting_deltas_from_passes
                   (set_pass_states app (<[name := state']> (pass_states app))))
  end.

(** [get_last_seen_pass]: the last key of [base_items] that has a pass state *)
Definition get_last_seen_pass (app : App) : option string :=
  List.find (fun name => bool_decide (is_Some (pass_states app !! name)))
    (rev (map fst (base_items app))).

(** [increment_last_pass_dropped]: one crafted unit of that pass becomes a
    dropped one, if there is any *)
Definition increment_last_pass_dropped (app : App) : result App :=
  match get_last_seen_pass app with
  | None => Ok app
  | Some name =>
      if String.eqb name "" then Ok app
      else
        match pass_states app !! name with
        | None => Ok app
        | Some state =>
            if crafted state <=? 0 then Ok app
            else
              let state' :=
                mkPassState (total state) (crafted state - 1) (dropped state + 1) in
              refresh (recalc_crafting_deltas_from_passes
                         (set_pass_states app (<[name := state']> (pass_states app))))
        end
  end.

(** [reset_session_data] *)
Definition reset_session_data (app : App) : App :=
  mkApp (pass_costs app) ∅ ∅ 0 0 [] ∅ ∅ 0%Q 0 0%Q (last_stats app)
    (yang_label app) (yang_per_hour_label app) (tree app).

(** What happens to the application: a snapshot or an error arrives from
    the worker, the user reclassifies a pass, the session is reset *)
Inductive Op : Type :=
| OpTick (st : Stats)
| OpError (msg : string)
| OpReclassify (name : string) (dropped_count : Z)
| OpAllCrafted (name : string)
| OpAllDropped (name : string)
| OpIncrementDropped
| OpReset.

(** One operation, and a sequence of operations that stops at the first
    one that does not return normally *)
Definition step (app : App) (op : Op) : result App :=
  match op with
  | OpTick st => update_stats app (SnapStats st)
  | OpError msg => update_stats app (SnapError msg)
  | OpReclassify name d => open_pass_count_editor_apply app name d
  | OpAllCrafted name => set_pass_all_crafted app name
  | OpAllDropped name => set_pass_all_dropped app name
  | OpIncrementDropped => increment_last_pass_dropped app
  | OpReset => Ok (reset_session_data app)
  end.

Fixpoint run_ops (app : App) (ops : list Op) : result App :=
  match ops with
  | [] => Ok app
  | op :: ops' => bind (step app op) (fun app' => run_ops app' ops')
  end.


(** ** Notions used to state the properties *)

(** Timestamps never go back along the sequence *)
Definition le_ts : relation LootEvent := fun e1 e2 => ts e1 <= ts e2.

Definition nondecreasing (evs : list LootEvent) : Prop := Sorted le_ts evs.

(** A worker in trailing-window mode with an empty window *)
Definition trailing_worker (window_mins : Z) : Worker :=
  mkWorker window_mins None false [].

(** Every character of [s] satisfies [p] *)
Fixpoint string_forall (p : ascii -> bool) (s : string) : bool :=
  match s with
  | EmptyString => true
  | String a s' => p a && string_forall p s'
  end.

(** The first character of [s], if any, is not in [cl] *)
Definition stops (cl : cclass) (s : string) : Prop :=
  match s with
  | EmptyString => True
  | String a _ => cclass_match cl a = false
  end.

(** The texts a regular expression matches, with the groups it captures:
    the declarative reading of [regex], without the priorities of the
    matcher *)
Fixpoint rmatches (r : regex) (m : string) (caps caps' : list string) : Prop :=
  match r with
  | RLit l => m = l /\ caps' = caps
  | RRep cl n =>
      String.length m = n /\ string_forall (cclass_match cl) m = true /\ caps' = caps
  | RPlus cl | RPlusLazy cl =>
      m <> "" /\ string_forall (cclass_match cl) m = true /\ caps' = caps
  | RGroup r1 => exists caps1, rmatches r1 m caps caps1 /\ caps' = caps1 ++ [m]
  | RCat r1 r2 =>
      exists m1 m2 caps1,
        m = m1 +:+ m2 /\ rmatches r1 m1 caps caps1 /\ rmatches r2 m2 caps1 caps'
  end.

(** [dd/dd/dd] and [dd:dd:dd] *)
Definition date_shape (d : string) : Prop := is_Some (three_fields "/" d).
Definition time_shape (t : string) : Prop := is_Some (three_fields ":" t).

(** One or more digits *)
Definition qty_shape (q : string) : Prop :=
  q <> "" /\ string_forall is_digit q = true.

Definition not_newline (a : ascii) : bool := negb (Ascii.eqb a newline).
Definition not_newline_nor_period (a : ascii) : bool :=
  negb (Ascii.eqb a newline) && negb (Ascii.eqb a ".").

(** The item name the pattern captures: one character that is not a
    newline, then characters that are neither a newline nor a period *)
Definition name_shape (name : string) : Prop :=
  match name with
  | EmptyString => False
  | String c rest =>
      not_newline c = true /\ string_forall not_newline_nor_period rest = true
  end.

(** [[d] [t]: You receive q name.] followed by [rest] *)
Definition loot_line (d t q name rest : string) : string :=
  "[" +:+ d +:+ "] [" +:+ t +:+ "]: You receive " +:+ q +:+ " " +:+ name
    +:+ "." +:+ rest.

(** [line] contains the shape right after [pre] *)
Definition occurs_at (line pre d t q name rest : string) : Prop :=
  line = pre +:+ loot_line d t q name rest
  /\ date_shape d /\ time_shape t /\ qty_shape q /\ name_shape name.

(** The occurrence after [pre] is the leftmost one of [line] *)
Definition leftmost_at (line pre d t q name rest : string) : Prop :=
  occurs_at line pre d t q name rest
  /\ forall pre' d' t' q' name' rest',
       occurs_at line pre' d' t' q' name' rest' ->
       (String.length pre <= String.length pre')%nat.

(** The shape the line has when it is nothing but the record: timestamp,
    [: You receive ], quantity, a space, a non-empty name, a period *)
Definition exact_shape (line d t q name : string) : Prop :=
  line = loot_line d t q name ""
  /\ date_shape d /\ time_shape t /\ qty_shape q /\ name <> "".

(** [\d{2}s\d{2}s\d{2}] for a separator [s]: the inside of the first two
    groups of [LOG_LINE_RE] *)
Definition fields_re (sep : ascii) : regex :=
  (RRep CDigit 2 · RLit (String sep "") · RRep CDigit 2 · RLit (String sep "")
   · RRep CDigit 2)%regex.

(** ** Notions for the reconciliation *)

Definition Zsum (l : list Z) : Z := fold_right Z.add 0 l.

(** What one tracked pass type contributes to the currency delta: its
    crafted count times its unit cost, when it has crafted units and is a
    key of the cost table *)
Definition yang_share (costs : gmap string PassCost) (entry : string * PassState) : Z :=
  if 0 <? crafted (snd entry) then
    match costs !! fst entry with
    | Some cost => crafted (snd entry) * cost_yang cost
    | None => 0
    end
  else 0.

(** Units of [it] needed for one pass of cost [cost] *)
Definition sub_item_qty (its : list (string * Z)) (it : string) : Z :=
  Zsum (map (fun e : string * Z => if String.eqb (fst e) it then snd e else 0) its).

Definition item_share (costs : gmap string PassCost) (it : string)
    (entry : string * PassState) : Z :=
  if 0 <? crafted (snd entry) then
    match costs !! fst entry with
    | Some cost => crafted (snd entry) * sub_item_qty (cost_items cost) it
    | None => 0
    end
  else 0.

(** The sums of the claim, over the tracked pass types *)
Definition total_crafting_currency_delta (costs : gmap string PassCost)
    (ps : gmap string PassState) : Z :=
  Zsum (map (yang_share costs) (map_to_list ps)).

Definition per_item_crafting_delta (costs : gmap string PassCost)
    (ps : gmap string PassState) (it : string) : Z :=
  Zsum (map (item_share costs it) (map_to_list ps)).

(** The invariant of a pass state *)
Definition pass_state_ok (s : PassState) : Prop :=
  crafted s + dropped s = total s /\ 0 <= crafted s /\ 0 <= dropped s.

Definition pass_states_ok (ps : gmap string PassState) : Prop :=
  map_Forall (fun _ s => pass_state_ok s) ps.

(** Quantities of a snapshot are never negative *)
Definition stats_nonneg (st : Stats) : Prop :=
  Forall (fun e : string * Z * Z => 0 <= snd (fst e)) (items st).

Definition op_wf (op : Op) : Prop :=
  match op with
  | OpTick st => stats_nonneg st
  | _ => True
  end.

(** Item names of a snapshot are pairwise different *)
Definition names_distinct (items_list : list (string * Z * Z)) : Prop :=
  NoDup (map (fun e : string * Z * Z => fst (fst e)) items_list).

(** The row [render_items] shows for an item *)
Definition row_of (app : App) (entry : string * Z) : Row :=
  let '(name, qty) := entry in
  mkRow name
    (match pass_costs app !! name, pass_states app !! name with
     | Some _, Some ps => Some (crafted ps, dropped ps)
     | _, _ => None
     end)
    (qty - get0 (crafting_item_delta app) name)
    (py_trunc (net_per_hour app name)).


(** What holds of the application between two operations: the pass states
    are well formed, and the snapshot kept for re-rendering has no negative
    quantity (before the first snapshot nothing is tracked) *)
Definition app_inv (app : App) : Prop :=
  pass_states_ok (pass_states app)
  /\ match last_stats app with
     | Some (SnapStats st) => stats_nonneg st
     | Some (SnapError _) => True
     | None => pass_states app = ∅
     end.

(** ** Sample data *)

(** A snapshot of one hour with [q] Hellish Passes and 3 Shards *)
Definition sample_stats (q : Z) : Stats :=
  mkStats 0 3600000000 1 60 5000000 5000000 83333
    [("Hellish Pass", q, q); ("Shard", 3, 3)].

(** A snapshot of one hour with 20,000,000 Yang, 3 Hellish Passes and
    4 Ice-cold Passes *)
Definition sample_two_passes : Stats :=
  mkStats 0 3600000000 1 60 20000000 20000000 333333
    [("Ice-cold Pass", 4, 4); ("Hellish Pass", 3, 3)].

(** 5,000,000 Yang, and one Hellish Pass an hour later *)
Definition sample_pass_window : list LootEvent :=
  [mkLootEvent 0 5000000 "Yang"; mkLootEvent 3600000000 1 "Hellish Pass"].

(** One Shard, and one Hellish Pass three seconds later *)
Definition sample_truncation_window : list LootEvent :=
  [mkLootEvent 0 1 "Shard"; mkLootEvent 3000000 1 "Hellish Pass"].

(** Two Shards seven seconds apart *)
Definition sample_shard_window : list LootEvent :=
  [mkLootEvent 0 1 "Shard"; mkLootEvent 7000000 1 "Shard"].

(** An application that tracks five crafted Hellish Passes *)
Definition sample_tracking_app : App :=
  set_pass_states init_app {["Hellish Pass" := mkPassState 5 5 0]}.

(** ** Further parts of the program *)

(** [iter_events_from_file], on the lines [for line in f] yields, run to the
    end of the file: the events of the lines that parse, in file order; an
    exception of the parser ends the iteration *)
Fixpoint iter_events_from_file (lines : list string) : result (list LootEvent) :=
  match lines with
  | [] => Ok []
  | line :: rest =>
      bind (parse_log_line line) (fun r =>
        bind (iter_events_from_file rest) (fun evs =>
          Ok (match r with
              | Some ev => ev :: evs
              | None => evs
              end)))
  end.

(** The dictionary returned by [stats_from_events]; the keys ["start"] and
    ["end"] are absent for no events *)
Record EventStats : Type := mkEventStats {
  es_total_yang : Z;
  es_items_qty : odict Z;
  es_hours : Q;
  es_start : option Z;
  es_end : option Z
}.

(** [stats_from_events]: one pass that adds Yang to [total_yang] and every
    other item to [items_qty], then the elapsed hours between the first and
    the last event, at least one second *)
Definition stats_from_events (events : list LootEvent) : EventStats :=
  let total := sum_yang events in
  let items_qty := collect_items_qty events in
  match events with
  | [] => mkEventStats 0 [] 0%Q None None
  | first :: _ =>
      let start_ts := ts first in
      let end_ts := ts (List.last events first) in
      let elapsed_seconds := max_1 (total_seconds (end_ts - start_ts)) in
      mkEventStats total items_qty (fdiv elapsed_seconds 3600)
        (Some start_ts) (Some end_ts)
  end.

(** The lines of a file read one after the other by the loop of [run] *)
Fixpoint run_lines (w : Worker) (lines : list string) : result Worker :=
  match lines with
  | [] => Ok w
  | line :: rest => bind (run_line w line) (fun w' => run_lines w' rest)
  end.

(** Sum of the quantities of the events that satisfy [p] *)
Definition quantity_of (p : LootEvent -> bool) (events : list LootEvent) : Z :=
  Zsum (map quantity (List.filter p events)).

(** The names of [l] in the order in which each is first met, [seen] being
    the names met before *)
Fixpoint first_seen (seen l : list string) : list string :=
  match l with
  | [] => []
  | x :: l' =>
      if bool_decide (x ∈ seen) then first_seen seen l'
      else x :: first_seen (x :: seen) l'
  end.

(** The item names of the events other than Yang, in the order of the events *)
Definition item_names (events : list LootEvent) : list string :=
  map item (List.filter (fun ev => negb (is_yang ev)) events).

(** No character of [s] is a period *)
Definition no_period (s : string) : Prop :=
  string_forall (fun a => negb (Ascii.eqb a ".")) s = true.

(** The snapshot [bi] asks for nothing new of the pass states [ps]: every
    item of it that is a key of the cost table is tracked with a total that
    is at least its quantity *)
Definition covers (costs : gmap string PassCost) (ps : gmap string PassState)
    (bi : odict Z) : Prop :=
  forall name q, (name, q) ∈ bi -> is_Some (costs !! name) ->
    exists s, ps !! name = Some s /\ q <= total s.

(** What holds of the application after any sequence of operations from
    [init_app]: the cost table is [PASS_COSTS], only its keys are tracked,
    [pass_applied] is empty, the snapshot kept asks for nothing new of the
    pass states, and the net currency is the one of that snapshot *)
Definition reach_inv (app : App) : Prop :=
  pass_costs app = PASS_COSTS
  /\ (forall name, is_Some (pass_states app !! name) -> is_Some (PASS_COSTS !! name))
  /\ pass_applied app = ∅
  /\ (pass_states app = ∅
      \/ match last_stats app with
         | Some (SnapStats st) =>
             covers (pass_costs app) (pass_states app) (base_items_of (items st))
         | Some (SnapError _) => True
         | None => False
         end)
  /\ match last_stats app with
     | Some (SnapStats st) =>
         pass_states app <> ∅ ->
         net_yang app =
           total_yang st
           - total_crafting_currency_delta (pass_costs app) (pass_states app)
     | _ => True
     end.

(** The state a reconciliation operation gives a pass of state [s] *)
Definition reconciled (op : Op) (name : string) (s : PassState) : option PassState :=
  match op with
  | OpReclassify n d =>
      if String.eqb n name && (0 <=? d) && (d <=? total s)
      then Some (mkPassState (total s) (total s - d) d) else None
  | OpAllCrafted n =>
      if String.eqb n name then Some (mkPassState (total s) (total s) 0) else None
  | OpAllDropped n =>
      if String.eqb n name then Some (mkPassState (total s) 0 (total s)) else None
  | _ => None
  end.

(** ** The dungeon counters of [update_stats] *)

Definition DUNGEON_CHESTS : gmap string string :=
  list_to_map [
    ("Razador's Chest", "Razador");
    ("Nemere's Chest", "Nemere");
    ("Jotun Thrym's Chest", "Jotun");
    ("Hellgates Chest", "Blue Death")
  ].

(** The body of the loop over [base_items]: [dungeon_runs] and
    [total_dungeon_runs] *)
Definition dungeon_step (acc : gmap string Z * Z) (entry : string * Z)
    : gmap string Z * Z :=
  let '(name, qty) := entry in
  match DUNGEON_CHESTS !! name with
  | None => acc
  | Some dungeon => (<[dungeon := get0 (fst acc) dungeon + qty]> (fst acc), snd acc + qty)
  end.

(** Both counters are reset, then every item that is a chest adds its
    quantity *)
Definition count_dungeon_runs (bi : odict Z) : gmap string Z * Z :=
  fold_left dungeon_step bi (∅, 0).

(** Quantity of the chests of [dungeon] among the items *)
Definition chests_of (dungeon : string) (bi : odict Z) : Z :=
  Zsum (map (fun e : string * Z =>
               if bool_decide (DUNGEON_CHESTS !! fst e = Some dungeon) then snd e else 0)
          bi).

(** ** The retention mode chosen by [start_monitor] *)

Definition US_PER_DAY : Z := 86400 * US_PER_SECOND.

(** [datetime.max] as a count of microseconds *)
Definition MAX_DATETIME : Z := 3652059 * US_PER_DAY - 1.

(** [t - timedelta]: [None] stands for the [OverflowError] raised when the
    result, or the [timedelta] itself, is out of range *)
Definition dt_sub (t delta : Z) : option Z :=
  let r := t - delta in
  if (0 <=? r) && (r <=? MAX_DATETIME) then Some r else None.

(** [t.replace(hour=0, minute=0, second=0, microsecond=0)] *)
Definition midnight (t : Z) : Z := t - t mod US_PER_DAY.

(** [t.weekday()]: Monday is 0; day 0 of the count is a Monday *)
Definition weekday (t : Z) : Z := (t / US_PER_DAY) mod 7.

(** The worker [start_monitor] creates for the preset selected, with [now]
    for [datetime.now()], [window_mins] for [window_minutes_var] and
    [from_start] for [from_start_var]; the second component is [from_start]
    as passed to the worker *)
Definition start_monitor_worker (preset : string) (now window_mins : Z)
    (from_start : bool) : option (Worker * bool) :=
  if String.eqb preset "1h" then
    match dt_sub now (3600 * US_PER_SECOND) with
    | Some fixed => Some (mkWorker window_mins (Some fixed) false [], from_start)
    | None => None
    end
  else if String.eqb preset "today" then
    Some (mkWorker window_mins (Some (midnight now)) false [], from_start)
  else if String.eqb preset "this_week" then
    match dt_sub now (weekday now * US_PER_DAY) with
    | Some fixed => Some (mkWorker window_mins (Some (midnight fixed)) false [], from_start)
    | None => None
    end
  else if String.eqb preset "alltime" then
    Some (mkWorker window_mins None true [], true)
  else if String.eqb preset "custom" then
    match dt_sub now (timedelta_minutes window_mins) with
    | Some fixed => Some (mkWorker window_mins (Some fixed) false [], from_start)
    | None => None
    end
  else
    Some (mkWorker window_mins None false [], from_start).

(** A time of [datetime]'s range *)
Definition in_datetime_range (t : Z) : Prop := 0 <= t <= MAX_DATETIME.

(** ** Rendering from any state *)

(** An item of the table that [render_items] will give a pass state: a key
    of the cost table without one *)
Definition untracked (app : App) (entry : string * Z) : bool :=
  bool_decide (is_Some (pass_costs app !! fst entry))
  && negb (bool_decide (is_Some (pass_states app !! fst entry))).

Definition untracked_count (app : App) : nat :=
  length (List.filter (untracked app) (base_items app)).

(** [a'] has the items and the cost table of [a], and a pass state for
    every pass that has one in [a] *)
Definition extends (a a' : App) : Prop :=
  base_items a' = base_items a
  /\ pass_costs a' = pass_costs a
  /\ forall name, is_Some (pass_states a !! name) -> is_Some (pass_states a' !! name).

(** ** Accuracy of a published rate *)

(** The integer [r] is within one half, plus the rounding of one float
    division, of the exact quotient of the float [q] by the float [h] *)
Definition near_rate (r : Z) (q h : Q) : Prop :=
  (Qabs (inject_Z r - q / h)
   <= (1 # 2) + Qabs (q / h) * pow2 (-53) + pow2 (-1075))%Q.
(** ** Rounding to binary64 *)

Lemma py_round_integer (q : Q) (z : Z) : (q == inject_Z z)%Q -> py_round q = z.
Proof.
  destruct q as [n d]. unfold Qeq, py_round. simpl. intros H.
  assert (Hn : n = z * Z.pos d) by lia. subst n.
  rewrite Z.div_mul by lia. rewrite Z.mod_mul by lia.
  destruct (Z.ltb_spec (2 * 0) (Z.pos d)); [reflexivity|lia].
Qed.

Lemma py_round_near q :
  (inject_Z (py_round q) - (1 # 2) <= q /\ q <= inject_Z (py_round q) + (1 # 2))%Q.
Proof.
  destruct q as [n d]. unfold py_round. cbn [Qnum Qden].
  pose proof (Z.div_mod n (Z.pos d) ltac:(lia)) as Hdm.
  pose proof (Z.mod_pos_bound n (Z.pos d) ltac:(lia)) as Hr.
  revert Hdm Hr. generalize (n / Z.pos d) (n mod Z.pos d). intros f r Hdm Hr.
  assert (Hcases : forall z, (z = f /\ 2 * r <= Z.pos d) \/ (z = f + 1 /\ Z.pos d <= 2 * r) ->
            (inject_Z z - (1 # 2) <= n # d /\ n # d <= inject_Z z + (1 # 2))%Q).
  { intros z Hz. unfold Qle, Qminus, Qplus, Qopp, inject_Z. cbn [Qnum Qden].
    rewrite !Pos2Z.inj_mul. nia. }
  apply Hcases.
  destruct (Z.ltb_spec (2 * r) (Z.pos d)); [left; lia|].
  destruct (Z.ltb_spec (Z.pos d) (2 * r)); [right; lia|].
  destruct (Z.even f); [left|right]; lia.
Qed.

Lemma inject_Z_lt_inv a b : (inject_Z a < inject_Z b)%Q -> a < b.
Proof. unfold Qlt, inject_Z. simpl. lia. Qed.

(** An integer less than one half away is the one [round] returns *)
Lemma py_round_unique (x : Q) (k : Z) :
  (Qabs (x - inject_Z k) < 1 # 2)%Q -> py_round x = k.
Proof.
  intros H. apply Qabs_Qlt_condition in H as [H1 H2].
  destruct (py_round_near x) as [H3 H4].
  assert (Ha : py_round x < k + 1).
  { apply inject_Z_lt_inv. rewrite inject_Z_plus. change (inject_Z 1) with 1%Q. lra. }
  assert (Hb : k < py_round x + 1).
  { apply inject_Z_lt_inv. rewrite inject_Z_plus. change (inject_Z 1) with 1%Q. lra. }
  lia.
Qed.

Lemma py_round_ge (x : Q) (k : Z) : (inject_Z k <= x)%Q -> k <= py_round x.
Proof.
  intros H. destruct (py_round_near x) as [_ H4].
  assert (Ha : k < py_round x + 1).
  { apply inject_Z_lt_inv. rewrite inject_Z_plus. change (inject_Z 1) with 1%Q. lra. }
  lia.
Qed.

Lemma pow2_pos e : (0 < pow2 e)%Q.
Proof. apply Qpower_0_lt. reflexivity. Qed.

Lemma pow2_add a b : (pow2 (a + b) == pow2 a * pow2 b)%Q.
Proof. apply Qpower_plus. discriminate. Qed.

Lemma pow2_le a b : a <= b -> (pow2 a <= pow2 b)%Q.
Proof. intros H. apply Qpower_le_compat_l; [exact H|discriminate]. Qed.

Lemma pow2_lt_inv a b : (pow2 a < pow2 b)%Q -> a < b.
Proof. intros H. apply (Qpower_lt_compat_l_inv 2); [exact H|reflexivity]. Qed.

Lemma pow2_Z e : 0 <= e -> (pow2 e == inject_Z (2 ^ e))%Q.
Proof. intros H. unfold pow2. rewrite Zpower_Qpower by exact H. reflexivity. Qed.

Lemma pow2_succ e : (pow2 (e + 1) == 2 * pow2 e)%Q.
Proof. rewrite pow2_add. change (pow2 1) with 2%Q. ring. Qed.

Lemma Qabs_frac (q : Q) :
  (Qabs q * inject_Z (Z.pos (Qden q)) == inject_Z (Z.abs (Qnum q)))%Q.
Proof.
  destruct q as [n d]. unfold Qabs, Qeq, Qmult, inject_Z. simpl. lia.
Qed.

(** [ilog2 q] is the binary exponent of [q] *)
Lemma ilog2_spec (q : Q) :
  ~ (q == 0)%Q ->
  (pow2 (ilog2 q) <= Qabs q /\ Qabs q < pow2 (ilog2 q + 1))%Q.
Proof.
  intros Hq.
  assert (Hn : 0 < Z.abs (Qnum q)).
  { destruct q as [n d]. unfold Qeq in Hq. simpl in *. lia. }
  pose proof (Z.log2_spec _ Hn) as [Ha1 Ha2].
  pose proof (Z.log2_spec (Z.pos (Qden q)) ltac:(lia)) as [Hb1 Hb2].
  pose proof (Z.log2_nonneg (Z.abs (Qnum q))) as Ha0.
  pose proof (Z.log2_nonneg (Z.pos (Qden q))) as Hb0.
  pose proof (Qabs_frac q) as Hfrac.
  unfold ilog2. cbv zeta.
  set (a := Z.log2 (Z.abs (Qnum q))) in *. set (b := Z.log2 (Z.pos (Qden q))) in *.
  assert (HA : (pow2 a <= inject_Z (Z.abs (Qnum q))
                /\ inject_Z (Z.abs (Qnum q)) < 2 * pow2 a)%Q).
  { rewrite (pow2_Z a Ha0). split.
    - rewrite <- Zle_Qle. exact Ha1.
    - change 2%Q with (inject_Z 2). rewrite <- inject_Z_mult, <- Zlt_Qlt.
      rewrite <- Z.pow_succ_r by exact Ha0. exact Ha2. }
  assert (HB : (pow2 b <= inject_Z (Z.pos (Qden q))
                /\ inject_Z (Z.pos (Qden q)) < 2 * pow2 b)%Q).
  { rewrite (pow2_Z b Hb0). split.
    - rewrite <- Zle_Qle. exact Hb1.
    - change 2%Q with (inject_Z 2). rewrite <- inject_Z_mult, <- Zlt_Qlt.
      rewrite <- Z.pow_succ_r by exact Hb0. exact Hb2. }
  assert (HE : (pow2 (a - b) * pow2 b == pow2 a)%Q).
  { rewrite <- pow2_add. replace (a - b + b) with a by lia. reflexivity. }
  pose proof (pow2_pos (a - b)) as Hp. pose proof (pow2_pos b) as Hpb.
  pose proof (Qabs_nonneg q) as Hq0.
  revert Hfrac HA HB HE Hp Hpb Hq0.
  generalize (Qabs q) (inject_Z (Z.abs (Qnum q))) (inject_Z (Z.pos (Qden q)))
    (pow2 a) (pow2 b). intros x N D A B Hfrac [HA1 HA2] [HB1 HB2] HE Hp Hpb Hq0.
  assert (Hup : (x < 2 * pow2 (a - b))%Q).
  { apply Qnot_le_lt. intros Hc.
    assert ((2 * pow2 (a - b)) * B <= x * D)%Q.
    { apply Qle_trans with (x * B)%Q.
      - apply Qmult_le_compat_r; [exact Hc|lra].
      - rewrite !(Qmult_comm x). apply Qmult_le_compat_r; [lra|exact Hq0]. }
    assert (2 * pow2 (a - b) * B == 2 * A)%Q by (rewrite <- HE; ring). lra. }
  assert (Hlo : (pow2 (a - b) < 2 * x)%Q).
  { apply Qnot_le_lt. intros Hc.
    assert ((2 * x) * D < pow2 (a - b) * (2 * B))%Q.
    { apply Qle_lt_trans with (pow2 (a - b) * D)%Q.
      - apply Qmult_le_compat_r; [exact Hc|lra].
      - apply Qmult_lt_l; [exact Hp|exact HB2]. }
    assert (pow2 (a - b) * (2 * B) == 2 * A)%Q by (rewrite <- HE; ring).
    assert (2 * x * D == 2 * N)%Q by (rewrite <- Hfrac; ring).
    lra. }
  destruct (Qle_bool (pow2 (a - b)) x) eqn:Hle.
  - apply Qle_bool_iff in Hle. split; [exact Hle|]. rewrite pow2_succ. exact Hup.
  - assert (Hlt : (x < pow2 (a - b))%Q).
    { apply Qnot_le_lt. intros Hc. apply Qle_bool_iff in Hc. congruence. }
    replace (a - b - 1 + 1) with (a - b) by lia. split; [|exact Hlt].
    assert (pow2 (a - b) == 2 * pow2 (a - b - 1))%Q.
    { rewrite <- pow2_succ. replace (a - b - 1 + 1) with (a - b) by lia. reflexivity. }
    lra.
Qed.

Lemma ilog2_ge (q : Q) (k : Z) : (pow2 k <= Qabs q)%Q -> k <= ilog2 q.
Proof.
  intros H.
  assert (Hq : ~ (q == 0)%Q).
  { intros He. rewrite He in H. pose proof (pow2_pos k). change (Qabs 0) with 0%Q in H. lra. }
  destruct (ilog2_spec q Hq) as [_ Hup].
  assert (k < ilog2 q + 1); [|lia].
  apply pow2_lt_inv. lra.
Qed.

Lemma ilog2_lt (q : Q) (k : Z) : ~ (q == 0)%Q -> (Qabs q < pow2 k)%Q -> ilog2 q < k.
Proof.
  intros Hq H. destruct (ilog2_spec q Hq) as [Hlo _]. apply pow2_lt_inv. lra.
Qed.

Lemma fl_zero (q : Q) : (q == 0)%Q -> fl q = 0%Q.
Proof. intros H. unfold fl. apply Qeq_bool_iff in H. rewrite H. reflexivity. Qed.

Lemma fl_eq (q : Q) :
  ~ (q == 0)%Q ->
  (fl q == inject_Z (py_round (q / pow2 (Z.max (ilog2 q - 52) (-1074))))
           * pow2 (Z.max (ilog2 q - 52) (-1074)))%Q.
Proof.
  intros Hq. unfold fl.
  destruct (Qeq_bool q 0) eqn:He; [apply Qeq_bool_iff in He; contradiction|].
  cbv zeta. apply Qred_correct.
Qed.

(** The result of [fl] is within half a unit of the last bit *)
Lemma fl_error (q : Q) :
  ~ (q == 0)%Q ->
  (Qabs (fl q - q) <= pow2 (Z.max (ilog2 q - 52) (-1074)) * (1 # 2))%Q.
Proof.
  intros Hq. rewrite (fl_eq q Hq).
  set (E := Z.max (ilog2 q - 52) (-1074)).
  pose proof (pow2_pos E) as HP.
  destruct (py_round_near (q / pow2 E)) as [H1 H2].
  assert (Hx : (q == q / pow2 E * pow2 E)%Q) by (field; lra).
  revert H1 H2 Hx. generalize (q / pow2 E)%Q. intros x.
  generalize (py_round x). intros m H1 H2 Hx.
  apply Qabs_Qle_condition. rewrite Hx.
  assert (Ha : ((inject_Z m - x) * pow2 E <= (1 # 2) * pow2 E)%Q).
  { apply Qmult_le_compat_r; lra. }
  assert (Hb : ((x - inject_Z m) * pow2 E <= (1 # 2) * pow2 E)%Q).
  { apply Qmult_le_compat_r; lra. }
  split; lra.
Qed.

Lemma fl_rel_error (q : Q) :
  (Qabs (fl q - q) <= Qabs q * pow2 (-53) + pow2 (-1075))%Q.
Proof.
  pose proof (pow2_pos (-1075)) as H1075. pose proof (pow2_pos (-53)) as H53.
  pose proof (Qabs_nonneg q) as Hq0.
  destruct (Qeq_dec q 0) as [Hz|Hq].
  - rewrite (fl_zero q Hz). rewrite Hz. change (Qabs (0 - 0)) with 0%Q.
    change (Qabs 0) with 0%Q. lra.
  - pose proof (fl_error q Hq) as He. destruct (ilog2_spec q Hq) as [Hlo _].
    destruct (Z.max_spec (ilog2 q - 52) (-1074)) as [[_ ->]|[_ ->]] in He.
    + assert (pow2 (-1074) * (1 # 2) == pow2 (-1075))%Q by reflexivity.
      assert (0 <= Qabs q * pow2 (-53))%Q by (apply Qmult_le_0_compat; lra). lra.
    + assert (Hp : (pow2 (ilog2 q - 52) * (1 # 2) == pow2 (ilog2 q) * pow2 (-53))%Q).
      { replace (ilog2 q - 52) with (ilog2 q + (-52)) by lia. rewrite pow2_add.
        assert (pow2 (-52) * (1 # 2) == pow2 (-53))%Q by reflexivity.
        rewrite <- Qmult_assoc. rewrite H. reflexivity. }
      assert (pow2 (ilog2 q) * pow2 (-53) <= Qabs q * pow2 (-53))%Q.
      { apply Qmult_le_compat_r; lra. }
      lra.
Qed.

(** A number of the normal range is not rounded below its power of two *)
Lemma fl_normal_ge (q : Q) :
  (0 < q)%Q -> -1022 <= ilog2 q -> (pow2 (ilog2 q) <= fl q)%Q.
Proof.
  intros Hpos HL.
  assert (Hq : ~ (q == 0)%Q) by lra.
  rewrite (fl_eq q Hq). rewrite Z.max_l by lia.
  destruct (ilog2_spec q Hq) as [Hlo _]. rewrite Qabs_pos in Hlo by lra.
  pose proof (pow2_pos (ilog2 q - 52)) as HP.
  assert (Hsplit : (pow2 (ilog2 q) == inject_Z (2 ^ 52) * pow2 (ilog2 q - 52))%Q).
  { rewrite <- (pow2_Z 52) by lia. rewrite <- pow2_add.
    replace (52 + (ilog2 q - 52)) with (ilog2 q) by lia. reflexivity. }
  assert (Hx : (inject_Z (2 ^ 52) <= q / pow2 (ilog2 q - 52))%Q).
  { apply Qle_shift_div_l; [exact HP|]. rewrite <- Hsplit. exact Hlo. }
  apply py_round_ge in Hx. rewrite Hsplit.
  apply Qmult_le_compat_r; [|lra]. rewrite <- Zle_Qle. exact Hx.
Qed.

Lemma fl_pos (q : Q) : (pow2 (-1022) <= q)%Q -> (0 < fl q)%Q.
Proof.
  intros H. pose proof (pow2_pos (-1022)) as Hp.
  assert (Hpos : (0 < q)%Q) by lra.
  assert (HL : -1022 <= ilog2 q).
  { apply ilog2_ge. rewrite Qabs_pos by lra. exact H. }
  pose proof (fl_normal_ge q Hpos HL). pose proof (pow2_pos (ilog2 q)). lra.
Qed.

(** A number that is a multiple of its unit of the last bit is a float *)
Lemma fl_exact (q : Q) (k : Z) :
  ~ (q == 0)%Q ->
  (q == inject_Z k * pow2 (Z.max (ilog2 q - 52) (-1074)))%Q ->
  (fl q == q)%Q.
Proof.
  intros Hq Hk. rewrite (fl_eq q Hq).
  set (E := Z.max (ilog2 q - 52) (-1074)) in *.
  pose proof (pow2_pos E) as HP.
  rewrite (py_round_integer _ k).
  - symmetry. exact Hk.
  - rewrite Hk. field. lra.
Qed.

Lemma Qred_inject_Z (z : Z) : Qred (inject_Z z) = inject_Z z.
Proof.
  pose proof (Qred_correct (inject_Z z)) as Hc.
  pose proof (gcd_Qred (inject_Z z)) as Hg.
  destruct (Qred (inject_Z z)) as [n d]. unfold Qeq, inject_Z in *. cbn [Qnum Qden] in *.
  assert (Hn : n = z * Z.pos d) by lia. subst n.
  rewrite Z.gcd_comm in Hg.
  assert (Hd : Z.gcd (Z.pos d) (z * Z.pos d) = Z.pos d).
  { apply Z.divide_gcd_iff; [lia|]. apply Z.divide_factor_r. }
  rewrite Hd in Hg. injection Hg as ->. f_equal. lia.
Qed.

Lemma fl_inject_Z (q : Q) (z : Z) : (fl q == inject_Z z)%Q -> fl q = inject_Z z.
Proof.
  unfold fl. destruct (Qeq_bool q 0).
  - intros H. unfold Qeq, inject_Z in *. simpl in *. f_equal. lia.
  - cbv zeta. intros H. rewrite <- (Qred_inject_Z z). apply Qred_complete.
    rewrite <- H. symmetry. apply Qred_correct.
Qed.

(** An [int] of fewer than 54 bits converts without rounding *)
Lemma float_of_int_exact (z : Z) : Z.abs z < 2 ^ 53 -> float_of_int z = inject_Z z.
Proof.
  intros Hz. unfold float_of_int. apply fl_inject_Z.
  destruct (Z.eq_dec z 0) as [->|Hne]; [reflexivity|].
  assert (Hq : ~ (inject_Z z == 0)%Q).
  { unfold Qeq, inject_Z. simpl. lia. }
  assert (Habs : (Qabs (inject_Z z) == inject_Z (Z.abs z))%Q) by reflexivity.
  assert (H0 : 0 <= ilog2 (inject_Z z)).
  { apply ilog2_ge. rewrite Habs. change (pow2 0) with (inject_Z 1).
    rewrite <- Zle_Qle. lia. }
  assert (H53 : ilog2 (inject_Z z) < 53).
  { apply ilog2_lt; [exact Hq|]. rewrite Habs, (pow2_Z 53) by lia.
    rewrite <- Zlt_Qlt. exact Hz. }
  apply (fl_exact _ (z * 2 ^ (52 - ilog2 (inject_Z z))) Hq).
  rewrite Z.max_l by lia. rewrite inject_Z_mult.
  rewrite <- (pow2_Z (52 - ilog2 (inject_Z z))) by lia.
  rewrite <- Qmult_assoc, <- pow2_add.
  replace (52 - ilog2 (inject_Z z) + (ilog2 (inject_Z z) - 52)) with 0 by lia.
  change (pow2 0) with 1%Q. ring.
Qed.

(** Rounding a float quotient that is close to an integer multiple of its
    unit of the last bit gives that integer *)
Lemma round_fl_near_int (q : Q) (N k t : Z) :
  (0 < q)%Q -> -1022 <= ilog2 q -> ilog2 q - 52 <= t ->
  (inject_Z N == inject_Z k * pow2 t)%Q ->
  (Qabs (q - inject_Z N) <= 1 # 8)%Q ->
  py_round (fl q) = N.
Proof.
  intros Hpos HL Ht HN Hnear.
  assert (Hq : ~ (q == 0)%Q) by lra.
  pose proof (fl_error q Hq) as Herr. pose proof (fl_eq q Hq) as Heq.
  rewrite Z.max_l in Herr, Heq by lia.
  set (E := ilog2 q - 52) in *.
  pose proof (pow2_pos E) as HP.
  assert (HK : (inject_Z N == inject_Z (k * 2 ^ (t - E)) * pow2 E)%Q).
  { rewrite inject_Z_mult, <- (pow2_Z (t - E)) by lia.
    rewrite <- Qmult_assoc, <- pow2_add. replace (t - E + E) with t by lia. exact HN. }
  destruct (Qlt_le_dec (Qabs (q - inject_Z N)) (pow2 E * (1 # 2))) as [Hlt|Hge].
  - assert (Hm : py_round (q / pow2 E) = k * 2 ^ (t - E)).
    { apply py_round_unique.
      assert (Hd : (q / pow2 E - inject_Z (k * 2 ^ (t - E))
                    == (q - inject_Z N) / pow2 E)%Q).
      { rewrite HK. field. lra. }
      rewrite Hd. apply Qabs_Qlt_condition in Hlt as [H1 H2].
      apply Qabs_Qlt_condition. split.
      - apply Qlt_shift_div_l; [exact HP|]. lra.
      - apply Qlt_shift_div_r; [exact HP|]. lra. }
    apply py_round_integer. rewrite Heq, Hm. symmetry. exact HK.
  - apply py_round_unique.
    apply Qabs_Qle_condition in Herr as [H1 H2].
    pose proof Hnear as Hnear'. apply Qabs_Qle_condition in Hnear' as [H3 H4].
    apply Qabs_Qlt_condition. split; lra.
Qed.

(** ** One second of elapsed time *)

Lemma hours_of_one_second :
  fdiv (max_1 (total_seconds 0)) 3600 = 5124095576030431 # 18446744073709551616.
Proof. vm_compute. reflexivity. Qed.

Lemma minutes_of_one_second :
  fdiv (max_1 (total_seconds 0)) 60 = 4803839602528529 # 288230376151711744.
Proof. vm_compute. reflexivity. Qed.

Lemma scaled_by_float_inverse (z a b c k t top : Z) (pa pb : positive) :
  a = Z.pos pa -> b = Z.pos pb ->
  0 < z ->
  Z.abs z < 2 ^ 53 ->
  (* the divisor [a / b] is [1 / c] less one part in [b / (b - c a)] *)
  0 <= b - c * a ->
  8 * z * (b - c * a) <= a ->
  a <= z * b ->
  z * b < 2 ^ top * a -> 0 <= top -> top - 53 <= t -> 0 <= t ->
  c * z = k * 2 ^ t ->
  py_round (fdiv (float_of_int z) (Z.pos pa # pb)) = c * z.
Proof.
  intros -> -> Hz Hz53 Hgap Hnear Hone Htop Htop0 Ht Ht0 Hk.
  rewrite float_of_int_exact by exact Hz53. unfold fdiv.
  assert (Hq : (inject_Z z / (Z.pos pa # pb) == (z * Z.pos pb) # pa)%Q).
  { unfold Qeq, Qdiv, Qmult, Qinv, inject_Z. simpl. lia. }
  assert (Hpos : (0 < inject_Z z / (Z.pos pa # pb))%Q).
  { rewrite Hq. unfold Qlt. simpl. lia. }
  apply (round_fl_near_int _ (c * z) k t Hpos).
  - assert (0 <= ilog2 (inject_Z z / (Z.pos pa # pb))); [|lia].
    apply ilog2_ge. rewrite Qabs_pos by lra. rewrite Hq.
    change (pow2 0) with 1%Q. unfold Qle. simpl. lia.
  - assert (ilog2 (inject_Z z / (Z.pos pa # pb)) < top); [|lia].
    apply ilog2_lt; [lra|]. rewrite Qabs_pos by lra. rewrite Hq.
    rewrite (pow2_Z top) by exact Htop0. unfold Qlt, inject_Z. simpl. lia.
  - rewrite Hk, inject_Z_mult, (pow2_Z t) by exact Ht0. reflexivity.
  - rewrite Hq. apply Qabs_Qle_condition.
    unfold Qle, Qminus, Qplus, Qopp, inject_Z. simpl. split; nia.
Qed.

Lemma per_hour_of_one_second (z : Z) :
  0 <= z < 40031996687739 ->
  py_round (fdiv (float_of_int z) (fdiv (max_1 (total_seconds 0)) 3600)) = 3600 * z.
Proof.
  intros Hz. rewrite hours_of_one_second.
  destruct (Z.eq_dec z 0) as [->|H0]; [vm_compute; reflexivity|].
  destruct (Z.eq_dec z 40031996687738) as [->|Htop]; [vm_compute; reflexivity|].
  apply (scaled_by_float_inverse z 5124095576030431 18446744073709551616 3600
           (225 * z) 4 57); try reflexivity; lia.
Qed.

Lemma per_minute_of_one_second (z : Z) :
  0 <= z < 40031996687739 ->
  py_round (fdiv (float_of_int z) (fdiv (max_1 (total_seconds 0)) 60)) = 60 * z.
Proof.
  intros Hz. rewrite minutes_of_one_second.
  destruct (Z.eq_dec z 0) as [->|H0]; [vm_compute; reflexivity|].
  apply (scaled_by_float_inverse z 4803839602528529 288230376151711744 60
           (15 * z) 2 55); try reflexivity; lia.
Qed.

Lemma fl_rel_error_normal (q : Q) :
  (pow2 (-1022) <= Qabs q)%Q -> (Qabs (fl q - q) <= Qabs q * pow2 (-53))%Q.
Proof.
  intros Hn. pose proof (pow2_pos (-1022)) as Hp.
  assert (Hq : ~ (q == 0)%Q).
  { intros He. rewrite He in Hn. change (Qabs 0) with 0%Q in Hn. lra. }
  pose proof (fl_error q Hq) as He. destruct (ilog2_spec q Hq) as [Hlo _].
  pose proof (ilog2_ge q (-1022) Hn) as HL.
  rewrite Z.max_l in He by lia.
  assert (Hp2 : (pow2 (ilog2 q - 52) * (1 # 2) == pow2 (ilog2 q) * pow2 (-53))%Q).
  { replace (ilog2 q - 52) with (ilog2 q + (-52)) by lia. rewrite pow2_add.
    assert (H : (pow2 (-52) * (1 # 2) == pow2 (-53))%Q) by reflexivity.
    rewrite <- Qmult_assoc. rewrite H. reflexivity. }
  pose proof (pow2_pos (-53)) as H53.
  assert (pow2 (ilog2 q) * pow2 (-53) <= Qabs q * pow2 (-53))%Q.
  { apply Qmult_le_compat_r; lra. }
  lra.
Qed.

Lemma near_rate_round (q h : Q) : near_rate (py_round (fdiv q h)) q h.
Proof.
  unfold near_rate, fdiv.
  destruct (py_round_near (fl (q / h))) as [H1 H2].
  pose proof (fl_rel_error (q / h)) as H3.
  apply Qabs_Qle_condition in H3 as [H3 H4].
  apply Qabs_Qle_condition. split; lra.
Qed.

(** * Properties *)

(** ** The trailing window *)

Section Window.

Lemma le_ts_trans : Transitive le_ts.
Proof. unfold le_ts. intros x y z; lia. Qed.

Lemma popleft_while_drop bound win :
  exists n, popleft_while bound win = drop n win.
Proof.
  induction win as [|e win IH]; simpl.
  - exists 0%nat. reflexivity.
  - destruct (ts e <? bound).
    + destruct IH as [n Hn]. exists (S n). exact Hn.
    + exists 0%nat. reflexivity.
Qed.

Lemma filter_all (bound : Z) (win : list LootEvent) :
  Forall (fun e => bound <= ts e) win ->
  filter (fun e => bound <= ts e) win = win.
Proof.
  induction 1 as [|e win He _ IH]; [reflexivity|].
  rewrite filter_cons_True by exact He. by rewrite IH.
Qed.

Lemma popleft_while_filter bound win :
  StronglySorted le_ts win ->
  popleft_while bound win = filter (fun e => bound <= ts e) win.
Proof.
  induction 1 as [|e win Hs IH Hall]; [reflexivity|].
  simpl. destruct (Z.ltb_spec (ts e) bound) as [Hlt|Hge].
  - rewrite filter_cons_False by lia. exact IH.
  - symmetry. apply (filter_all bound (e :: win)).
    constructor; [exact Hge|].
    eapply Forall_impl; [exact Hall|]. unfold le_ts. simpl. intros; lia.
Qed.

Lemma sorted_filter (bound : Z) (win : list LootEvent) :
  StronglySorted le_ts win ->
  StronglySorted le_ts (filter (fun e => bound <= ts e) win).
Proof.
  induction 1 as [|e l Hs IH Hall].
  - rewrite filter_nil. constructor.
  - rewrite filter_cons. destruct (decide _); [|exact IH].
    constructor; [exact IH|].
    rewrite Forall_forall in *. intros x Hx.
    apply list_elem_of_filter in Hx. destruct Hx as [_ Hx]. by apply Hall.
Qed.

Lemma trailing_mode_kept w ev :
  unlimited w = false -> fixed_start_ts w = None ->
  unlimited (add_event w ev) = false
  /\ fixed_start_ts (add_event w ev) = None
  /\ window_minutes (add_event w ev) = window_minutes w
  /\ window (add_event w ev) =
       popleft_while (ts ev - timedelta_minutes (window_minutes w))
         (window w ++ [ev]).
Proof.
  intros Hu Hf. unfold add_event. rewrite Hu, Hf. simpl. auto.
Qed.

Lemma trailing_mode_run evs : forall w,
  unlimited w = false -> fixed_start_ts w = None ->
  unlimited (fold_left add_event evs w) = false
  /\ fixed_start_ts (fold_left add_event evs w) = None
  /\ window_minutes (fold_left add_event evs w) = window_minutes w.
Proof.
  induction evs as [|ev evs IH]; intros w Hu Hf; simpl; [auto|].
  destruct (trailing_mode_kept w ev Hu Hf) as (Hu' & Hf' & Hm & _).
  destruct (IH _ Hu' Hf') as (? & ? & ?). repeat split; congruence.
Qed.

(** The window is a filter of everything appended, at the bound of the
    latest event *)
Lemma trailing_window_filter D evs ev :
  StronglySorted le_ts (evs ++ [ev]) ->
  window (fold_left add_event (evs ++ [ev]) (trailing_worker D)) =
  filter (fun e => ts ev - timedelta_minutes D <= ts e) (evs ++ [ev]).
Proof.
  revert ev. induction evs as [|ev' evs IH] using rev_ind; intros ev Hs.
  - simpl. unfold add_event. simpl.
    destruct (Z.ltb_spec (ts ev) (ts ev - timedelta_minutes D)).
    + rewrite filter_cons_False by lia. reflexivity.
    + rewrite filter_cons_True by lia. reflexivity.
  - rewrite fold_left_app. simpl.
    pose proof (StronglySorted_app_1_l _ _ _ Hs) as Hs'.
    specialize (IH ev' Hs').
    destruct (trailing_mode_run (evs ++ [ev']) (trailing_worker D) eq_refl eq_refl)
      as (Hu & Hf & Hm).
    destruct (trailing_mode_kept _ ev Hu Hf) as (_ & _ & _ & Hw).
    rewrite Hw, Hm, IH. simpl window_minutes.
    assert (Hle : ts ev' <= ts ev).
    { apply (StronglySorted_app_1_elem_of le_ts _ _ ev' ev Hs).
      - apply elem_of_app; right. apply list_elem_of_singleton; reflexivity.
      - apply list_elem_of_singleton; reflexivity. }
    rewrite popleft_while_filter.
    + rewrite (filter_app _ (evs ++ [ev']) [ev]).
      rewrite (filter_app _ (filter _ _) [ev]).
      f_equal. rewrite list_filter_filter.
      apply list_filter_iff. intros e. lia.
    + apply StronglySorted_app_2.
      * intros x1 x2 Hx1 Hx2.
        apply list_elem_of_singleton in Hx2. subst x2.
        apply list_elem_of_filter in Hx1. destruct Hx1 as [_ Hx1].
        apply (StronglySorted_app_1_elem_of le_ts _ _ x1 ev Hs Hx1).
        apply list_elem_of_singleton; reflexivity.
      * apply sorted_filter. exact Hs'.
      * repeat constructor.
Qed.

End Window.

(** C1. Appending events with non-decreasing timestamps one by one to a
    worker in trailing-window mode leaves, after each append, exactly the
    events appended so far whose timestamp is at least the timestamp of the
    event just appended minus the window length, and the append drops
    events from the front of the window only. *)
Theorem trailing_window_exact (window_mins : Z) (evs : list LootEvent) (ev : LootEvent) :
  nondecreasing (evs ++ [ev]) ->
  let w := fold_left add_event evs (trailing_worker window_mins) in
  window (add_event w ev) =
    filter (fun e => ts ev - timedelta_minutes window_mins <= ts e) (evs ++ [ev])
  /\ exists n, window (add_event w ev) = drop n (window w ++ [ev]).
Proof.
  intros Hs w. split.
  - pose proof (trailing_window_filter window_mins evs ev) as H.
    rewrite fold_left_app in H. simpl in H. apply H.
    apply Sorted_StronglySorted; [apply le_ts_trans|exact Hs].
  - destruct (trailing_mode_run evs (trailing_worker window_mins) eq_refl eq_refl)
      as (Hu & Hf & _).
    destruct (trailing_mode_kept w ev Hu Hf) as (_ & _ & _ & Hw).
    rewrite Hw. apply popleft_while_drop.
Qed.

Lemma trailing_window_exact_witness :
  nondecreasing
    ([mkLootEvent 0 5 "Yang"; mkLootEvent 3600000000 1 "Shard"]
       ++ [mkLootEvent 3660000000 2 "Shard"])
  /\ window (fold_left add_event
               [mkLootEvent 0 5 "Yang"; mkLootEvent 3600000000 1 "Shard";
                mkLootEvent 3660000000 2 "Shard"]
               (trailing_worker 60)) =
     [mkLootEvent 3600000000 1 "Shard"; mkLootEvent 3660000000 2 "Shard"].
Proof.
  assert (Hs : nondecreasing
    ([mkLootEvent 0 5 "Yang"; mkLootEvent 3600000000 1 "Shard"]
       ++ [mkLootEvent 3660000000 2 "Shard"])).
  { repeat constructor; unfold le_ts; simpl; lia. }
  split; [exact Hs|].
  destruct (trailing_window_exact 60 _ _ Hs) as [H _].
  etransitivity; [exact H|]. vm_compute. reflexivity.
Defined.

(** ** Statistics of the window *)

(** C10 (amended). On an empty window [compute_stats_from_window] returns
    [None]; on a window of exactly one event the elapsed time is the floor
    of one second, the hours and minutes are the floats [1 / 3600.0] and
    [1 / 60.0], and every rate is the rounded float quotient of the quantity
    by them.  For a quantity below 40,031,996,687,739 that is the quantity
    times 3600 (per hour) or times 60 (per minute). *)
Theorem compute_empty_and_single (window_mins : Z) (fixed : option Z) (unl : bool) :
  compute_stats_from_window (mkWorker window_mins fixed unl []) = None
  /\ forall ev : LootEvent,
       exists st : Stats,
         compute_stats_from_window (mkWorker window_mins fixed unl [ev]) = Some st
         /\ start st = ts ev /\ end_ st = ts ev
         /\ max_1 (total_seconds (end_ st - start st)) = 1%Q
         /\ hours st = fdiv 1 3600 /\ minutes st = fdiv 1 60
         /\ total_yang st = (if is_yang ev then quantity ev else 0)
         /\ yang_per_hour st
            = py_round (fdiv (float_of_int (total_yang st)) (fdiv 1 3600))
         /\ yang_per_minute st
            = py_round (fdiv (float_of_int (total_yang st)) (fdiv 1 60))
         /\ items st =
              (if is_yang ev then []
               else [(item ev, quantity ev,
                      py_round (fdiv (float_of_int (quantity ev)) (fdiv 1 3600)))])
         /\ (0 <= quantity ev < 40031996687739 ->
             yang_per_hour st = 3600 * total_yang st
             /\ yang_per_minute st = 60 * total_yang st
             /\ items st =
                  (if is_yang ev then []
                   else [(item ev, quantity ev, 3600 * quantity ev)])).
Proof.
  split; [reflexivity|]. intros ev.
  eexists. split; [reflexivity|]. cbn [start end_ hours minutes total_yang
    yang_per_hour yang_per_minute items window List.last].
  rewrite Z.sub_diag.
  change (max_1 (total_seconds 0)) with 1%Q.
  assert (Hy : sum_yang [ev] = (if is_yang ev then quantity ev else 0)).
  { unfold sum_yang. simpl. destruct (is_yang ev); reflexivity. }
  assert (Hitems : forall r : Z -> Z,
            sort_desc (fun x : string * Z * Z => snd (fst x))
              (map (fun '(name, qty) => (name, qty, r qty)) (collect_items_qty [ev]))
            = (if is_yang ev then [] else [(item ev, quantity ev, r (quantity ev))])).
  { intros r. unfold collect_items_qty, items_qty_add. simpl.
    destruct (is_yang ev); reflexivity. }
  split; [reflexivity|]. split; [reflexivity|]. split; [reflexivity|].
  split; [reflexivity|]. split; [reflexivity|]. split; [exact Hy|].
  split; [reflexivity|]. split; [reflexivity|].
  split; [exact (Hitems (fun qty => py_round (fdiv (float_of_int qty) (fdiv 1 3600))))|].
  intros Hq.
  assert (Hty : 0 <= sum_yang [ev] < 40031996687739).
  { rewrite Hy. destruct (is_yang ev); lia. }
  pose proof (per_hour_of_one_second _ Hty) as Hh.
  pose proof (per_minute_of_one_second _ Hty) as Hm.
  pose proof (per_hour_of_one_second _ Hq) as Hi.
  change (max_1 (total_seconds 0)) with 1%Q in Hh, Hm, Hi.
  split; [exact Hh|]. split; [exact Hm|].
  rewrite (Hitems (fun qty => py_round (fdiv (float_of_int qty) (fdiv 1 3600)))).
  destruct (is_yang ev); [reflexivity|]. by rewrite Hi.
Qed.

Lemma compute_empty_and_single_witness :
  exists st : Stats,
    compute_stats_from_window (mkWorker 60 None false [mkLootEvent 0 5000000 "Yang"])
    = Some st
    /\ yang_per_hour st = 3600 * 5000000 /\ yang_per_minute st = 60 * 5000000.
Proof.
  destruct (proj2 (compute_empty_and_single 60 None false) (mkLootEvent 0 5000000 "Yang"))
    as (st & Hc & _ & _ & _ & _ & _ & Hy & _ & _ & _ & Hsmall).
  destruct (Hsmall ltac:(simpl; lia)) as (Hh & Hm & _).
  exists st. split; [exact Hc|]. rewrite Hh, Hm, Hy. split; reflexivity.
Defined.

(** The rate of one event is not always its quantity times 3600: the
    division by the float [1 / 3600.0] is rounded, and from 40,031,996,687,739
    on the error reaches the integer part. *)
Lemma compute_single_rate_counterexample :
  exists st : Stats,
    compute_stats_from_window
      (mkWorker 60 None false [mkLootEvent 0 40031996687739 "Yang"]) = Some st
    /\ total_yang st = 40031996687739
    /\ yang_per_hour st = 3600 * 40031996687739 + 16
    /\ yang_per_hour st <> 3600 * total_yang st.
Proof.
  eexists. split; [vm_compute; reflexivity|]. simpl.
  split; [reflexivity|]. split; [reflexivity|]. discriminate.
Qed.

Example compute_shard_window :
  compute_stats_from_window (mkWorker 60 None false sample_shard_window)
  = Some (mkStats 0 7000000 (fdiv 7 3600) (fdiv 7 60) 0 0 0 [("Shard", 2, 1029)]).
Proof. vm_compute. reflexivity. Qed.

(** ** The parser *)

Section Strings.

Lemma sapp_nil_l (s : string) : "" +:+ s = s.
Proof. reflexivity. Qed.

Lemma sapp_cons (a : ascii) (s1 s2 : string) :
  String a s1 +:+ s2 = String a (s1 +:+ s2).
Proof. reflexivity. Qed.

Lemma sapp_nil_r (s : string) : s +:+ "" = s.
Proof. induction s as [|a s IH]; [reflexivity|]. by rewrite sapp_cons, IH. Qed.

Lemma sapp_assoc (s1 s2 s3 : string) : (s1 +:+ s2) +:+ s3 = s1 +:+ s2 +:+ s3.
Proof.
  induction s1 as [|a s1 IH]; [reflexivity|]. by rewrite !sapp_cons, IH.
Qed.

Lemma sapp_length (s1 s2 : string) :
  String.length (s1 +:+ s2) = (String.length s1 + String.length s2)%nat.
Proof.
  induction s1 as [|a s1 IH]; [reflexivity|].
  rewrite sapp_cons. simpl. by rewrite IH.
Qed.

Lemma string_forall_app p s1 s2 :
  string_forall p (s1 +:+ s2) = string_forall p s1 && string_forall p s2.
Proof.
  induction s1 as [|a s1 IH]; [reflexivity|].
  rewrite sapp_cons. simpl. rewrite IH. by rewrite andb_assoc.
Qed.

Lemma strip_prefix_app l s : strip_prefix l (l +:+ s) = Some s.
Proof.
  induction l as [|c l IH]; [reflexivity|].
  rewrite sapp_cons. simpl. by rewrite Ascii.eqb_refl.
Qed.

Lemma strip_prefix_Some l s s' : strip_prefix l s = Some s' -> s = l +:+ s'.
Proof.
  revert s. induction l as [|c l IH]; intros s H; simpl in H.
  - by inversion H.
  - destruct s as [|a s]; [discriminate|].
    destruct (Ascii.eqb_spec c a) as [->|]; [|discriminate].
    rewrite sapp_cons. f_equal. by apply IH.
Qed.

Lemma take_class_app cl m s :
  string_forall (cclass_match cl) m = true ->
  take_class cl (String.length m) (m +:+ s) = Some (m, s).
Proof.
  induction m as [|a m IH]; [reflexivity|]. simpl. intros H.
  apply andb_true_iff in H as [Ha Hm].
  rewrite ?sapp_cons. simpl. rewrite Ha, (IH Hm). reflexivity.
Qed.

Lemma take_class_Some cl n s m s' :
  take_class cl n s = Some (m, s') ->
  s = m +:+ s' /\ String.length m = n
  /\ string_forall (cclass_match cl) m = true.
Proof.
  revert s m. induction n as [|n IH]; intros s m H; simpl in H.
  - inversion H; subst. auto.
  - destruct s as [|a s]; [discriminate|].
    destruct (cclass_match cl a) eqn:Ha; [|discriminate].
    destruct (take_class cl n s) as [[m0 r0]|] eqn:Ht; [|discriminate].
    inversion H; subst. destruct (IH _ _ Ht) as (-> & <- & Hall).
    rewrite sapp_cons. simpl. rewrite Ha, Hall. auto.
Qed.

End Strings.

Section Matcher.

Context {R : Type}.
Implicit Types (k : string -> string -> option R).

Lemma plus_greedy_stops cl k acc s : stops cl s -> plus_greedy cl k acc s = None.
Proof. destruct s as [|a s]; simpl; [reflexivity|]. by intros ->. Qed.

(** The greedy loop takes the longest run when the continuation accepts it *)
Lemma plus_greedy_fwd cl k m : forall acc s res,
  m <> "" ->
  string_forall (cclass_match cl) m = true ->
  stops cl s ->
  k (acc +:+ m) s = Some res ->
  plus_greedy cl k acc (m +:+ s) = Some res.
Proof.
  induction m as [|a m IH]; intros acc s res Hne Hall Hstop Hk; [done|].
  simpl in Hall. apply andb_true_iff in Hall as [Ha Hm].
  rewrite sapp_cons. simpl. rewrite Ha.
  destruct m as [|b m].
  - rewrite sapp_nil_l, (plus_greedy_stops _ _ _ _ Hstop). exact Hk.
  - rewrite (IH (acc +:+ String a "") s res); [reflexivity|done|exact Hm|exact Hstop|].
    by rewrite sapp_assoc.
Qed.

(** The lazy loop stops at the first length the continuation accepts *)
Lemma plus_lazy_fwd cl k m : forall acc s res,
  m <> "" ->
  string_forall (cclass_match cl) m = true ->
  k (acc +:+ m) s = Some res ->
  (forall p p', m = p +:+ p' -> p <> "" -> p' <> "" ->
                k (acc +:+ p) (p' +:+ s) = None) ->
  plus_lazy cl k acc (m +:+ s) = Some res.
Proof.
  induction m as [|a m IH]; intros acc s res Hne Hall Hk Hmin; [done|].
  simpl in Hall. apply andb_true_iff in Hall as [Ha Hm].
  rewrite sapp_cons. simpl. rewrite Ha.
  destruct m as [|b m].
  - rewrite sapp_nil_l. by rewrite Hk.
  - rewrite (Hmin (String a "") (String b m)); [|reflexivity|done|done].
    apply IH; [done|exact Hm|by rewrite sapp_assoc|].
    intros p p' Hsplit Hp Hp'. rewrite sapp_assoc.
    apply Hmin; [|done|done]. rewrite !sapp_cons, sapp_nil_l. by f_equal.
Qed.

Lemma plus_greedy_sound cl k s : forall acc res,
  plus_greedy cl k acc s = Some res ->
  exists m s', m <> "" /\ string_forall (cclass_match cl) m = true
               /\ s = m +:+ s' /\ k (acc +:+ m) s' = Some res.
Proof.
  induction s as [|a s IH]; intros acc res H; simpl in H; [discriminate|].
  destruct (cclass_match cl a) eqn:Ha; [|discriminate].
  destruct (plus_greedy cl k (acc +:+ String a "") s) as [r|] eqn:Hg.
  - inversion H; subst r.
    destruct (IH _ _ Hg) as (m & s' & _ & Hall & -> & Hk).
    exists (String a m), s'. simpl. rewrite Ha, Hall.
    repeat split; [done|]. by rewrite sapp_assoc in Hk.
  - exists (String a ""), s. simpl. rewrite Ha. repeat split; done.
Qed.

Lemma plus_lazy_sound cl k s : forall acc res,
  plus_lazy cl k acc s = Some res ->
  exists m s', m <> "" /\ string_forall (cclass_match cl) m = true
               /\ s = m +:+ s' /\ k (acc +:+ m) s' = Some res.
Proof.
  induction s as [|a s IH]; intros acc res H; simpl in H; [discriminate|].
  destruct (cclass_match cl a) eqn:Ha; [|discriminate].
  destruct (k (acc +:+ String a "") s) as [r|] eqn:Hk0.
  - inversion H; subst r.
    exists (String a ""), s. simpl. rewrite Ha. repeat split; done.
  - destruct (IH _ _ H) as (m & s' & _ & Hall & -> & Hk).
    exists (String a m), s'. simpl. rewrite Ha, Hall.
    repeat split; [done|]. by rewrite sapp_assoc in Hk.
Qed.

End Matcher.

(** Whatever the matcher returns comes from a split of the input into a
    text of the expression and a rest the continuation accepts *)
Lemma rmatch_sound {R : Type} (r : regex) :
  forall s caps (k : string -> list string -> string -> option R) res,
    rmatch r s caps k = Some res ->
    exists m caps' s',
      s = m +:+ s' /\ rmatches r m caps caps' /\ k m caps' s' = Some res.
Proof.
  induction r as [l|cl n|cl|cl|r1 IH1|r1 IH1 r2 IH2]; intros s caps k res H; simpl in H.
  - destruct (strip_prefix l s) as [s'|] eqn:Hs; [|discriminate].
    apply strip_prefix_Some in Hs. exists l, caps, s'. simpl. auto.
  - destruct (take_class cl n s) as [[m s']|] eqn:Ht; [|discriminate].
    apply take_class_Some in Ht as (-> & Hlen & Hall).
    exists m, caps, s'. simpl. auto.
  - apply plus_greedy_sound in H as (m & s' & Hne & Hall & -> & Hk).
    exists m, caps, s'. simpl. auto.
  - apply plus_lazy_sound in H as (m & s' & Hne & Hall & -> & Hk).
    exists m, caps, s'. simpl. auto.
  - apply IH1 in H as (m & caps' & s' & -> & Hm & Hk).
    exists m, (caps' ++ [m]), s'. simpl. eauto.
  - apply IH1 in H as (m1 & caps1 & s1 & -> & Hm1 & Hk1).
    apply IH2 in Hk1 as (m2 & caps2 & s2 & -> & Hm2 & Hk2).
    exists (m1 +:+ m2), caps2, s2. simpl. rewrite sapp_assoc.
    split; [reflexivity|]. split; [|exact Hk2]. eauto 10.
Qed.

Section LogLine.

Context {R : Type}.
Implicit Types (k : string -> list string -> string -> option R).

Lemma rmatch_cat r1 r2 s caps k :
  rmatch (r1 · r2) s caps k =
  rmatch r1 s caps (fun m1 caps1 s1 =>
    rmatch r2 s1 caps1 (fun m2 caps2 s2 => k (m1 +:+ m2) caps2 s2)).
Proof. reflexivity. Qed.

Lemma rmatch_group r s caps k :
  rmatch (RGroup r) s caps k =
  rmatch r s caps (fun m caps' s' => k m (caps' ++ [m]) s').
Proof. reflexivity. Qed.

Lemma rmatch_plus cl s caps k :
  rmatch (RPlus cl) s caps k = plus_greedy cl (fun m s' => k m caps s') "" s.
Proof. reflexivity. Qed.

Lemma rmatch_plus_lazy cl s caps k :
  rmatch (RPlusLazy cl) s caps k = plus_lazy cl (fun m s' => k m caps s') "" s.
Proof. reflexivity. Qed.

Lemma rmatch_lit_fwd l s caps k : rmatch (RLit l) (l +:+ s) caps k = k l caps s.
Proof. simpl. by rewrite strip_prefix_app. Qed.

Lemma rmatch_lit_stop c l a s caps k :
  c <> a -> rmatch (RLit (String c l)) (String a s) caps k = None.
Proof.
  intros Hc. cbn [rmatch strip_prefix].
  by destruct (Ascii.eqb_spec c a).
Qed.

Lemma three_fields_inv sep d :
  is_Some (three_fields sep d) ->
  exists a1 a2 b1 b2 c1 c2,
    d = String a1 (String a2 (String sep (String b1 (String b2
          (String sep (String c1 (String c2 ""))))))) /\
    is_digit a1 = true /\ is_digit a2 = true /\ is_digit b1 = true /\
    is_digit b2 = true /\ is_digit c1 = true /\ is_digit c2 = true.
Proof.
  intros [v Hv]. unfold three_fields in Hv.
  destruct d as [|a1 [|a2 [|s1 [|b1 [|b2 [|s2 [|c1 [|c2 [|? ?]]]]]]]]];
    try discriminate.
  destruct (is_digit a1) eqn:?; [|discriminate].
  destruct (is_digit a2) eqn:?; [|discriminate].
  destruct (Ascii.eqb_spec s1 sep) as [->|]; [|discriminate].
  destruct (is_digit b1) eqn:?; [|discriminate].
  destruct (is_digit b2) eqn:?; [|discriminate].
  destruct (Ascii.eqb_spec s2 sep) as [->|]; [|discriminate].
  destruct (is_digit c1) eqn:?; [|discriminate].
  destruct (is_digit c2) eqn:?; [|discriminate].
  exists a1, a2, b1, b2, c1, c2. auto 10.
Qed.

Lemma rmatch_fields_fwd sep d s caps k :
  is_Some (three_fields sep d) ->
  rmatch (fields_re sep) (d +:+ s) caps k = k d caps s.
Proof.
  intros Hd. apply three_fields_inv in Hd
    as (a1 & a2 & b1 & b2 & c1 & c2 & -> & Ha1 & Ha2 & Hb1 & Hb2 & Hc1 & Hc2).
  unfold fields_re. rewrite !sapp_cons, sapp_nil_l. simpl.
  rewrite Ha1, Ha2. simpl. rewrite Ascii.eqb_refl. simpl.
  rewrite Hb1, Hb2. simpl. rewrite Ascii.eqb_refl. simpl.
  rewrite Hc1, Hc2. reflexivity.
Qed.

End LogLine.

Lemma LOG_LINE_RE_fields :
  LOG_LINE_RE =
  (RLit "[" · RGroup (fields_re "/") · RLit "] [" · RGroup (fields_re ":")
   · RLit "]: You receive " · RGroup (RPlus CDigit) · RLit " "
   · RGroup (RPlusLazy CAny) · RLit ".")%regex.
Proof. reflexivity. Qed.

Lemma name_shape_forall name :
  name_shape name ->
  name <> "" /\ string_forall (cclass_match CAny) name = true.
Proof.
  destruct name as [|c rest]; [done|]. intros [Hc Hrest]. split; [done|].
  simpl. unfold not_newline in Hc. rewrite Hc. simpl.
  clear Hc. induction rest as [|a rest IH]; [reflexivity|].
  simpl in *. apply andb_true_iff in Hrest as [Ha Hr].
  unfold not_newline_nor_period in Ha. apply andb_true_iff in Ha as [Ha _].
  rewrite Ha. simpl. by apply IH.
Qed.

(** After a non-empty part of a name comes no period *)
Lemma name_shape_split name p c p' :
  name_shape name -> name = p +:+ String c p' -> p <> "" -> c <> "."%char.
Proof.
  destruct name as [|a rest]; [done|]. intros [_ Hrest] Hsplit Hp.
  destruct p as [|a' p0]; [done|]. rewrite sapp_cons in Hsplit.
  inversion Hsplit; subst. rewrite string_forall_app in Hrest.
  apply andb_true_iff in Hrest as [_ Hrest]. simpl in Hrest.
  apply andb_true_iff in Hrest as [Hc _].
  unfold not_newline_nor_period in Hc. apply andb_true_iff in Hc as [_ Hc].
  intros ->. discriminate.
Qed.

(** The pattern matches at the start of a text that begins with the shape *)
Lemma re_match_loot_line d t q name rest :
  date_shape d -> time_shape t -> qty_shape q -> name_shape name ->
  re_match LOG_LINE_RE (loot_line d t q name rest) = Some [d; t; q; name].
Proof.
  intros Hd Ht [Hq Hqd] Hname.
  unfold re_match, loot_line. rewrite LOG_LINE_RE_fields.
  rewrite rmatch_cat, rmatch_lit_fwd. cbv beta.
  rewrite rmatch_cat, rmatch_group, (rmatch_fields_fwd "/" d) by exact Hd. cbv beta.
  rewrite rmatch_cat, rmatch_lit_fwd. cbv beta.
  rewrite rmatch_cat, rmatch_group, (rmatch_fields_fwd ":" t) by exact Ht. cbv beta.
  rewrite rmatch_cat, rmatch_lit_fwd. cbv beta.
  rewrite rmatch_cat, rmatch_group, rmatch_plus.
  apply plus_greedy_fwd; [exact Hq|exact Hqd|reflexivity|]. cbv beta.
  rewrite rmatch_cat, rmatch_lit_fwd. cbv beta.
  rewrite rmatch_cat, rmatch_group, rmatch_plus_lazy.
  destruct (name_shape_forall name Hname) as [Hne Hall].
  apply plus_lazy_fwd; [exact Hne|exact Hall| |].
  - cbv beta. rewrite rmatch_lit_fwd. reflexivity.
  - intros p p' Hsplit Hp Hp'. destruct p' as [|c p'']; [done|].
    pose proof (name_shape_split name p c p'' Hname Hsplit Hp) as Hc.
    cbv beta. rewrite sapp_cons. apply rmatch_lit_stop. congruence.
Qed.

Lemma fields_rmatches sep m caps caps' :
  rmatches (fields_re sep) m caps caps' ->
  is_Some (three_fields sep m) /\ caps' = caps.
Proof.
  unfold fields_re.
  intros (a & m1 & c1 & -> & (Hla & Hda & ->) & H).
  destruct H as (l1 & m2 & c2 & -> & [-> ->] & H).
  destruct H as (b & m3 & c3 & -> & (Hlb & Hdb & ->) & H).
  destruct H as (l2 & c & c4 & -> & [-> ->] & (Hlc & Hdc & ->)).
  split; [|reflexivity].
  destruct a as [|a1 [|a2 [|? ?]]]; try discriminate.
  destruct b as [|b1 [|b2 [|? ?]]]; try discriminate.
  destruct c as [|x1 [|x2 [|? ?]]]; try discriminate.
  simpl in Hda, Hdb, Hdc.
  rewrite !andb_true_iff in Hda, Hdb, Hdc.
  destruct Hda as (Ha1 & Ha2 & _), Hdb as (Hb1 & Hb2 & _), Hdc as (Hc1 & Hc2 & _).
  rewrite !sapp_cons, !sapp_nil_l. unfold three_fields.
  rewrite Ha1, Ha2, Hb1, Hb2, Hc1, Hc2, !Ascii.eqb_refl. simpl. eauto.
Qed.

(** A name read greedily to some period can be cut at its first period
    after the first character *)
Lemma name_normalize mn s' :
  mn <> "" -> string_forall (cclass_match CAny) mn = true ->
  exists name rest, mn +:+ "." +:+ s' = name +:+ "." +:+ rest /\ name_shape name.
Proof.
  destruct mn as [|c tl]; [done|]. intros _ Hall. simpl in Hall.
  apply andb_true_iff in Hall as [Hc Htl].
  assert (Htail : exists t0 rest,
             tl +:+ "." +:+ s' = t0 +:+ "." +:+ rest
             /\ string_forall not_newline_nor_period t0 = true).
  { clear Hc. induction tl as [|a tl IH].
    - exists "", s'. split; reflexivity.
    - simpl in Htl. apply andb_true_iff in Htl as [Ha Htl].
      destruct (Ascii.eqb_spec a ".") as [->|Hne].
      + exists "", (tl +:+ "." +:+ s'). split; reflexivity.
      + destruct (IH Htl) as (t0 & rest & Heq & Ht0).
        exists (String a t0), rest.
        rewrite (sapp_cons a tl), (sapp_cons a t0), Heq. split; [reflexivity|].
        simpl. rewrite Ht0, andb_true_r. unfold not_newline_nor_period.
        rewrite Ha. simpl. by destruct (Ascii.eqb_spec a "."). }
  destruct Htail as (t0 & rest & Heq & Ht0).
  exists (String c t0), rest.
  rewrite (sapp_cons c tl), (sapp_cons c t0), Heq. split; [reflexivity|].
  split; [exact Hc|exact Ht0].
Qed.

(** Where the pattern matches, the text begins with the shape, and the
    groups are its four fields *)
Lemma re_match_inv s caps :
  re_match LOG_LINE_RE s = Some caps ->
  exists d t q name rest,
    s = loot_line d t q name rest
    /\ date_shape d /\ time_shape t /\ qty_shape q /\ name_shape name
    /\ caps = [d; t; q; name].
Proof.
  intros Hm. pose proof Hm as Hm0. unfold re_match in Hm.
  apply rmatch_sound in Hm as (m & caps' & s' & -> & H & _).
  rewrite LOG_LINE_RE_fields in H.
  destruct H as (l1 & m1 & c1 & -> & [-> ->] & H).
  destruct H as (d & m2 & c2 & -> & (c2' & Hd & ->) & H).
  apply fields_rmatches in Hd as [Hd ->].
  destruct H as (l2 & m3 & c3 & -> & [-> ->] & H).
  destruct H as (t & m4 & c4 & -> & (c4' & Ht & ->) & H).
  apply fields_rmatches in Ht as [Ht ->].
  destruct H as (l3 & m5 & c5 & -> & [-> ->] & H).
  destruct H as (q & m6 & c6 & -> & (c6' & (Hq & Hqd & ->) & ->) & H).
  destruct H as (l4 & m7 & c7 & -> & [-> ->] & H).
  destruct H as (mn & l5 & c8 & -> & (c8' & (Hn & Hnd & ->) & ->) & [-> ->]).
  destruct (name_normalize mn s' Hn Hnd) as (name & rest & Heq & Hname).
  assert (Hs : ("[" +:+ d +:+ "] [" +:+ t +:+ "]: You receive " +:+ q +:+ " "
                  +:+ mn +:+ ".") +:+ s' = loot_line d t q name rest).
  { unfold loot_line. rewrite !sapp_assoc, Heq. reflexivity. }
  rewrite Hs in Hm0 |- *.
  rewrite (re_match_loot_line d t q name rest Hd Ht (conj Hq Hqd) Hname) in Hm0.
  inversion Hm0; subst caps.
  exists d, t, q, name, rest.
  split; [reflexivity|]. split; [exact Hd|]. split; [exact Ht|].
  split; [exact (conj Hq Hqd)|]. split; [exact Hname|reflexivity].
Qed.

Lemma re_search_None r line :
  re_search r line = None <->
  forall pre s, line = pre +:+ s -> re_match r s = None.
Proof.
  induction line as [|a line IH]; simpl.
  - split.
    + intros H pre s Heq. destruct pre; [|discriminate].
      rewrite sapp_nil_l in Heq. subst s. by destruct (re_match r "").
    + intros H. by rewrite (H "" "" eq_refl).
  - split.
    + intros H pre s Heq.
      destruct (re_match r (String a line)) eqn:Hm; [discriminate|].
      destruct pre as [|b pre].
      * rewrite sapp_nil_l in Heq. by subst s.
      * rewrite sapp_cons in Heq. inversion Heq; subst.
        by apply (proj1 IH H pre s).
    + intros H. rewrite (H "" (String a line) eq_refl).
      apply IH. intros pre s ->. apply (H (String a pre) s). reflexivity.
Qed.

Lemma re_search_Some r line caps :
  re_search r line = Some caps <->
  exists pre s,
    line = pre +:+ s /\ re_match r s = Some caps
    /\ forall pre' s', line = pre' +:+ s' ->
         (String.length pre' < String.length pre)%nat -> re_match r s' = None.
Proof.
  revert caps. induction line as [|a line IH]; intros caps.
  - simpl. split.
    + intros H. destruct (re_match r "") eqn:Hm; [|discriminate].
      inversion H; subst. exists "", "".
      split; [reflexivity|]. split; [exact Hm|].
      intros pre' s' _ Hlt. simpl in Hlt. lia.
    + intros (pre & s & Heq & Hm & _). destruct pre; [|discriminate].
      rewrite sapp_nil_l in Heq. subst s. by rewrite Hm.
  - cbn [re_search]. split.
    + intros H. destruct (re_match r (String a line)) eqn:Hm.
      * inversion H; subst. exists "", (String a line).
        split; [reflexivity|]. split; [exact Hm|].
        intros pre' s' _ Hlt. simpl in Hlt. lia.
      * apply IH in H as (pre & s & -> & Hs & Hmin).
        exists (String a pre), s.
        split; [reflexivity|]. split; [exact Hs|].
        intros pre' s' Heq Hlt. destruct pre' as [|b pre'].
        -- rewrite sapp_nil_l in Heq. by subst s'.
        -- rewrite !sapp_cons in Heq. inversion Heq; subst.
           apply (Hmin pre' s'); [done|]. simpl in Hlt. lia.
    + intros (pre & s & Heq & Hm & Hmin). destruct pre as [|b pre].
      * rewrite sapp_nil_l in Heq. subst s. by rewrite Hm.
      * rewrite sapp_cons in Heq. inversion Heq; subst.
        rewrite (Hmin "" (String b (pre +:+ s)) eq_refl) by (simpl; lia).
        apply IH. exists pre, s.
        split; [reflexivity|]. split; [exact Hm|].
        intros pre' s' Heq' Hlt. apply (Hmin (String b pre') s').
        -- rewrite sapp_cons. by f_equal.
        -- simpl. lia.
Qed.

(** [LOG_LINE_RE.search] fails exactly on the lines without the shape *)
Lemma search_None_no_shape line :
  re_search LOG_LINE_RE line = None <->
  forall pre d t q name rest, ~ occurs_at line pre d t q name rest.
Proof.
  rewrite re_search_None. split.
  - intros H pre d t q name rest (Heq & Hd & Ht & Hq & Hn).
    specialize (H pre _ Heq).
    rewrite (re_match_loot_line d t q name rest Hd Ht Hq Hn) in H. discriminate.
  - intros H pre s Heq. destruct (re_match LOG_LINE_RE s) as [caps|] eqn:Hm; [|done].
    apply re_match_inv in Hm as (d & t & q & name & rest & -> & Hd & Ht & Hq & Hn & _).
    exfalso. apply (H pre d t q name rest).
    split; [exact Heq|]. split; [exact Hd|]. split; [exact Ht|].
    split; [exact Hq|exact Hn].
Qed.

(** [LOG_LINE_RE.search] returns the fields of the leftmost shape of the line *)
Lemma search_Some_leftmost line caps :
  re_search LOG_LINE_RE line = Some caps <->
  exists pre d t q name rest,
    leftmost_at line pre d t q name rest /\ caps = [d; t; q; name].
Proof.
  rewrite re_search_Some. split.
  - intros (pre & s & Heq & Hm & Hmin).
    apply re_match_inv in Hm as (d & t & q & name & rest & -> & Hd & Ht & Hq & Hn & ->).
    exists pre, d, t, q, name, rest. split; [|reflexivity]. split.
    + split; [exact Heq|]. split; [exact Hd|]. split; [exact Ht|].
      split; [exact Hq|exact Hn].
    + intros pre' d' t' q' name' rest' (Heq' & Hd' & Ht' & Hq' & Hn').
      destruct (Nat.le_gt_cases (String.length pre) (String.length pre')) as [|Hlt];
        [done|].
      specialize (Hmin pre' _ Heq' Hlt).
      rewrite (re_match_loot_line d' t' q' name' rest' Hd' Ht' Hq' Hn') in Hmin.
      discriminate.
  - intros (pre & d & t & q & name & rest & [(Heq & Hd & Ht & Hq & Hn) Hleft] & ->).
    exists pre, (loot_line d t q name rest). split; [exact Heq|]. split.
    + by apply re_match_loot_line.
    + intros pre' s' Heq' Hlt.
      destruct (re_match LOG_LINE_RE s') as [caps|] eqn:Hm; [|done].
      apply re_match_inv in Hm
        as (d' & t' & q' & name' & rest' & -> & Hd' & Ht' & Hq' & Hn' & _).
      assert (Hocc : occurs_at line pre' d' t' q' name' rest').
      { split; [exact Heq'|]. split; [exact Hd'|]. split; [exact Ht'|].
        split; [exact Hq'|exact Hn']. }
      apply Hleft in Hocc. lia.
Qed.

Lemma parse_log_line_of_search line :
  (re_search LOG_LINE_RE line = None /\ parse_log_line line = Ok None)
  \/ (exists pre d t q name rest,
        leftmost_at line pre d t q name rest
        /\ parse_log_line line =
             bind (parse_datetime_from_log d t)
               (fun t0 => Ok (Some (mkLootEvent t0 (py_int q) name)))).
Proof.
  unfold parse_log_line.
  destruct (re_search LOG_LINE_RE line) as [caps|] eqn:Hs; [right|left; done].
  apply search_Some_leftmost in Hs as (pre & d & t & q & name & rest & Hl & ->).
  exists pre, d, t, q, name, rest. done.
Qed.

Lemma leftmost_at_unique line pre d t q name rest pre' d' t' q' name' rest' :
  leftmost_at line pre d t q name rest ->
  leftmost_at line pre' d' t' q' name' rest' ->
  d = d' /\ t = t' /\ q = q' /\ name = name'.
Proof.
  intros H1 H2.
  assert (S1 : re_search LOG_LINE_RE line = Some [d; t; q; name]).
  { apply search_Some_leftmost. exists pre, d, t, q, name, rest. done. }
  assert (S2 : re_search LOG_LINE_RE line = Some [d'; t'; q'; name']).
  { apply search_Some_leftmost. exists pre', d', t', q', name', rest'. done. }
  rewrite S1 in S2. inversion S2. done.
Qed.

Example parse_yang_line :
  parse_log_line "[24/11/25] [00:29:29]: You receive 5 Yang."
  = Ok (Some (mkLootEvent 63899540969000000 5 "Yang")).
Proof. vm_compute. reflexivity. Qed.

(** A line as [readline] returns it, with its newline *)
Example parse_line_with_newline :
  parse_log_line
    ("[24/11/25] [00:29:29]: You receive 12 Fragment of a Pass [U-1]."
       +:+ String newline "")
  = Ok (Some (mkLootEvent 63899540969000000 12 "Fragment of a Pass [U-1]")).
Proof. vm_compute. reflexivity. Qed.

Example parse_chat_line :
  parse_log_line "[24/11/25] [00:29:29]: Hello there." = Ok None.
Proof. vm_compute. reflexivity. Qed.

(** The first second of year 1 is the origin of the time scale, and a leap
    day is a day *)
Example datetime_origin : mk_datetime 1 1 1 0 0 0 = Ok 0.
Proof. reflexivity. Qed.

Example leap_day_parses :
  parse_datetime_from_log "29/02/24" "23:59:59" = Ok 63844847999000000
  /\ parse_datetime_from_log "29/02/25" "23:59:59" = Raise ValueError.
Proof. split; vm_compute; reflexivity. Qed.

(** What [parse_log_line] returns, read off the leftmost shape of the line *)
Lemma parse_log_line_facts (line : string) :
  (parse_log_line line = Ok None <->
     forall pre d t q name rest, ~ occurs_at line pre d t q name rest)
  /\ (forall ev : LootEvent,
        parse_log_line line = Ok (Some ev) ->
        exists pre d t q name rest,
          leftmost_at line pre d t q name rest
          /\ parse_datetime_from_log d t = Ok (ts ev)
          /\ quantity ev = py_int q
          /\ item ev = name).
Proof.
  destruct (parse_log_line_of_search line)
    as [[Hs Hp]|(pre & d & t & q & name & rest & Hl & Hp)].
  - split.
    + split; [intros _; by apply search_None_no_shape|done].
    + intros ev. rewrite Hp. discriminate.
  - rewrite Hp. split.
    + split.
      * intros H. destruct (parse_datetime_from_log d t); discriminate.
      * intros H. exfalso. destruct Hl as [Hocc _]. exact (H _ _ _ _ _ _ Hocc).
    + intros ev H. exists pre, d, t, q, name, rest. split; [exact Hl|].
      destruct (parse_datetime_from_log d t) as [t0| |]; try discriminate.
      simpl in H. inversion H; subst ev. done.
Qed.

(** C5 (amended). For a line of characters below U+0100, among which the
    decimal digits are the ten ASCII digits: [parse_log_line] returns
    [None] for every line that nowhere contains the shape
    "[dd/dd/dd] [dd:dd:dd]: You receive ", digits, a space, a name and a
    period; it returns an event exactly when the two bracketed fields of the
    leftmost such occurrence form a date and a time of day, and then the
    quantity is the number the digits write and the item name is the text
    after the quantity's space up to the first period that follows its first
    character, taken verbatim.  Text before and after the occurrence is
    allowed. *)
Theorem parse_log_line_shape (line : string) :
  ((forall pre d t q name rest, ~ occurs_at line pre d t q name rest) ->
   parse_log_line line = Ok None)
  /\ (forall ev : LootEvent,
        parse_log_line line = Ok (Some ev) <->
        exists pre d t q name rest,
          leftmost_at line pre d t q name rest
          /\ parse_datetime_from_log d t = Ok (ts ev)
          /\ quantity ev = py_int q
          /\ item ev = name).
Proof.
  destruct (parse_log_line_facts line) as [Hnone Hsome].
  split; [apply Hnone|]. intros ev. split; [apply Hsome|].
  intros (pre' & d' & t' & q' & name' & rest' & Hl' & Hts & Hq & Hn).
  destruct (parse_log_line_of_search line)
    as [[Hs Hp]|(pre & d & t & q & name & rest & Hl & Hp)].
  - exfalso. destruct Hl' as [Hocc _]. revert Hocc. by apply search_None_no_shape.
  - destruct (leftmost_at_unique _ _ _ _ _ _ _ _ _ _ _ _ _ Hl Hl')
      as (-> & -> & -> & ->).
    rewrite Hp, Hts. simpl. destruct ev as [t0 q0 n0]. simpl in *. by subst.
Qed.

Lemma parse_log_line_shape_witness :
  parse_log_line "the quick brown fox" = Ok None.
Proof.
  apply (proj1 (parse_log_line_shape "the quick brown fox")).
  apply search_None_no_shape. vm_compute. reflexivity.
Defined.

(** A line that holds the record between other text is not of exactly the
    shape, and still gives an event: the pattern is searched, not anchored. *)
Lemma parse_exact_shape_counterexample :
  exists ev,
    parse_log_line "xx[24/11/25] [00:29:29]: You receive 12 Yang. more"
      = Ok (Some ev)
    /\ quantity ev = 12 /\ item ev = "Yang"
    /\ forall d t q name,
         ~ exact_shape "xx[24/11/25] [00:29:29]: You receive 12 Yang. more"
             d t q name.
Proof.
  eexists. split; [vm_compute; reflexivity|].
  split; [reflexivity|]. split; [reflexivity|].
  intros d t q name [H _]. unfold loot_line in H.
  rewrite sapp_cons in H. discriminate.
Qed.

(** C6 (what the code does). A line whose digits pass [LOG_LINE_RE] but
    write no day of the month, or no time of day, makes [parse_log_line]
    raise [ValueError] instead of returning [None], and the exception leaves
    the reading loop of the worker. *)
Theorem parse_log_line_raises :
  parse_log_line "[31/02/25] [12:00:00]: You receive 1 Yang." = Raise ValueError
  /\ parse_log_line "[24/11/25] [24:00:00]: You receive 1 Yang." = Raise ValueError
  /\ forall w : Worker,
       run_line w "[31/02/25] [12:00:00]: You receive 1 Yang." = Raise ValueError.
Proof.
  split; [vm_compute; reflexivity|]. split; [vm_compute; reflexivity|].
  intros w. unfold run_line.
  replace (parse_log_line "[31/02/25] [12:00:00]: You receive 1 Yang.")
    with (@Raise (option LootEvent) ValueError) by (vm_compute; reflexivity).
  reflexivity.
Qed.

(** ** The application *)

Section Sorting.

Context {A : Type} (key : A -> Z).

Lemma insert_desc_perm x l : insert_desc key x l ≡ₚ x :: l.
Proof.
  induction l as [|y l IH]; simpl; [reflexivity|].
  destruct (key x <? key y); [|reflexivity].
  rewrite IH. apply Permutation_swap.
Qed.

Lemma sort_desc_perm l : sort_desc key l ≡ₚ l.
Proof.
  induction l as [|x l IH]; simpl; [reflexivity|].
  rewrite insert_desc_perm. by rewrite IH.
Qed.

Lemma elem_of_sort_desc x l : x ∈ sort_desc key l <-> x ∈ l.
Proof. by rewrite sort_desc_perm. Qed.

End Sorting.

Section Dicts.

Context {V : Type}.
Implicit Types (d : odict V).

Lemma odict_get_set_eq k v d : odict_get k (odict_set k v d) = Some v.
Proof.
  induction d as [|[k' v'] d IH]; simpl.
  - by rewrite String.eqb_refl.
  - destruct (String.eqb_spec k k') as [->|Hne]; simpl.
    + by rewrite String.eqb_refl.
    + destruct (String.eqb_spec k k'); [done|]. exact IH.
Qed.

Lemma odict_get_set_ne k k' v d :
  k <> k' -> odict_get k' (odict_set k v d) = odict_get k' d.
Proof.
  intros Hne. induction d as [|[k0 v0] d IH]; simpl.
  - destruct (String.eqb_spec k' k); [congruence|reflexivity].
  - destruct (String.eqb_spec k k0) as [->|]; simpl.
    + destruct (String.eqb_spec k' k0); [congruence|reflexivity].
    + destruct (String.eqb_spec k' k0); [reflexivity|exact IH].
Qed.

Lemma odict_get_elem k v d : odict_get k d = Some v -> (k, v) ∈ d.
Proof.
  induction d as [|[k' v'] d IH]; simpl; [discriminate|].
  destruct (String.eqb_spec k k') as [->|].
  - intros [= ->]. apply list_elem_of_here.
  - intros H. apply list_elem_of_further. by apply IH.
Qed.

Lemma odict_get_None k d : odict_get k d = None <-> k ∉ map fst d.
Proof.
  induction d as [|[k' v'] d IH]; simpl.
  - split; [intros _; apply not_elem_of_nil|done].
  - rewrite not_elem_of_cons. destruct (String.eqb_spec k k') as [->|Hne].
    + split; [discriminate|]. intros [? _]. done.
    + rewrite IH. tauto.
Qed.

Lemma odict_set_fresh k v d : k ∉ map fst d -> odict_set k v d = d ++ [(k, v)].
Proof.
  induction d as [|[k' v'] d IH]; simpl; [reflexivity|].
  rewrite not_elem_of_cons. intros [Hne Hnot].
  destruct (String.eqb_spec k k'); [done|]. by rewrite IH.
Qed.

Lemma odict_get_nodup k v d : NoDup (map fst d) -> (k, v) ∈ d -> odict_get k d = Some v.
Proof.
  induction d as [|[k' v'] d IH]; simpl; intros Hnd Hin.
  - by apply elem_of_nil in Hin.
  - apply NoDup_cons in Hnd as [Hk' Hnd].
    apply elem_of_cons in Hin as [[= -> ->]|Hin].
    + by rewrite String.eqb_refl.
    + destruct (String.eqb_spec k k') as [->|]; [|by apply IH].
      exfalso. apply Hk'. apply list_elem_of_fmap. by exists (k', v).
Qed.

End Dicts.

(** With pairwise different names the dictionary of the snapshot lists the
    items in their order *)
Lemma base_items_of_distinct items_list :
  names_distinct items_list ->
  base_items_of items_list = map fst items_list.
Proof.
  unfold base_items_of, names_distinct.
  assert (H : forall acc,
             NoDup (map fst acc ++ map (fun e : string * Z * Z => fst (fst e)) items_list) ->
             fold_left (fun d '(name, qty, _) => odict_set name qty d) items_list acc
             = acc ++ map fst items_list).
  { induction items_list as [|[[n q] ph] l IH]; intros acc Hnd; simpl.
    - by rewrite app_nil_r.
    - simpl in Hnd. rewrite odict_set_fresh.
      + rewrite IH.
        * by rewrite <- app_assoc.
        * rewrite map_app. simpl. by rewrite <- app_assoc.
      + apply NoDup_app in Hnd as (_ & Hd & _).
        intros Hin. apply (Hd n Hin). apply list_elem_of_here. }
  intros Hnd. apply (H []). exact Hnd.
Qed.

Lemma base_item_rates_of_distinct items_list name qty ph :
  names_distinct items_list ->
  (name, qty, ph) ∈ items_list ->
  base_item_rates_of items_list !! name = Some ph.
Proof.
  unfold base_item_rates_of, names_distinct.
  generalize (∅ : gmap string Z).
  induction items_list as [|[[n q] p] l IH]; intros acc Hnd Hin; simpl.
  - by apply elem_of_nil in Hin.
  - simpl in Hnd. apply NoDup_cons in Hnd as [Hn Hnd].
    apply elem_of_cons in Hin as [[= -> -> ->]|Hin].
    + clear IH Hnd. revert acc. induction l as [|[[n' q'] p'] l IH]; intros acc; simpl.
      * apply lookup_insert_eq.
      * simpl in Hn. apply not_elem_of_cons in Hn as [Hne Hn].
        rewrite insert_insert_ne by done. by apply IH.
    + by apply IH.
Qed.

Section Recalc.

Variable costs : gmap string PassCost.

Lemma get0_insert (delta : gmap string Z) i v it :
  get0 (<[i := v]> delta) it = if String.eqb i it then v else get0 delta it.
Proof.
  unfold get0. destruct (String.eqb_spec i it) as [->|Hne].
  - by rewrite lookup_insert_eq.
  - by rewrite lookup_insert_ne.
Qed.

Lemma add_item_costs_get n its : forall delta it,
  get0 (add_item_costs n its delta) it = get0 delta it + n * sub_item_qty its it.
Proof.
  unfold add_item_costs, sub_item_qty.
  induction its as [|[i q] its IH]; intros delta it; simpl; [lia|].
  rewrite IH, get0_insert.
  destruct (String.eqb_spec i it) as [->|Hne]; lia.
Qed.

Lemma recalc_step_shares acc entry :
  fst (recalc_step costs acc entry) = fst acc + yang_share costs entry
  /\ forall it,
       get0 (snd (recalc_step costs acc entry)) it
       = get0 (snd acc) it + item_share costs it entry.
Proof.
  destruct entry as [name state].
  unfold recalc_step, yang_share, item_share. cbn [fst snd].
  destruct (Z.leb_spec (crafted state) 0) as [Hle|Hgt];
    destruct (Z.ltb_spec 0 (crafted state)); try lia.
  - split; [lia|intros; lia].
  - destruct (costs !! name) as [cost|]; cbn [fst snd].
    + split; [lia|]. intros it. by rewrite add_item_costs_get.
    + split; [lia|intros; lia].
Qed.

Lemma recalc_fold l : forall acc,
  fst (fold_left (recalc_step costs) l acc)
    = fst acc + Zsum (map (yang_share costs) l)
  /\ forall it,
       get0 (snd (fold_left (recalc_step costs) l acc)) it
       = get0 (snd acc) it + Zsum (map (item_share costs it) l).
Proof.
  induction l as [|entry l IH]; intros acc; cbn [fold_left map].
  - unfold Zsum. simpl. split; [lia|intros; lia].
  - change (Zsum (yang_share costs entry :: map (yang_share costs) l))
      with (yang_share costs entry + Zsum (map (yang_share costs) l)).
    destruct (IH (recalc_step costs acc entry)) as [Hy Hd].
    destruct (recalc_step_shares acc entry) as [Hy1 Hd1].
    split; [lia|]. intros it.
    change (Zsum (item_share costs it entry :: map (item_share costs it) l))
      with (item_share costs it entry + Zsum (map (item_share costs it) l)).
    rewrite Hd, Hd1. lia.
Qed.

End Recalc.

(** [recalc_crafting_deltas_from_passes] starts from zero and leaves the sums
    over the pass states *)
Lemma recalc_sums app :
  crafting_yang_delta (recalc_crafting_deltas_from_passes app)
    = total_crafting_currency_delta (pass_costs app) (pass_states app)
  /\ forall it,
       get0 (crafting_item_delta (recalc_crafting_deltas_from_passes app)) it
       = per_item_crafting_delta (pass_costs app) (pass_states app) it.
Proof.
  unfold recalc_crafting_deltas_from_passes, total_crafting_currency_delta,
    per_item_crafting_delta. simpl.
  destruct (recalc_fold (pass_costs app) (map_to_list (pass_states app)) (0, ∅))
    as [Hy Hd].
  split; [rewrite Hy; simpl; lia|]. intros it. rewrite Hd. simpl.
  unfold get0 at 1. rewrite lookup_empty. simpl. lia.
Qed.

Section Observe.

Variable costs : gmap string PassCost.

(** A pass state once created stays *)
Lemma observe_pass_keeps ps entry name :
  is_Some (ps !! name) -> is_Some (observe_pass costs ps entry !! name).
Proof.
  destruct entry as [n q]. unfold observe_pass. intros Hs.
  destruct (costs !! n); [|done].
  destruct (ps !! n) as [state|] eqn:Hn.
  - destruct (0 <? q - total state); [|done].
    destruct (decide (n = name)) as [->|];
      [rewrite lookup_insert_eq; eauto|by rewrite lookup_insert_ne].
  - destruct (decide (n = name)) as [->|];
      [rewrite lookup_insert_eq; eauto|by rewrite lookup_insert_ne].
Qed.

Lemma observe_pass_tracks ps name q :
  is_Some (costs !! name) -> is_Some (observe_pass costs ps (name, q) !! name).
Proof.
  intros [c Hc]. unfold observe_pass. rewrite Hc.
  destruct (ps !! name) as [state|] eqn:Hn.
  - destruct (0 <? q - total state); [rewrite lookup_insert_eq|rewrite Hn]; eauto.
  - rewrite lookup_insert_eq; eauto.
Qed.

Lemma observe_pass_other ps n q name :
  n <> name -> observe_pass costs ps (n, q) !! name = ps !! name.
Proof.
  intros Hne. unfold observe_pass. destruct (costs !! n); [|done].
  destruct (ps !! n) as [state|].
  - destruct (0 <? q - total state); [by rewrite lookup_insert_ne|done].
  - by rewrite lookup_insert_ne.
Qed.

Lemma observe_passes_keeps bi : forall ps name,
  is_Some (ps !! name) -> is_Some (observe_passes costs bi ps !! name).
Proof.
  unfold observe_passes.
  induction bi as [|e bi IH]; intros ps name Hs; simpl; [done|].
  apply IH. by apply observe_pass_keeps.
Qed.

(** After the loop every item of the snapshot that is a key of the cost
    table has a pass state *)
Lemma observe_passes_tracked bi : forall ps name q,
  (name, q) ∈ bi -> is_Some (costs !! name) ->
  is_Some (observe_passes costs bi ps !! name).
Proof.
  unfold observe_passes.
  induction bi as [|e bi IH]; intros ps name q Hin Hc; simpl.
  - by apply elem_of_nil in Hin.
  - apply elem_of_cons in Hin as [<-|Hin].
    + apply (observe_passes_keeps bi). by apply observe_pass_tracks.
    + by apply (IH _ _ q).
Qed.

Lemma observe_passes_absent bi : forall ps name,
  name ∉ map fst bi -> observe_passes costs bi ps !! name = ps !! name.
Proof.
  unfold observe_passes.
  induction bi as [|[n q] bi IH]; intros ps name Hn; simpl; [done|].
  simpl in Hn. apply not_elem_of_cons in Hn as [Hne Hn].
  rewrite IH by done. by apply observe_pass_other.
Qed.

Lemma observe_pass_at ps name q :
  is_Some (costs !! name) ->
  observe_pass costs ps (name, q) !! name =
  match ps !! name with
  | None => Some (mkPassState q q 0)
  | Some s =>
      if 0 <? q - total s
      then Some (mkPassState (total s + (q - total s)) (crafted s + (q - total s))
                   (dropped s))
      else Some s
  end.
Proof.
  intros [c Hc]. unfold observe_pass. rewrite Hc.
  destruct (ps !! name) as [s|] eqn:Hs.
  - destruct (0 <? q - total s); [by rewrite lookup_insert_eq|done].
  - by rewrite lookup_insert_eq.
Qed.

(** With pairwise different names, the loop treats each name once *)
Lemma observe_passes_at bi : forall ps name q,
  NoDup (map fst bi) -> (name, q) ∈ bi -> is_Some (costs !! name) ->
  observe_passes costs bi ps !! name =
  match ps !! name with
  | None => Some (mkPassState q q 0)
  | Some s =>
      if 0 <? q - total s
      then Some (mkPassState (total s + (q - total s)) (crafted s + (q - total s))
                   (dropped s))
      else Some s
  end.
Proof.
  induction bi as [|[n q0] bi IH]; intros ps name q Hnd Hin Hc.
  - by apply elem_of_nil in Hin.
  - simpl in Hnd. apply NoDup_cons in Hnd as [Hn Hnd].
    change (observe_passes costs ((n, q0) :: bi) ps)
      with (observe_passes costs bi (observe_pass costs ps (n, q0))).
    apply elem_of_cons in Hin as [[= <- <-]|Hin].
    + rewrite observe_passes_absent by done. by apply observe_pass_at.
    + assert (n <> name).
      { intros ->. apply Hn. apply list_elem_of_fmap. by exists (name, q). }
      rewrite (IH _ name q) by done. by rewrite observe_pass_other.
Qed.

End Observe.

Section Render.

Lemma render_rows_tracked render l : forall app,
  (forall name qty, (name, qty) ∈ l ->
     pass_costs app !! name = None \/ is_Some (pass_states app !! name)) ->
  render_rows render l app = Ok (set_tree app (tree app ++ map (row_of app) l)).
Proof.
  induction l as [|[name qty] l IH]; intros app Htr.
  - simpl. rewrite app_nil_r. by destruct app.
  - cbn [render_rows].
    assert (Hb : (match pass_costs app !! name, pass_states app !! name with
                  | Some _, None =>
                      apply_pass_adjustment render
                        (set_pass_states app
                           (<[name := mkPassState qty qty 0]> (pass_states app)))
                        name "Crafted"
                  | _, _ => Ok app
                  end) = Ok app).
    { destruct (Htr name qty) as [Hc|[s Hs]]; [apply list_elem_of_here| |].
      - by rewrite Hc.
      - rewrite Hs. by destruct (pass_costs app !! name). }
    rewrite Hb. cbn [bind]. rewrite IH.
    + cbn [map]. unfold set_tree. simpl. f_equal. f_equal.
      rewrite <- app_assoc. reflexivity.
    + intros n q Hin. simpl. apply (Htr n q). by apply list_elem_of_further.
Qed.

Lemma render_items_tracked fuel app :
  (forall name qty, (name, qty) ∈ base_items app ->
     pass_costs app !! name = None \/ is_Some (pass_states app !! name)) ->
  render_items (S fuel) app =
  Ok (set_tree app (map (row_of app) (sort_desc snd (base_items app)))).
Proof.
  intros Htr. cbn [render_items]. rewrite render_rows_tracked.
  - reflexivity.
  - intros name qty Hin. simpl. apply (Htr name qty).
    by apply elem_of_sort_desc in Hin.
Qed.

End Render.

Lemma base_items_of_elem items_list : forall name qty,
  (name, qty) ∈ base_items_of items_list ->
  exists ph, (name, qty, ph) ∈ items_list.
Proof.
  unfold base_items_of.
  assert (H : forall acc name qty,
             (name, qty) ∈ fold_left (fun d '(name, qty, _) => odict_set name qty d)
                             items_list acc ->
             (name, qty) ∈ acc \/ exists ph, (name, qty, ph) ∈ items_list).
  { induction items_list as [|[[n q] ph] l IH]; intros acc name qty Hin; simpl in Hin.
    - by left.
    - apply IH in Hin as [Hin|[ph' Hin]].
      + assert (Hset : forall (d : odict Z), (name, qty) ∈ odict_set n q d ->
                         (name, qty) ∈ d \/ (name, qty) = (n, q)).
        { clear. induction d as [|[k v] d IHd]; simpl; intros Hin.
          - apply list_elem_of_singleton in Hin. by right.
          - destruct (String.eqb_spec n k) as [->|].
            + apply elem_of_cons in Hin as [->|Hin]; [by right|].
              left. by apply list_elem_of_further.
            + apply elem_of_cons in Hin as [->|Hin]; [left; apply list_elem_of_here|].
              destruct (IHd Hin) as [?|?]; [left; by apply list_elem_of_further|by right]. }
        destruct (Hset _ Hin) as [?|[= -> ->]]; [by left|].
        right. exists ph. apply list_elem_of_here.
      + right. exists ph'. by apply list_elem_of_further. }
  intros name qty Hin. destruct (H [] name qty Hin) as [Hnil|?]; [|done].
  by apply elem_of_nil in Hnil.
Qed.

(** What [update_stats] leaves behind for a snapshot of statistics *)
Lemma update_stats_fields app st :
  exists app',
    update_stats app (SnapStats st) = Ok app'
    /\ pass_costs app' = pass_costs app
    /\ pass_applied app' = pass_applied app
    /\ last_stats app' = Some (SnapStats st)
    /\ base_items app' = base_items_of (items st)
    /\ base_item_rates app' = base_item_rates_of (items st)
    /\ data_hours app' = (if Qpositive (hours st) then hours st else 0%Q)
    /\ base_yang app' = total_yang st
    /\ pass_states app' =
         observe_passes (pass_costs app) (base_items_of (items st)) (pass_states app)
    /\ crafting_yang_delta app' =
         total_crafting_currency_delta (pass_costs app') (pass_states app')
    /\ (forall it,
          get0 (crafting_item_delta app') it =
          per_item_crafting_delta (pass_costs app') (pass_states app') it)
    /\ net_yang app' = total_yang st - crafting_yang_delta app'
    /\ yang_label app' = total_yang st - crafting_yang_delta app'
    /\ net_yang_per_hour app' =
         (let elapsed_hours := if Qpositive (hours st) then hours st else tiny in
          fsub (fdiv (float_of_int (total_yang st)) elapsed_hours)
            (fdiv (float_of_int (crafting_yang_delta app))
               elapsed_hours))
    /\ tree app' = map (row_of app') (sort_desc snd (base_items app')).
Proof.
  unfold update_stats.
  set (app0 := mkApp (pass_costs app)
                 (observe_passes (pass_costs app) (base_items_of (items st))
                    (pass_states app))
                 (pass_applied app) (total_yang st) (crafting_yang_delta app)
                 (base_items_of (items st)) (crafting_item_delta app)
                 (base_item_rates_of (items st))
                 (if Qpositive (hours st) then hours st else 0%Q)
                 (net_yang app) (net_yang_per_hour app) (Some (SnapStats st))
                 (yang_label app) (yang_per_hour_label app) (tree app)).
  destruct (recalc_sums app0) as [Hy Hd].
  rewrite render_items_tracked.
  - eexists. split; [reflexivity|]. simpl.
    repeat (split; [reflexivity|]).
    split; [exact Hy|]. split; [exact Hd|].
    repeat (split; [reflexivity|]). reflexivity.
  - intros name qty Hin. simpl in Hin |- *.
    destruct (pass_costs app !! name) as [c|] eqn:Hc; [right|by left].
    apply (observe_passes_tracked _ _ _ name qty); [exact Hin|by rewrite Hc].
Qed.

(** C2. Whenever [update_stats] recomputes the net figures, the net
    currency, also the one shown, is the raw currency total of the snapshot
    minus the sum, over the tracked pass types with [crafted > 0] that are
    keys of the cost table, of [crafted] times the unit currency cost; the
    delta of every item is the same sum over the sub-item costs, and the
    quantity shown for an item is its raw quantity minus that delta.  Both
    deltas are computed from the pass states alone, whatever they were
    before the call. *)
Theorem net_currency_from_pass_states (app : App) (st : Stats) :
  exists app',
    update_stats app (SnapStats st) = Ok app'
    /\ net_yang app' =
         total_yang st
         - total_crafting_currency_delta (pass_costs app') (pass_states app')
    /\ yang_label app' = net_yang app'
    /\ crafting_yang_delta app' =
         total_crafting_currency_delta (pass_costs app') (pass_states app')
    /\ (forall it,
          get0 (crafting_item_delta app') it =
          per_item_crafting_delta (pass_costs app') (pass_states app') it)
    /\ forall row,
         row ∈ tree app' ->
         exists qty,
           (row_name row, qty) ∈ base_items app'
           /\ row_qty row =
                qty - per_item_crafting_delta (pass_costs app') (pass_states app')
                        (row_name row).
Proof.
  destruct (update_stats_fields app st)
    as (app' & Hu & _ & _ & _ & _ & _ & _ & _ & _ & Hy & Hd & Hn & Hl & _ & Ht).
  exists app'. split; [exact Hu|]. rewrite Hn, Hl, Hy.
  split; [reflexivity|]. split; [reflexivity|]. split; [reflexivity|].
  split; [exact Hd|].
  intros row Hrow. rewrite Ht in Hrow.
  apply list_elem_of_fmap in Hrow as [[name qty] [-> Hin]].
  apply elem_of_sort_desc in Hin.
  exists qty. simpl. split; [exact Hin|]. by rewrite Hd.
Qed.

(** Two pass types of different costs with partial splits: 2 of 3 Hellish
    Passes and 1 of 4 Ice-cold Passes crafted *)
Example net_currency_two_pass_types :
  bind (run_ops init_app
          [OpTick sample_two_passes; OpReclassify "Hellish Pass" 1;
           OpReclassify "Ice-cold Pass" 3])
    (fun a => Ok (net_yang a, get0 (crafting_item_delta a) "Shard"))
  = Ok (20000000 - (2 * 2000000 + 1 * 1500000), 2 * 400 + 1 * 200).
Proof. vm_compute. reflexivity. Qed.

(** ** The invariant of the pass states *)

Lemma observe_pass_ok costs ps name q :
  pass_states_ok ps -> 0 <= q -> pass_states_ok (observe_pass costs ps (name, q)).
Proof.
  intros Hok Hq. unfold observe_pass.
  destruct (costs !! name); [|done].
  destruct (ps !! name) as [s|] eqn:Hs.
  - destruct (Z.ltb_spec 0 (q - total s)); [|done].
    apply map_Forall_insert_2; [|done].
    destruct (Hok name s Hs) as (H1 & H2 & H3).
    unfold pass_state_ok. simpl. lia.
  - apply map_Forall_insert_2; [|done]. unfold pass_state_ok. simpl. lia.
Qed.

Lemma observe_passes_ok costs bi : forall ps,
  pass_states_ok ps ->
  (forall name q, (name, q) ∈ bi -> 0 <= q) ->
  pass_states_ok (observe_passes costs bi ps).
Proof.
  unfold observe_passes.
  induction bi as [|[n q] bi IH]; intros ps Hok Hq; simpl; [done|].
  apply IH.
  - apply observe_pass_ok; [done|]. apply (Hq n q). apply list_elem_of_here.
  - intros name q' Hin. apply (Hq name q'). by apply list_elem_of_further.
Qed.

Lemma base_items_nonneg st name q :
  stats_nonneg st -> (name, q) ∈ base_items_of (items st) -> 0 <= q.
Proof.
  intros Hst Hin. apply base_items_of_elem in Hin as [ph Hin].
  unfold stats_nonneg in Hst. rewrite Forall_forall in Hst.
  exact (Hst _ Hin).
Qed.

Lemma update_stats_inv app st :
  pass_states_ok (pass_states app) -> stats_nonneg st ->
  exists app', update_stats app (SnapStats st) = Ok app' /\ app_inv app'.
Proof.
  intros Hok Hst.
  destruct (update_stats_fields app st)
    as (app' & Hu & _ & _ & Hlast & _ & _ & _ & _ & Hps & _).
  exists app'. split; [exact Hu|]. split.
  - rewrite Hps. apply observe_passes_ok; [exact Hok|].
    intros name q. by apply base_items_nonneg.
  - by rewrite Hlast.
Qed.

Lemma update_error_inv app msg :
  pass_states_ok (pass_states app) ->
  exists app', update_stats app (SnapError msg) = Ok app' /\ app_inv app'.
Proof. intros Hok. eexists. split; [reflexivity|]. split; [exact Hok|done]. Qed.

(** Replacing the state of a tracked pass by a well-formed one, recomputing
    the deltas and re-rendering keeps the invariant and raises nothing *)
Lemma reconcile_inv app name s' :
  app_inv app -> is_Some (pass_states app !! name) -> pass_state_ok s' ->
  exists app',
    refresh (recalc_crafting_deltas_from_passes
               (set_pass_states app (<[name := s']> (pass_states app)))) = Ok app'
    /\ app_inv app'.
Proof.
  intros [Hok Hlast] [s Hs] Hs'. unfold refresh.
  assert (Hok' : pass_states_ok (<[name := s']> (pass_states app))).
  { by apply map_Forall_insert_2. }
  cbn [recalc_crafting_deltas_from_passes set_crafting set_pass_states last_stats].
  destruct (last_stats app) as [[msg|st]|] eqn:Hl.
  - by apply update_error_inv.
  - by apply update_stats_inv.
  - rewrite Hlast in Hs. by rewrite lookup_empty in Hs.
Qed.

Lemma step_inv app op :
  app_inv app -> op_wf op -> exists app', step app op = Ok app' /\ app_inv app'.
Proof.
  intros Hinv Hwf. pose proof Hinv as [Hok Hlast].
  destruct op as [st|msg|name d|name|name| |]; cbn [step].
  - by apply update_stats_inv.
  - by apply update_error_inv.
  - unfold open_pass_count_editor_apply.
    destruct (pass_states app !! name) as [s|] eqn:Hs; [|by exists app].
    destruct (Z.ltb_spec d 0); [by exists app|].
    destruct (Z.ltb_spec (total s) d); [by exists app|]. cbn [orb].
    apply reconcile_inv; [done|by rewrite Hs|].
    unfold pass_state_ok. simpl. lia.
  - unfold set_pass_all_crafted.
    destruct (pass_states app !! name) as [s|] eqn:Hs; [|by exists app].
    apply reconcile_inv; [done|by rewrite Hs|].
    destruct (Hok name s Hs) as (H1 & H2 & H3). unfold pass_state_ok. simpl. lia.
  - unfold set_pass_all_dropped.
    destruct (pass_states app !! name) as [s|] eqn:Hs; [|by exists app].
    apply reconcile_inv; [done|by rewrite Hs|].
    destruct (Hok name s Hs) as (H1 & H2 & H3). unfold pass_state_ok. simpl. lia.
  - unfold increment_last_pass_dropped.
    destruct (get_last_seen_pass app) as [name|]; [|by exists app].
    destruct (String.eqb name ""); [by exists app|].
    destruct (pass_states app !! name) as [s|] eqn:Hs; [|by exists app].
    destruct (Z.leb_spec (crafted s) 0); [by exists app|].
    apply reconcile_inv; [done|by rewrite Hs|].
    destruct (Hok name s Hs) as (H1 & H2 & H3). unfold pass_state_ok. simpl. lia.
  - eexists. split; [reflexivity|]. split.
    + simpl. apply map_Forall_empty.
    + simpl. by destruct (last_stats app) as [[?|?]|].
Qed.

(** The quantities that reach [update_stats] are not negative: the parser
    reads them from digits and the window adds them up *)
Lemma py_int_acc_nonneg q : forall acc,
  0 <= acc -> string_forall is_digit q = true -> 0 <= py_int_acc acc q.
Proof.
  induction q as [|a q IH]; intros acc Hacc Hd; simpl; [exact Hacc|].
  simpl in Hd. apply andb_true_iff in Hd as [Ha Hq].
  apply IH; [|exact Hq].
  unfold is_digit in Ha. apply andb_true_iff in Ha as [Ha _].
  apply Nat.leb_le in Ha. unfold digit_val. lia.
Qed.

Lemma parsed_quantity_nonneg line ev :
  parse_log_line line = Ok (Some ev) -> 0 <= quantity ev.
Proof.
  intros H. apply (proj2 (parse_log_line_facts line)) in H
    as (pre & d & t & q & name & rest & [(_ & _ & _ & [_ Hq] & _) _] & _ & -> & _).
  by apply py_int_acc_nonneg.
Qed.

Lemma odict_set_values (P : Z -> Prop) k v (d : odict Z) :
  P v -> Forall (fun e => P (snd e)) d -> Forall (fun e => P (snd e)) (odict_set k v d).
Proof.
  intros Hv. induction 1 as [|[k' v'] d Hk Hd IH]; simpl.
  - by repeat constructor.
  - destruct (String.eqb k k'); by constructor.
Qed.

Lemma odict_get_values (P : Z -> Prop) k v (d : odict Z) :
  Forall (fun e => P (snd e)) d -> odict_get k d = Some v -> P v.
Proof.
  intros Hd Hg. apply odict_get_elem in Hg.
  rewrite Forall_forall in Hd. exact (Hd _ Hg).
Qed.

Lemma collect_items_qty_nonneg events_list :
  Forall (fun ev => 0 <= quantity ev) events_list ->
  Forall (fun e => 0 <= snd e) (collect_items_qty events_list).
Proof.
  unfold collect_items_qty.
  assert (H : forall acc : odict Z,
             Forall (fun e => 0 <= snd e) acc ->
             Forall (fun ev => 0 <= quantity ev) events_list ->
             Forall (fun e => 0 <= snd e) (fold_left items_qty_add events_list acc)).
  { induction events_list as [|ev l IH]; intros acc Hacc Hev; simpl; [done|].
    apply Forall_cons in Hev as [Hq Hev]. apply IH; [|exact Hev].
    unfold items_qty_add. destruct (is_yang ev); [done|].
    apply (odict_set_values (fun v => 0 <= v)); [|exact Hacc].
    destruct (odict_get (item ev) acc) as [v|] eqn:Hg; simpl; [|lia].
    pose proof (odict_get_values (fun v => 0 <= v) _ _ _ Hacc Hg). simpl in *. lia. }
  intros Hev. apply H; [constructor|exact Hev].
Qed.

Lemma compute_stats_nonneg w st :
  Forall (fun ev => 0 <= quantity ev) (window w) ->
  compute_stats_from_window w = Some st -> stats_nonneg st.
Proof.
  intros Hev. unfold compute_stats_from_window.
  destruct (window w) as [|first rest] eqn:Hw; [discriminate|].
  intros [= <-]. unfold stats_nonneg. cbn [items].
  rewrite Forall_forall. intros [[n q] ph] Hin.
  apply elem_of_sort_desc in Hin.
  apply list_elem_of_fmap in Hin as [[n' q'] [[= -> -> ->] Hin]].
  pose proof (collect_items_qty_nonneg _ Hev) as Hall.
  rewrite Forall_forall in Hall. exact (Hall _ Hin).
Qed.

Lemma init_app_inv : app_inv init_app.
Proof. split; [apply map_Forall_empty|reflexivity]. Qed.

Lemma run_ops_inv ops : forall app,
  app_inv app -> Forall op_wf ops ->
  exists app', run_ops app ops = Ok app' /\ app_inv app'.
Proof.
  induction ops as [|op ops IH]; intros app Hinv Hwf; simpl.
  - by exists app.
  - apply Forall_cons in Hwf as [Hop Hwf].
    destruct (step_inv app op Hinv Hop) as (app1 & -> & Hinv1). simpl.
    by apply IH.
Qed.

(** C3. Starting from the initial application, after every sequence of
    operations (snapshots whose quantities are not negative, which create
    pass states and raise their totals, reclassifications, set-all-crafted,
    set-all-dropped, single-unit dropped increments, resets) every
    operation has returned normally and every tracked pass state satisfies
    [crafted + dropped = total] with [crafted >= 0] and [dropped >= 0]. *)
Theorem pass_state_invariant (ops : list Op) :
  Forall op_wf ops ->
  exists app',
    run_ops init_app ops = Ok app'
    /\ forall name s,
         pass_states app' !! name = Some s ->
         crafted s + dropped s = total s /\ 0 <= crafted s /\ 0 <= dropped s.
Proof.
  intros Hwf.
  destruct (run_ops_inv ops init_app init_app_inv Hwf) as (app' & Hrun & Hok & _).
  exists app'. split; [exact Hrun|]. intros name s Hs. exact (Hok name s Hs).
Qed.

Lemma pass_state_invariant_witness :
  Forall op_wf
    [OpTick (sample_stats 5); OpAllDropped "Hellish Pass"; OpTick (sample_stats 8);
     OpIncrementDropped; OpReclassify "Hellish Pass" 2; OpAllCrafted "Hellish Pass"]
  /\ exists app',
       run_ops init_app
         [OpTick (sample_stats 5); OpAllDropped "Hellish Pass";
          OpTick (sample_stats 8); OpIncrementDropped;
          OpReclassify "Hellish Pass" 2; OpAllCrafted "Hellish Pass"] = Ok app'
       /\ forall name s,
            pass_states app' !! name = Some s ->
            crafted s + dropped s = total s /\ 0 <= crafted s /\ 0 <= dropped s.
Proof.
  assert (Hwf : Forall op_wf
    [OpTick (sample_stats 5); OpAllDropped "Hellish Pass"; OpTick (sample_stats 8);
     OpIncrementDropped; OpReclassify "Hellish Pass" 2; OpAllCrafted "Hellish Pass"]).
  { repeat constructor; simpl; lia. }
  split; [exact Hwf|]. exact (pass_state_invariant _ Hwf).
Defined.

(** ** Observations that raise the total *)

Lemma names_distinct_base items_list :
  names_distinct items_list -> NoDup (map fst (map fst items_list)).
Proof.
  unfold names_distinct. intros H.
  by rewrite <- list_fmap_compose.
Qed.

(** C4. Observing a tracked pass type of state [{T, C, D}] with a
    quantity [q > T] sets [total] to [q] and [crafted] to [C + (q - T)] and
    leaves [dropped] at [D]; a pass observed at 5, set all dropped and
    observed at 8 ends with total 8, crafted 3 and dropped 5. *)
Theorem total_increase_adds_crafted (app : App) (st : Stats) (name : string)
    (q ph T C D : Z) :
  is_Some (pass_costs app !! name) ->
  pass_states app !! name = Some (mkPassState T C D) ->
  names_distinct (items st) ->
  (name, q, ph) ∈ items st ->
  T < q ->
  (exists app',
     update_stats app (SnapStats st) = Ok app'
     /\ pass_states app' !! name = Some (mkPassState q (C + (q - T)) D))
  /\ bind (run_ops init_app
             [OpTick (sample_stats 5); OpAllDropped "Hellish Pass";
              OpTick (sample_stats 8)])
       (fun a => Ok (pass_states a !! "Hellish Pass"))
     = Ok (Some (mkPassState 8 3 5)).
Proof.
  intros Hc Hs Hnd Hin Hlt. split; [|vm_compute; reflexivity].
  destruct (update_stats_fields app st)
    as (app' & Hu & _ & _ & _ & _ & _ & _ & _ & Hps & _).
  exists app'. split; [exact Hu|]. rewrite Hps.
  rewrite (base_items_of_distinct _ Hnd).
  rewrite (observe_passes_at _ _ _ name q).
  - rewrite Hs. simpl. destruct (Z.ltb_spec 0 (q - T)); [|lia].
    do 2 f_equal. lia.
  - by apply names_distinct_base.
  - apply list_elem_of_fmap. by exists (name, q, ph).
  - exact Hc.
Qed.

Lemma total_increase_adds_crafted_witness :
  exists app',
    update_stats sample_tracking_app (SnapStats (sample_stats 8)) = Ok app'
    /\ pass_states app' !! "Hellish Pass" = Some (mkPassState 8 (5 + (8 - 5)) 0).
Proof.
  refine (proj1 (total_increase_adds_crafted sample_tracking_app (sample_stats 8)
                   "Hellish Pass" 8 8 5 5 0 _ _ _ _ _)).
  - vm_compute. eauto.
  - vm_compute. reflexivity.
  - unfold names_distinct. simpl. compute_done.
  - simpl. apply list_elem_of_here.
  - lia.
Defined.

(** ** Requests that are turned down *)



(** ** Rates *)

Lemma max_1_ge x : (1 <= max_1 x)%Q.
Proof.
  unfold max_1. destruct (Qle_bool 1 x) eqn:H.
  - by apply Qle_bool_iff.
  - apply Qle_refl.
Qed.

Lemma fdiv_pos x c :
  (1 <= x)%Q -> (0 < c)%Q -> (c <= 4096)%Q -> (0 < fdiv x c)%Q.
Proof.
  intros Hx Hc Hc'. unfold fdiv. apply fl_pos.
  apply Qle_trans with (pow2 (-12)); [apply pow2_le; lia|].
  change (pow2 (-12)) with (1 # 4096)%Q.
  apply Qle_shift_div_l; [exact Hc|]. lra.
Qed.

Lemma max_1_hours_pos x : (0 < fdiv (max_1 x) 3600)%Q.
Proof. apply fdiv_pos; [apply max_1_ge|reflexivity|discriminate]. Qed.

Lemma max_1_minutes_pos x : (0 < fdiv (max_1 x) 60)%Q.
Proof. apply fdiv_pos; [apply max_1_ge|reflexivity|discriminate]. Qed.

Lemma Qpositive_true q : (0 < q)%Q -> Qpositive q = true.
Proof.
  intros H. unfold Qpositive. destruct (Qle_bool q 0) eqn:Hle; [|reflexivity].
  apply Qle_bool_iff in Hle. lra.
Qed.

Lemma odict_set_keys {V : Type} k (v : V) d :
  map fst (odict_set k v d) = map fst d
  \/ ((k ∉ map fst d) /\ map fst (odict_set k v d) = map fst d ++ [k]).
Proof.
  induction d as [|[k' v'] d IH]; simpl.
  - right. split; [apply not_elem_of_nil|reflexivity].
  - destruct (String.eqb_spec k k') as [->|Hne]; simpl; [by left|].
    destruct IH as [->|[Hk ->]]; [by left|right].
    split; [|reflexivity]. apply not_elem_of_cons. done.
Qed.

Lemma collect_items_qty_nodup events_list :
  NoDup (map fst (collect_items_qty events_list)).
Proof.
  unfold collect_items_qty.
  assert (H : forall acc : odict Z,
             NoDup (map fst acc) ->
             NoDup (map fst (fold_left items_qty_add events_list acc))).
  { induction events_list as [|ev l IH]; intros acc Hacc; simpl; [done|].
    apply IH. unfold items_qty_add. destruct (is_yang ev); [done|].
    destruct (odict_set_keys (item ev)
                (default 0 (odict_get (item ev) acc) + quantity ev) acc)
      as [->|[Hk ->]]; [done|].
    apply NoDup_app. split; [done|]. split; [|apply NoDup_singleton].
    intros x Hx Hx'. apply list_elem_of_singleton in Hx'. by subst. }
  apply H. constructor.
Qed.

(** The snapshot computed from a window: distinct names, a positive
    length, and per-hour rates already rounded *)
Lemma compute_stats_items w st :
  compute_stats_from_window w = Some st ->
  names_distinct (items st)
  /\ (0 < hours st)%Q
  /\ forall name qty ph,
       (name, qty, ph) ∈ items st ->
       ph = py_round (fdiv (float_of_int qty) (hours st)).
Proof.
  unfold compute_stats_from_window.
  destruct (window w) as [|first rest] eqn:Hw; [discriminate|].
  intros [= <-]. cbn [items hours]. split; [|split].
  - unfold names_distinct.
    rewrite (sort_desc_perm _ _).
    rewrite <- list_fmap_compose.
    erewrite list_fmap_ext; [apply collect_items_qty_nodup|].
    by intros i [n q] _.
  - apply max_1_hours_pos.
  - intros name qty ph Hin. apply elem_of_sort_desc in Hin.
    apply list_elem_of_fmap in Hin as [[n q] [[= -> -> ->] _]]. reflexivity.
Qed.

(** C7 (what the code does). The net yang-per-hour that [update_stats]
    stores is computed before the deltas are recomputed: it uses the
    crafting delta the application held before the call.  For a first
    snapshot of 5,000,000 Yang and one Hellish Pass over one hour the rate
    stored is 5,000,000 while the net total is 3,000,000. *)
Theorem net_rate_uses_previous_delta :
  (forall (app : App) (st : Stats),
     exists app',
       update_stats app (SnapStats st) = Ok app'
       /\ net_yang_per_hour app' =
            (let elapsed_hours := if Qpositive (hours st) then hours st else tiny in
             fsub (fdiv (float_of_int (total_yang st)) elapsed_hours)
               (fdiv (float_of_int (crafting_yang_delta app))
                  elapsed_hours)))
  /\ exists st app',
       compute_stats_from_window (mkWorker 60 None false sample_pass_window) = Some st
       /\ update_stats init_app (SnapStats st) = Ok app'
       /\ (hours st == 1)%Q
       /\ total_yang st = 5000000
       /\ crafting_yang_delta app' = 2000000
       /\ net_yang app' = 3000000
       /\ (net_yang_per_hour app' == 5000000)%Q
       /\ ~ (net_yang_per_hour app' ==
             inject_Z (total_yang st - crafting_yang_delta app') / hours st)%Q.
Proof.
  split.
  - intros app st.
    destruct (update_stats_fields app st)
      as (app' & Hu & _ & _ & _ & _ & _ & _ & _ & _ & _ & _ & _ & _ & Hr & _).
    exists app'. split; [exact Hu|exact Hr].
  - eexists. eexists.
    split; [vm_compute; reflexivity|].
    split; [vm_compute; reflexivity|].
    split; [vm_compute; reflexivity|].
    split; [vm_compute; reflexivity|].
    split; [vm_compute; reflexivity|].
    split; [vm_compute; reflexivity|].
    split; [vm_compute; reflexivity|].
    vm_compute. discriminate.
Qed.

(** C8 (amended). For every item of a snapshot computed from the window,
    the per-hour rate carried by the snapshot is already an integer, the
    float quotient [quantity / hours] rounded to the nearest; the per-item
    net rate of [render_items] is that integer, converted to a float, minus
    the float quotient of the item's crafting delta by the same elapsed
    hours; and the row shown holds the net quantity and the net rate
    truncated toward zero, not rounded. *)
Theorem item_net_rate_from_rounded_rate (w : Worker) (st : Stats) (app : App) :
  compute_stats_from_window w = Some st ->
  exists app',
    update_stats app (SnapStats st) = Ok app'
    /\ forall name qty ph,
         (name, qty, ph) ∈ items st ->
         ph = py_round (fdiv (float_of_int qty) (hours st))
         /\ get0 (crafting_item_delta app') name =
              per_item_crafting_delta (pass_costs app') (pass_states app') name
         /\ net_per_hour app' name =
              fsub (float_of_int ph)
                (fdiv (float_of_int (get0 (crafting_item_delta app') name)) (hours st))
         /\ exists source,
              mkRow name source (qty - get0 (crafting_item_delta app') name)
                (py_trunc (net_per_hour app' name)) ∈ tree app'.
Proof.
  intros Hc. destruct (compute_stats_items w st Hc) as (Hnd & Hpos & Hround).
  destruct (update_stats_fields app st)
    as (app' & Hu & _ & _ & _ & Hbi & Hbr & Hdh & _ & _ & _ & Hd & _ & _ & _ & Ht).
  exists app'. split; [exact Hu|]. intros name qty ph Hin.
  split; [by apply (Hround name qty ph)|]. split; [apply Hd|].
  assert (Hrate : net_per_hour app' name =
            fsub (float_of_int ph)
              (fdiv (float_of_int (get0 (crafting_item_delta app') name)) (hours st))).
  { assert (Hph : get0 (base_item_rates app') name = ph).
    { unfold get0. rewrite Hbr.
      by rewrite (base_item_rates_of_distinct _ name qty ph Hnd Hin). }
    assert (Hh : data_hours app' = hours st).
    { rewrite Hdh. by rewrite (Qpositive_true _ Hpos). }
    unfold net_per_hour. rewrite Hph, Hh.
    by rewrite (Qpositive_true _ Hpos). }
  split; [exact Hrate|].
  eexists. rewrite Ht, Hbi, (base_items_of_distinct _ Hnd).
  apply list_elem_of_fmap. exists (name, qty). split; [reflexivity|].
  apply elem_of_sort_desc. apply list_elem_of_fmap. by exists (name, qty, ph).
Qed.

Lemma item_net_rate_from_rounded_rate_witness :
  exists st app' source,
    compute_stats_from_window (mkWorker 60 None false sample_truncation_window) = Some st
    /\ update_stats init_app (SnapStats st) = Ok app'
    /\ ("Shard", 1, 1200) ∈ items st
    /\ get0 (crafting_item_delta app') "Shard" = 400
    /\ (net_per_hour app' "Shard" < inject_Z (-478799)
        /\ inject_Z (-478800) < net_per_hour app' "Shard")%Q
    /\ mkRow "Shard" source (1 - 400) (-478799) ∈ tree app'.
Proof.
  destruct (compute_stats_from_window (mkWorker 60 None false sample_truncation_window))
    as [st|] eqn:Hc; [|vm_compute in Hc; discriminate].
  destruct (item_net_rate_from_rounded_rate _ st init_app Hc) as (app' & Hu & Hall).
  assert (Hin : ("Shard", 1, 1200) ∈ items st).
  { vm_compute in Hc. injection Hc as <-. simpl. apply list_elem_of_here. }
  destruct (Hall "Shard" 1 1200 Hin) as (_ & _ & _ & source & Hrow).
  assert (Hval : get0 (crafting_item_delta app') "Shard" = 400
                 /\ (net_per_hour app' "Shard" < inject_Z (-478799)
                     /\ inject_Z (-478800) < net_per_hour app' "Shard")%Q
                 /\ py_trunc (net_per_hour app' "Shard") = -478799).
  { vm_compute in Hc. injection Hc as <-. vm_compute in Hu. injection Hu as <-.
    vm_compute. auto. }
  destruct Hval as (Hd & Hr & Ht). rewrite Hd, Ht in Hrow.
  exists st, app', source. auto 10.
Defined.

Lemma item_net_rate_counterexample :
  exists st app',
    compute_stats_from_window (mkWorker 60 None false sample_shard_window) = Some st
    /\ update_stats init_app (SnapStats st) = Ok app'
    /\ ("Shard", 2, 1029) ∈ items st
    /\ get0 (crafting_item_delta app') "Shard" = 0
    /\ (net_per_hour app' "Shard" == 1029)%Q
    /\ ~ (net_per_hour app' "Shard" ==
          inject_Z 2 / hours st
          - inject_Z (get0 (crafting_item_delta app') "Shard") / hours st)%Q
    /\ ~ (net_per_hour app' "Shard" ==
          fsub (fdiv (float_of_int 2) (hours st))
            (fdiv (float_of_int (get0 (crafting_item_delta app') "Shard")) (hours st)))%Q.
Proof.
  eexists. eexists.
  split; [vm_compute; reflexivity|].
  split; [vm_compute; reflexivity|].
  split; [apply list_elem_of_here|].
  split; [vm_compute; reflexivity|].
  split; [vm_compute; reflexivity|].
  split; vm_compute; discriminate.
Qed.

(** * Further properties *)

(** ** The window in its three modes *)

Lemma add_event_drop w ev :
  exists n, window (add_event w ev) = drop n (window w ++ [ev]).
Proof.
  unfold add_event. destruct (unlimited w).
  - exists 0%nat. reflexivity.
  - destruct (fixed_start_ts w); simpl; apply popleft_while_drop.
Qed.

(** X1. Whatever the mode and whatever the order of the timestamps, the window
    is a run of consecutive events at the end of what was appended: events
    leave at the front only, and none comes back. *)
Theorem window_is_suffix (w : Worker) (evs : list LootEvent) :
  exists n, window (fold_left add_event evs w) = drop n (window w ++ evs).
Proof.
  revert w. induction evs as [|ev evs IH]; intros w; simpl.
  - exists 0%nat. by rewrite app_nil_r.
  - destruct (IH (add_event w ev)) as [n Hn].
    destruct (add_event_drop w ev) as [k Hk].
    rewrite Hn, Hk.
    destruct (decide (k <= length (window w ++ [ev]))%nat) as [Hle|Hgt].
    + exists (n + k)%nat. rewrite <- drop_app_le by exact Hle.
      rewrite <- app_assoc. simpl. by rewrite drop_drop, Nat.add_comm.
    + rewrite (drop_ge (window w ++ [ev]) k) by lia. simpl.
      exists (n + length (window w ++ [ev]))%nat.
      rewrite (app_assoc (window w) [ev] evs : window w ++ ev :: evs = _).
      by rewrite Nat.add_comm, <- drop_drop, drop_app_length.
Qed.

Lemma unlimited_mode_run evs : forall w,
  unlimited w = true ->
  unlimited (fold_left add_event evs w) = true
  /\ window (fold_left add_event evs w) = window w ++ evs.
Proof.
  induction evs as [|ev evs IH]; intros w Hu; simpl.
  - by rewrite app_nil_r.
  - assert (Hu' : unlimited (add_event w ev) = true).
    { unfold add_event. by rewrite Hu. }
    destruct (IH _ Hu') as [Hu'' ->]. split; [exact Hu''|].
    unfold add_event. rewrite Hu. simpl. by rewrite <- app_assoc.
Qed.

(** X2. In all-time mode nothing is ever removed: the window is everything
    appended, in order, whatever the timestamps and the other settings. *)
Theorem unlimited_keeps_all (w : Worker) (evs : list LootEvent) :
  unlimited w = true ->
  window (fold_left add_event evs w) = window w ++ evs
  /\ forall ev, ev ∈ window w -> ev ∈ window (fold_left add_event evs w).
Proof.
  intros Hu. destruct (unlimited_mode_run evs w Hu) as [_ Hw].
  split; [exact Hw|]. intros ev Hev. rewrite Hw. apply elem_of_app. by left.
Qed.

Lemma unlimited_keeps_all_witness :
  window (fold_left add_event sample_pass_window (mkWorker 1 None true []))
  = [] ++ sample_pass_window.
Proof.
  exact (proj1 (unlimited_keeps_all (mkWorker 1 None true []) sample_pass_window eq_refl)).
Defined.

Lemma fixed_mode_kept w ev fixed :
  unlimited w = false -> fixed_start_ts w = Some fixed ->
  unlimited (add_event w ev) = false
  /\ fixed_start_ts (add_event w ev) = Some fixed
  /\ window (add_event w ev) = popleft_while fixed (window w ++ [ev]).
Proof. intros Hu Hf. unfold add_event. rewrite Hu, Hf. simpl. auto. Qed.

Lemma fixed_mode_run evs : forall w fixed,
  unlimited w = false -> fixed_start_ts w = Some fixed ->
  unlimited (fold_left add_event evs w) = false
  /\ fixed_start_ts (fold_left add_event evs w) = Some fixed.
Proof.
  induction evs as [|ev evs IH]; intros w fixed Hu Hf; simpl; [auto|].
  destruct (fixed_mode_kept w ev fixed Hu Hf) as (Hu' & Hf' & _).
  by apply IH.
Qed.

Lemma fixed_window_filter (w : Worker) (fixed : Z) (evs : list LootEvent) :
  unlimited w = false -> fixed_start_ts w = Some fixed -> window w = [] ->
  StronglySorted le_ts evs ->
  window (fold_left add_event evs w) = filter (fun e => fixed <= ts e) evs.
Proof.
  intros Hu Hf Hw Hss.
  induction evs as [|ev evs IH] using rev_ind.
  - simpl. by rewrite Hw.
  - rewrite fold_left_app. simpl.
    pose proof (StronglySorted_app_1_l _ _ _ Hss) as Hss'.
    destruct (fixed_mode_run evs w fixed Hu Hf) as [Hu' Hf'].
    destruct (fixed_mode_kept _ ev fixed Hu' Hf') as (_ & _ & ->).
    rewrite (IH Hss'). rewrite popleft_while_filter.
    + rewrite !filter_app. f_equal.
      rewrite list_filter_filter. apply list_filter_iff. tauto.
    + apply StronglySorted_app_2.
      * intros x1 x2 Hx1 Hx2. apply list_elem_of_filter in Hx1 as [_ Hx1].
        exact (StronglySorted_app_1_elem_of le_ts _ _ x1 x2 Hss Hx1 Hx2).
      * by apply sorted_filter.
      * repeat constructor.
Qed.

(** X3. In fixed-start mode, appending events with non-decreasing timestamps to
    an empty window leaves exactly the events whose timestamp is not before
    the fixed start; an event stamped exactly at the start is kept. *)
Theorem fixed_start_window_exact (w : Worker) (fixed : Z) (evs : list LootEvent) :
  unlimited w = false -> fixed_start_ts w = Some fixed -> window w = [] ->
  nondecreasing evs ->
  window (fold_left add_event evs w) = filter (fun e => fixed <= ts e) evs.
Proof.
  intros Hu Hf Hw Hs. apply fixed_window_filter; [exact Hu|exact Hf|exact Hw|].
  apply Sorted_StronglySorted; [apply le_ts_trans|exact Hs].
Qed.

Lemma fixed_start_window_exact_witness :
  window (fold_left add_event sample_pass_window (mkWorker 60 (Some 3600000000) false []))
  = [mkLootEvent 3600000000 1 "Hellish Pass"].
Proof.
  rewrite (fixed_start_window_exact (mkWorker 60 (Some 3600000000) false [])
             3600000000 sample_pass_window eq_refl eq_refl eq_refl).
  - vm_compute. reflexivity.
  - repeat constructor; unfold le_ts; simpl; lia.
Defined.

Lemma popleft_while_last bound win ev :
  bound <= ts ev ->
  exists front, popleft_while bound (win ++ [ev]) = front ++ [ev].
Proof.
  intros Hev. induction win as [|e win IH]; simpl.
  - destruct (Z.ltb_spec (ts ev) bound); [lia|]. by exists [].
  - destruct (ts e <? bound); [exact IH|]. by exists (e :: win).
Qed.

(** X4. In trailing mode with a window length that is not negative, the event
    just appended is always the last of the window, whatever came before
    and in whatever order: the window is never empty after an append, and
    the statistics exist and end at that event. *)
Theorem trailing_append_stays (w : Worker) (ev : LootEvent) :
  unlimited w = false -> fixed_start_ts w = None -> 0 <= window_minutes w ->
  (exists front, window (add_event w ev) = front ++ [ev])
  /\ exists st,
       compute_stats_from_window (add_event w ev) = Some st /\ end_ st = ts ev.
Proof.
  intros Hu Hf Hm.
  destruct (trailing_mode_kept w ev Hu Hf) as (_ & _ & _ & Hw).
  destruct (popleft_while_last (ts ev - timedelta_minutes (window_minutes w))
              (window w) ev) as [front Hfront].
  { unfold timedelta_minutes, US_PER_SECOND. lia. }
  rewrite Hfront in Hw. split; [by exists front|].
  unfold compute_stats_from_window. rewrite Hw.
  destruct (front ++ [ev]) as [|first rest] eqn:Hfr.
  - by destruct front.
  - eexists. split; [reflexivity|]. cbn [end_].
    rewrite <- Hfr. by rewrite last_last.
Qed.

Lemma trailing_append_stays_witness :
  exists st,
    compute_stats_from_window
      (add_event (mkWorker 0 None false sample_pass_window) (mkLootEvent 5 1 "Shard"))
    = Some st /\ end_ st = 5.
Proof.
  exact (proj2 (trailing_append_stays (mkWorker 0 None false sample_pass_window)
                  (mkLootEvent 5 1 "Shard") eq_refl eq_refl ltac:(simpl; lia))).
Defined.

(** ** More on the statistics of the window *)

Section SortDesc.

Context {A : Type} (key : A -> Z).

Lemma insert_desc_sorted x l :
  StronglySorted (fun a b => key b <= key a) l ->
  StronglySorted (fun a b => key b <= key a) (insert_desc key x l).
Proof.
  induction 1 as [|y l Hs IH Hall]; simpl.
  - repeat constructor.
  - destruct (Z.ltb_spec (key x) (key y)) as [Hlt|Hge].
    + constructor; [exact IH|].
      rewrite (insert_desc_perm key x l). constructor; [lia|exact Hall].
    + constructor; [by constructor|].
      constructor; [exact Hge|].
      eapply Forall_impl; [exact Hall|]. simpl. intros; lia.
Qed.

Lemma sort_desc_sorted l :
  StronglySorted (fun a b => key b <= key a) (sort_desc key l).
Proof.
  induction l as [|x l IH]; simpl; [constructor|]. by apply insert_desc_sorted.
Qed.

(** The sort is stable: among equal keys the order is kept *)
Lemma insert_desc_stable q x l :
  filter (fun a => key a = q) (insert_desc key x l)
  = filter (fun a => key a = q) (x :: l).
Proof.
  induction l as [|y l IH]; simpl; [reflexivity|].
  destruct (Z.ltb_spec (key x) (key y)) as [Hlt|Hge]; [|reflexivity].
  rewrite (filter_cons _ y), IH, !(filter_cons _ x), !(filter_cons _ y).
  destruct (decide (key x = q)), (decide (key y = q)); try reflexivity. lia.
Qed.

Lemma sort_desc_stable q l :
  filter (fun a => key a = q) (sort_desc key l) = filter (fun a => key a = q) l.
Proof.
  induction l as [|x l IH]; simpl; [reflexivity|].
  rewrite insert_desc_stable, !filter_cons, IH. reflexivity.
Qed.

(** Sorting what is sorted changes nothing *)
Lemma sort_desc_of_sorted l :
  StronglySorted (fun a b => key b <= key a) l -> sort_desc key l = l.
Proof.
  induction 1 as [|x l Hs IH Hall]; simpl; [reflexivity|].
  rewrite IH. destruct l as [|y l]; simpl; [reflexivity|].
  apply Forall_cons in Hall as [Hy _].
  destruct (Z.ltb_spec (key x) (key y)); [lia|reflexivity].
Qed.

End SortDesc.

Lemma Zsum_app l1 l2 : Zsum (l1 ++ l2) = Zsum l1 + Zsum l2.
Proof. unfold Zsum. induction l1 as [|x l1 IH]; simpl; lia. Qed.

Lemma Zsum_perm l1 l2 : l1 ≡ₚ l2 -> Zsum l1 = Zsum l2.
Proof. unfold Zsum. induction 1; simpl; lia. Qed.

Lemma odict_set_sum k v (d : odict Z) :
  Zsum (map snd (odict_set k v d))
  = Zsum (map snd d) - default 0 (odict_get k d) + v.
Proof.
  unfold Zsum. induction d as [|[k' v'] d IH]; simpl; [lia|].
  destruct (String.eqb_spec k k'); simpl; lia.
Qed.

Lemma sum_yang_quantity events : sum_yang events = quantity_of is_yang events.
Proof.
  unfold sum_yang, quantity_of.
  assert (H : forall acc,
             fold_left (fun acc ev => if is_yang ev then acc + quantity ev else acc)
               events acc
             = acc + Zsum (map quantity (List.filter is_yang events))).
  { induction events as [|ev l IH]; intros acc; simpl.
    - unfold Zsum. simpl. lia.
    - rewrite IH. destruct (is_yang ev); simpl; unfold Zsum; simpl; lia. }
  rewrite H. lia.
Qed.

Lemma filter_item_absent events name :
  name ∉ map item (List.filter (fun ev => negb (is_yang ev)) events) ->
  List.filter (fun ev => negb (is_yang ev) && String.eqb (item ev) name) events = [].
Proof.
  induction events as [|ev l IH]; simpl; [reflexivity|].
  destruct (is_yang ev); simpl; [exact IH|].
  intros Hn. apply not_elem_of_cons in Hn as [Hne Hn].
  destruct (String.eqb_spec (item ev) name); [congruence|]. by apply IH.
Qed.

(** What the dictionary [items_qty] holds after the events: for a name,
    the sum of the quantities of the events of that item, Yang apart *)
Lemma collect_items_qty_get events name :
  odict_get name (collect_items_qty events) =
  if bool_decide (name ∈ item_names events)
  then Some (quantity_of (fun ev => negb (is_yang ev) && String.eqb (item ev) name) events)
  else None.
Proof.
  unfold collect_items_qty, item_names, quantity_of.
  assert (H : forall acc : odict Z,
    odict_get name (fold_left items_qty_add events acc) =
    if bool_decide (name ∈ map item (List.filter (fun ev => negb (is_yang ev)) events))
    then Some (default 0 (odict_get name acc)
               + Zsum (map quantity
                         (List.filter (fun ev => negb (is_yang ev) && String.eqb (item ev) name)
                            events)))
    else odict_get name acc).
  { induction events as [|ev l IH]; intros acc.
    - reflexivity.
    - cbn [fold_left List.filter]. rewrite IH. unfold items_qty_add.
      destruct (is_yang ev) eqn:Hy; cbn [negb andb]; [reflexivity|].
      destruct (String.eqb_spec (item ev) name) as [<-|Hne].
      + rewrite odict_get_set_eq. cbn [map default].
        rewrite (bool_decide_eq_true_2 (item ev ∈ item ev :: _)) by apply list_elem_of_here.
        case_bool_decide as Hin; f_equal.
        * unfold Zsum. simpl. lia.
        * rewrite (filter_item_absent _ _ Hin). unfold Zsum. simpl. lia.
      + rewrite odict_get_set_ne by done. cbn [map].
        repeat case_bool_decide; try reflexivity.
        * exfalso. match goal with H : ¬ _ |- _ => apply H end.
          by apply list_elem_of_further.
        * exfalso. match goal with H : _ ∈ _ :: _ |- _ =>
            apply elem_of_cons in H as [?|?] end; [congruence|done]. }
  rewrite H. simpl. case_bool_decide; [f_equal; lia|reflexivity].
Qed.

Lemma collect_items_qty_sum events :
  Zsum (map snd (collect_items_qty events))
  = quantity_of (fun ev => negb (is_yang ev)) events.
Proof.
  unfold collect_items_qty, quantity_of.
  assert (H : forall acc : odict Z,
    Zsum (map snd (fold_left items_qty_add events acc)) =
    Zsum (map snd acc)
    + Zsum (map quantity (List.filter (fun ev => negb (is_yang ev)) events))).
  { induction events as [|ev l IH]; intros acc.
    - simpl. change (Zsum []) with 0. lia.
    - cbn [fold_left List.filter]. rewrite IH. unfold items_qty_add.
      destruct (is_yang ev); cbn [negb]; [reflexivity|].
      rewrite odict_set_sum. cbn [map].
      change (Zsum (quantity ev :: ?x)) with (quantity ev + Zsum x). lia. }
  rewrite H. change (Zsum (map snd [])) with 0. lia.
Qed.

Lemma quantity_split events :
  quantity_of is_yang events + quantity_of (fun ev => negb (is_yang ev)) events
  = Zsum (map quantity events).
Proof.
  unfold quantity_of, Zsum.
  induction events as [|ev l IH]; simpl; [reflexivity|].
  destruct (is_yang ev); simpl; lia.
Qed.

Lemma odict_set_keys_cases {V : Type} k (v : V) d :
  (k ∈ map fst d /\ map fst (odict_set k v d) = map fst d)
  \/ ((k ∉ map fst d) /\ map fst (odict_set k v d) = map fst d ++ [k]).
Proof.
  induction d as [|[k' v'] d IH]; simpl.
  - right. split; [apply not_elem_of_nil|reflexivity].
  - destruct (String.eqb_spec k k') as [->|Hne]; simpl.
    + left. split; [apply list_elem_of_here|reflexivity].
    + destruct IH as [[Hk ->]|[Hk ->]].
      * left. split; [by apply list_elem_of_further|reflexivity].
      * right. split; [|reflexivity]. apply not_elem_of_cons. done.
Qed.

Lemma first_seen_ext l : forall seen seen',
  (forall x, x ∈ seen <-> x ∈ seen') -> first_seen seen l = first_seen seen' l.
Proof.
  induction l as [|x l IHl]; intros seen seen' Heq; simpl; [reflexivity|].
  rewrite (bool_decide_ext _ _ (Heq x)).
  destruct (bool_decide (x ∈ seen')); [by apply IHl|].
  f_equal. apply IHl. intros y. rewrite !elem_of_cons, Heq. tauto.
Qed.

(** The keys of [items_qty] come in the order in which the items are first
    seen *)
Lemma collect_items_qty_keys events :
  map fst (collect_items_qty events) = first_seen [] (item_names events).
Proof.
  unfold collect_items_qty, item_names.
  assert (H : forall acc : odict Z,
    map fst (fold_left items_qty_add events acc) =
    map fst acc
    ++ first_seen (map fst acc)
         (map item (List.filter (fun ev => negb (is_yang ev)) events))).
  { induction events as [|ev l IH]; intros acc.
    - simpl. by rewrite app_nil_r.
    - cbn [fold_left List.filter]. rewrite IH. unfold items_qty_add.
      destruct (is_yang ev); cbn [negb map first_seen]; [reflexivity|].
      destruct (odict_set_keys_cases (item ev)
                  (default 0 (odict_get (item ev) acc) + quantity ev) acc)
        as [[Hk ->]|[Hk ->]].
      + by rewrite bool_decide_eq_true_2.
      + rewrite bool_decide_eq_false_2 by done. rewrite <- app_assoc. simpl.
        f_equal. f_equal. apply first_seen_ext. intros y.
        rewrite elem_of_app, !elem_of_cons, elem_of_nil. tauto. }
  apply (H []).
Qed.

Lemma compute_stats_unfold w st :
  compute_stats_from_window w = Some st ->
  exists first rest,
    window w = first :: rest
    /\ total_yang st = sum_yang (window w)
    /\ start st = ts first
    /\ end_ st = ts (List.last (window w) first)
    /\ hours st = fdiv (max_1 (total_seconds (end_ st - start st))) 3600
    /\ minutes st = fdiv (max_1 (total_seconds (end_ st - start st))) 60
    /\ yang_per_hour st = py_round (fdiv (float_of_int (total_yang st)) (hours st))
    /\ yang_per_minute st = py_round (fdiv (float_of_int (total_yang st)) (minutes st))
    /\ items st =
         sort_desc (fun x => snd (fst x))
           (map (fun '(name, qty) => (name, qty, py_round (fdiv (float_of_int qty) (hours st))))
              (collect_items_qty (window w))).
Proof.
  unfold compute_stats_from_window.
  destruct (window w) as [|first rest] eqn:Hw; [discriminate|].
  intros [= <-]. exists first, rest. simpl. auto 10.
Qed.

Lemma elem_of_items w st name qty ph :
  compute_stats_from_window w = Some st ->
  (name, qty, ph) ∈ items st <->
  odict_get name (collect_items_qty (window w)) = Some qty
  /\ ph = py_round (fdiv (float_of_int qty) (hours st)).
Proof.
  intros Hc. destruct (compute_stats_unfold w st Hc)
    as (first & rest & _ & _ & _ & _ & _ & _ & _ & _ & ->).
  rewrite elem_of_sort_desc, list_elem_of_fmap. split.
  - intros [[n q] [[= -> -> ->] Hin]]. split; [|reflexivity].
    apply odict_get_nodup; [apply collect_items_qty_nodup|exact Hin].
  - intros [Hg ->]. exists (name, qty). split; [reflexivity|].
    by apply odict_get_elem.
Qed.

Lemma items_quantity w st name qty ph :
  compute_stats_from_window w = Some st ->
  (name, qty, ph) ∈ items st ->
  name <> "Yang"
  /\ name ∈ map item (window w)
  /\ qty = quantity_of (fun ev => String.eqb (item ev) name) (window w).
Proof.
  intros Hc Hin. apply (elem_of_items w st _ _ _ Hc) in Hin as [Hg _].
  rewrite collect_items_qty_get in Hg. case_bool_decide as Hn; [|discriminate].
  injection Hg as <-. unfold item_names in Hn.
  apply list_elem_of_fmap in Hn as [ev [-> Hev]].
  apply list_elem_of_In, filter_In in Hev as [Hev Hny].
  assert (Hne : item ev <> "Yang").
  { intros Heq. unfold is_yang in Hny. rewrite Heq in Hny. discriminate. }
  split; [exact Hne|]. split.
  { apply list_elem_of_fmap. exists ev. split; [reflexivity|by apply list_elem_of_In]. }
  unfold quantity_of. f_equal. f_equal.
  apply List.filter_ext. intros e. unfold is_yang.
  destruct (String.eqb_spec (item e) (item ev)) as [->|]; [|by rewrite andb_false_r].
  destruct (String.eqb_spec (item ev) "Yang"); [done|reflexivity].
Qed.

(** X5. The totals of the statistics are sums over the window: [total_yang] adds
    the quantities of the Yang events; no name is listed twice among the
    items, and there is exactly one item per name other than Yang that
    occurs in the window, with the sum of the quantities of its events;
    together they account for every quantity of the window. *)
Theorem compute_stats_conserves (w : Worker) (st : Stats) :
  compute_stats_from_window w = Some st ->
  total_yang st = quantity_of is_yang (window w)
  /\ NoDup (map (fun e : string * Z * Z => fst (fst e)) (items st))
  /\ (forall name qty ph,
        (name, qty, ph) ∈ items st ->
        name <> "Yang"
        /\ name ∈ map item (window w)
        /\ qty = quantity_of (fun ev => String.eqb (item ev) name) (window w))
  /\ (forall ev, ev ∈ window w -> item ev <> "Yang" ->
        exists qty ph, (item ev, qty, ph) ∈ items st)
  /\ total_yang st + Zsum (map (fun e : string * Z * Z => snd (fst e)) (items st))
     = Zsum (map quantity (window w)).
Proof.
  intros Hc. pose proof (compute_stats_unfold w st Hc)
    as (first & rest & _ & Hy & _ & _ & _ & _ & _ & _ & Hitems).
  split; [by rewrite Hy, sum_yang_quantity|].
  split; [exact (proj1 (compute_stats_items w st Hc))|]. split; [|split].
  - intros name qty ph Hin. exact (items_quantity w st name qty ph Hc Hin).
  - intros ev Hev Hne.
    assert (Hn : item ev ∈ item_names (window w)).
    { unfold item_names. apply list_elem_of_fmap. exists ev. split; [reflexivity|].
      apply list_elem_of_In, filter_In. split; [by apply list_elem_of_In|].
      unfold is_yang. by destruct (String.eqb_spec (item ev) "Yang"). }
    eexists. eexists. apply (elem_of_items w st _ _ _ Hc). split; [|reflexivity].
    rewrite collect_items_qty_get. by rewrite bool_decide_eq_true_2.
  - rewrite Hy, sum_yang_quantity, Hitems.
    rewrite (Zsum_perm _ _ (fmap_Permutation _ _ _ (sort_desc_perm _ _))).
    rewrite <- list_fmap_compose.
    erewrite (list_fmap_ext _ snd); [|by intros i [n q] _].
    rewrite collect_items_qty_sum. apply quantity_split.
Qed.

Lemma compute_stats_conserves_witness :
  exists st,
    compute_stats_from_window (mkWorker 60 None false sample_pass_window) = Some st
    /\ total_yang st = quantity_of is_yang sample_pass_window.
Proof.
  destruct (compute_stats_from_window (mkWorker 60 None false sample_pass_window))
    as [st|] eqn:Hc; [|vm_compute in Hc; discriminate].
  exists st. split; [reflexivity|].
  exact (proj1 (compute_stats_conserves _ st Hc)).
Defined.

Lemma filter_by_value (F : string -> Z) (q : Z) (d : odict Z) :
  (forall n v, (n, v) ∈ d -> v = F n) ->
  map fst (filter (fun e : string * Z => snd e = q) d)
  = filter (fun n => F n = q) (map fst d).
Proof.
  induction d as [|[n v] d IH]; intros HF; [reflexivity|].
  pose proof (HF n v (list_elem_of_here _ _)) as Hv.
  assert (IH' := IH (fun n' v' Hin => HF n' v' (list_elem_of_further _ _ _ Hin))).
  cbn [map]. destruct (decide (v = q)) as [Heq|Hne].
  - rewrite (filter_cons_True (fun e : string * Z => snd e = q)) by exact Heq.
    rewrite (filter_cons_True (fun n => F n = q)) by (simpl; lia).
    cbn [map]. by f_equal.
  - rewrite (filter_cons_False (fun e : string * Z => snd e = q)) by exact Hne.
    rewrite (filter_cons_False (fun n => F n = q)) by (simpl; lia).
    exact IH'.
Qed.

(** X6. The items of the statistics are in descending order of quantity, and
    the items of one quantity follow each other in the order in which they
    were first seen in the window. *)
Theorem compute_items_order (w : Worker) (st : Stats) :
  compute_stats_from_window w = Some st ->
  StronglySorted (fun a b : string * Z * Z => snd (fst b) <= snd (fst a)) (items st)
  /\ forall q,
       map (fun e : string * Z * Z => fst (fst e))
         (filter (fun e : string * Z * Z => snd (fst e) = q) (items st))
       = filter (fun name =>
                   quantity_of (fun ev => String.eqb (item ev) name) (window w) = q)
           (first_seen [] (item_names (window w))).
Proof.
  intros Hc. pose proof (compute_stats_unfold w st Hc)
    as (first & rest & _ & _ & _ & _ & _ & _ & _ & _ & Hitems).
  split; [rewrite Hitems; apply sort_desc_sorted|].
  intros q. rewrite Hitems.
  rewrite (sort_desc_stable (fun x : string * Z * Z => snd (fst x)) q).
  rewrite <- collect_items_qty_keys.
  rewrite <- (filter_by_value _ q (collect_items_qty (window w))).
  - generalize (collect_items_qty (window w)). intros d.
    induction d as [|[n v] d IH]; [reflexivity|].
    cbn [map]. destruct (decide (v = q)) as [Heq|Hne].
    + rewrite (filter_cons_True (fun e : string * Z * Z => snd (fst e) = q)) by exact Heq.
      rewrite (filter_cons_True (fun e : string * Z => snd e = q)) by exact Heq.
      cbn [map]. by f_equal.
    + rewrite (filter_cons_False (fun e : string * Z * Z => snd (fst e) = q)) by exact Hne.
      rewrite (filter_cons_False (fun e : string * Z => snd e = q)) by exact Hne.
      exact IH.
  - intros n v Hin.
    assert (Hin' : (n, v, py_round (fdiv (float_of_int v) (hours st))) ∈ items st).
    { apply (elem_of_items w st _ _ _ Hc). split; [|reflexivity].
      apply odict_get_nodup; [apply collect_items_qty_nodup|exact Hin]. }
    by apply (items_quantity w st _ _ _ Hc) in Hin' as (_ & _ & ->).
Qed.

Lemma compute_items_order_witness :
  exists st,
    compute_stats_from_window (mkWorker 60 None false sample_pass_window) = Some st
    /\ StronglySorted (fun a b : string * Z * Z => snd (fst b) <= snd (fst a)) (items st).
Proof.
  destruct (compute_stats_from_window (mkWorker 60 None false sample_pass_window))
    as [st|] eqn:Hc; [|vm_compute in Hc; discriminate].
  exists st. split; [reflexivity|].
  exact (proj1 (compute_items_order _ st Hc)).
Defined.

(** [round] is within a half of its argument *)
(** X7. The elapsed time of the statistics is the time between the first and
    the last event of the window, but at least one second; the hours and
    the minutes are positive floats, the elapsed time divided by 3600 and by
    60 with a relative error of at most [2^-53]; and every rate published is
    an integer within one half, plus the rounding of the float division, of
    the quotient of the quantity by the hours or the minutes.  A quantity of
    fewer than 54 bits is converted to a float without error. *)
Theorem compute_rates_rounded (w : Worker) (st : Stats) :
  compute_stats_from_window w = Some st ->
  let e := max_1 (total_seconds (end_ st - start st)) in
  (1 <= e)%Q
  /\ (e = 1%Q \/ e = total_seconds (end_ st - start st))
  /\ hours st = fdiv e 3600 /\ minutes st = fdiv e 60
  /\ (0 < hours st)%Q /\ (0 < minutes st)%Q
  /\ (Qabs (hours st - e / 3600) <= e / 3600 * pow2 (-53))%Q
  /\ (Qabs (minutes st - e / 60) <= e / 60 * pow2 (-53))%Q
  /\ near_rate (yang_per_hour st) (float_of_int (total_yang st)) (hours st)
  /\ near_rate (yang_per_minute st) (float_of_int (total_yang st)) (minutes st)
  /\ (forall name qty ph,
        (name, qty, ph) ∈ items st -> near_rate ph (float_of_int qty) (hours st))
  /\ forall z, Z.abs z < 2 ^ 53 -> float_of_int z = inject_Z z.
Proof.
  intros Hc e. pose proof (compute_stats_unfold w st Hc)
    as (first & rest & _ & _ & _ & _ & Hh & Hm & Hyh & Hym & _).
  fold e in Hh, Hm.
  assert (He1 : (1 <= e)%Q) by apply max_1_ge.
  assert (Hrel : forall c : Q, (0 < c)%Q -> (c <= 4096)%Q ->
            (Qabs (fdiv e c - e / c) <= e / c * pow2 (-53))%Q).
  { intros c Hc0 Hc1. unfold fdiv.
    assert (Hpos : (pow2 (-1022) <= e / c)%Q).
    { apply Qle_trans with (pow2 (-12)); [apply pow2_le; lia|].
      change (pow2 (-12)) with (1 # 4096)%Q.
      apply Qle_shift_div_l; [exact Hc0|]. lra. }
    pose proof (pow2_pos (-1022)) as Hp.
    pose proof (fl_rel_error_normal (e / c)) as Herr.
    rewrite Qabs_pos in Herr by lra.
    apply Herr. exact Hpos. }
  split; [exact He1|]. split.
  { unfold e, max_1. destruct (Qle_bool 1 _); [by right|by left]. }
  split; [exact Hh|]. split; [exact Hm|].
  split; [rewrite Hh; apply max_1_hours_pos|].
  split; [rewrite Hm; apply max_1_minutes_pos|].
  split; [rewrite Hh; apply Hrel; [reflexivity|discriminate]|].
  split; [rewrite Hm; apply Hrel; [reflexivity|discriminate]|].
  split; [rewrite Hyh; apply near_rate_round|].
  split; [rewrite Hym; apply near_rate_round|].
  split; [|exact float_of_int_exact].
  intros name qty ph Hin.
  apply (elem_of_items w st _ _ _ Hc) in Hin as [_ ->]. apply near_rate_round.
Qed.

Lemma compute_rates_rounded_witness :
  exists st,
    compute_stats_from_window (mkWorker 60 None false sample_shard_window) = Some st
    /\ (0 < hours st)%Q
    /\ near_rate 1029 (float_of_int 2) (hours st).
Proof.
  destruct (compute_stats_from_window (mkWorker 60 None false sample_shard_window))
    as [st|] eqn:Hc; [|vm_compute in Hc; discriminate].
  destruct (compute_rates_rounded _ st Hc)
    as (_ & _ & _ & _ & Hpos & _ & _ & _ & _ & _ & Hitems & _).
  exists st. split; [reflexivity|]. split; [exact Hpos|].
  apply (Hitems "Shard" 2 1029).
  vm_compute in Hc. injection Hc as <-. apply list_elem_of_here.
Defined.

(** ** Reading a whole file *)

(** X8. Feeding the lines of a file to the worker one by one comes to adding,
    in order, the events [iter_events_from_file] yields for them: the same
    window in every mode, and the same exception when a line carries a date
    that does not exist. *)
Theorem run_lines_adds_file_events (w : Worker) (lines : list string) :
  run_lines w lines =
  bind (iter_events_from_file lines) (fun evs => Ok (fold_left add_event evs w)).
Proof.
  revert w. induction lines as [|line rest IH]; intros w; [reflexivity|].
  cbn [run_lines iter_events_from_file]. unfold run_line.
  destruct (parse_log_line line) as [[ev|]|e|]; cbn [bind]; try reflexivity.
  - rewrite IH. by destruct (iter_events_from_file rest).
  - rewrite IH. by destruct (iter_events_from_file rest).
Qed.

(** X9. The events read from a file are those of its lines that parse, in
    the order of the lines and line by line: the iteration returns exactly
    when every line parses without exception, to an event or to [None], and
    the events returned are then the events of the lines, one for each line
    that gave an event, none for a line that gave [None]. *)
Theorem iter_events_from_lines (lines : list string) (evs : list LootEvent) :
  iter_events_from_file lines = Ok evs <->
  exists rs : list (option LootEvent),
    Forall2 (fun line r => parse_log_line line = Ok r) lines rs
    /\ evs = omap id rs.
Proof.
  split.
  - revert evs. induction lines as [|line rest IH]; intros evs H.
    + injection H as <-. exists []. split; [constructor|reflexivity].
    + cbn [iter_events_from_file] in H.
      destruct (parse_log_line line) as [r|e|] eqn:Hp; cbn [bind] in H; try discriminate.
      destruct (iter_events_from_file rest) as [evs'|e|]; cbn [bind] in H;
        try discriminate.
      destruct (IH evs' eq_refl) as (rs & Hall & ->).
      injection H as <-. exists (r :: rs). split; [by constructor|].
      by destruct r.
  - intros (rs & Hall & ->). induction Hall as [|line r rest rs Hp Hall IH].
    + reflexivity.
    + cbn [iter_events_from_file]. rewrite Hp, IH. cbn [bind]. by destruct r.
Qed.

Lemma iter_events_from_lines_witness :
  exists rs,
    Forall2 (fun line r => parse_log_line line = Ok r)
      ["[24/11/25] [00:29:29]: You receive 5 Yang.";
       "[24/11/25] [00:29:29]: Hello there.";
       "[24/11/25] [00:29:29]: You receive 5 Yang."] rs
    /\ [mkLootEvent 63899540969000000 5 "Yang"; mkLootEvent 63899540969000000 5 "Yang"]
       = omap id rs.
Proof.
  apply (proj1 (iter_events_from_lines
                  ["[24/11/25] [00:29:29]: You receive 5 Yang.";
                   "[24/11/25] [00:29:29]: Hello there.";
                   "[24/11/25] [00:29:29]: You receive 5 Yang."]
                  [mkLootEvent 63899540969000000 5 "Yang";
                   mkLootEvent 63899540969000000 5 "Yang"])).
  vm_compute. reflexivity.
Defined.

Lemma sort_desc_fmap {A B : Type} (g : A -> B) (keyA : A -> Z) (keyB : B -> Z) l :
  (forall x, keyA x = keyB (g x)) ->
  map g (sort_desc keyA l) = sort_desc keyB (map g l).
Proof.
  intros Hk. induction l as [|x l IH]; [reflexivity|].
  cbn [sort_desc fold_right map]. fold (sort_desc keyA l). fold (sort_desc keyB (map g l)).
  rewrite <- IH. generalize (sort_desc keyA l). intros s.
  induction s as [|y s IHs]; [reflexivity|].
  simpl. rewrite <- !Hk. destruct (keyA x <? keyA y); simpl; [by rewrite IHs|reflexivity].
Qed.

(** X10. [stats_from_events] returns zeros, and neither start nor end, for no
    events; otherwise its totals are sums over the events (Yang in
    [total_yang], every other name in [items_qty], in the order first seen),
    and they are the totals, the bounds and the hours that
    [compute_stats_from_window] reports for a window of the same events. *)
Theorem stats_from_events_sums :
  stats_from_events [] = mkEventStats 0 [] 0%Q None None
  /\ forall (first : LootEvent) (rest : list LootEvent),
       let events := first :: rest in
       let es := stats_from_events events in
       es_total_yang es = quantity_of is_yang events
       /\ map fst (es_items_qty es) = first_seen [] (item_names events)
       /\ (forall name,
             odict_get name (es_items_qty es) =
             if bool_decide (name ∈ item_names events)
             then Some (quantity_of
                          (fun ev => negb (is_yang ev) && String.eqb (item ev) name) events)
             else None)
       /\ es_total_yang es + Zsum (map snd (es_items_qty es))
          = Zsum (map quantity events)
       /\ forall window_mins fixed unl,
            exists st,
              compute_stats_from_window (mkWorker window_mins fixed unl events) = Some st
              /\ total_yang st = es_total_yang es
              /\ hours st = es_hours es
              /\ es_start es = Some (start st)
              /\ es_end es = Some (end_ st)
              /\ map fst (items st)
                 = sort_desc snd (es_items_qty es).
Proof.
  split; [reflexivity|]. intros first rest events es.
  split; [apply sum_yang_quantity|].
  split; [apply collect_items_qty_keys|].
  split; [intros name; apply collect_items_qty_get|].
  split.
  { unfold es. cbn [stats_from_events es_total_yang es_items_qty events].
    rewrite sum_yang_quantity, collect_items_qty_sum. apply quantity_split. }
  intros window_mins fixed unl. eexists. split; [reflexivity|].
  cbn [total_yang hours start end_ items window].
  split; [reflexivity|]. split; [reflexivity|]. split; [reflexivity|].
  split; [reflexivity|].
  change (es_items_qty es) with (collect_items_qty (first :: rest)).
  rewrite (sort_desc_fmap fst (fun x : string * Z * Z => snd (fst x)) snd)
    by reflexivity.
  f_equal. rewrite <- list_fmap_compose.
  etransitivity; [|apply list_fmap_id].
  apply list_fmap_ext. by intros i [n q] _.
Qed.

(** ** More on the parser *)

Lemma sapp_split (a : string) : forall line rest suf,
  a +:+ rest = line +:+ suf ->
  (exists k, line = a +:+ k /\ rest = k +:+ suf)
  \/ (exists k, k <> "" /\ a = line +:+ k /\ suf = k +:+ rest).
Proof.
  induction a as [|c a IH]; intros line rest suf Heq.
  - left. exists line. by rewrite !sapp_nil_l in *.
  - destruct line as [|b line].
    + right. exists (String c a). rewrite !sapp_nil_l in *. done.
    + rewrite !sapp_cons in Heq. injection Heq as -> Heq.
      destruct (IH _ _ _ Heq) as [(k & -> & ->)|(k & Hk & -> & ->)].
      * left. exists k. by rewrite sapp_cons.
      * right. exists k. by rewrite sapp_cons.
Qed.

Lemma sapp_last_char (line : string) : forall x c k,
  x +:+ String c "" = line +:+ k -> k <> "" -> exists k', k = k' +:+ String c "".
Proof.
  induction line as [|b line IH]; intros x c k Heq Hk.
  - rewrite sapp_nil_l in Heq. by exists x.
  - destruct x as [|a x].
    + rewrite sapp_nil_l, sapp_cons in Heq. injection Heq as _ Heq.
      destruct line; [|discriminate]. rewrite sapp_nil_l in Heq. by subst.
    + rewrite !sapp_cons in Heq. injection Heq as _ Heq. by apply (IH x).
Qed.

Lemma loot_line_period d t q name rest :
  loot_line d t q name rest
  = ("[" +:+ d +:+ "] [" +:+ t +:+ "]: You receive " +:+ q +:+ " " +:+ name)
      +:+ "." +:+ rest.
Proof. unfold loot_line. by rewrite !sapp_assoc. Qed.

(** An occurrence of the shape in [line] followed by text without period is
    an occurrence in [line] *)
Lemma occurs_at_suffix line suf pre d t q name rest :
  no_period suf ->
  occurs_at (line +:+ suf) pre d t q name rest <->
  exists rest', rest = rest' +:+ suf /\ occurs_at line pre d t q name rest'.
Proof.
  intros Hsuf. split.
  - intros (Heq & Hd & Ht & Hq & Hn).
    rewrite loot_line_period, <- !sapp_assoc in Heq.
    symmetry in Heq. apply sapp_split in Heq
      as [(k & Hline & Hrest)|(k & Hk & Ha & Hs)].
    + exists k. split; [exact Hrest|]. split; [|done].
      rewrite Hline, loot_line_period, <- !sapp_assoc. reflexivity.
    + exfalso. apply sapp_last_char in Ha as [k' ->]; [|exact Hk].
      unfold no_period in Hsuf. rewrite Hs, !string_forall_app in Hsuf.
      simpl in Hsuf. rewrite !andb_false_r in Hsuf. discriminate.
  - intros (rest' & -> & Heq & Hd & Ht & Hq & Hn). split; [|done].
    rewrite Heq. unfold loot_line. by rewrite !sapp_assoc.
Qed.

Lemma re_search_suffix line suf :
  no_period suf ->
  re_search LOG_LINE_RE (line +:+ suf) = re_search LOG_LINE_RE line.
Proof.
  intros Hsuf. destruct (re_search LOG_LINE_RE line) as [caps|] eqn:Hs.
  - apply search_Some_leftmost in Hs
      as (pre & d & t & q & name & rest & [Hocc Hleft] & ->).
    apply search_Some_leftmost. exists pre, d, t, q, name, (rest +:+ suf).
    split; [|reflexivity]. split.
    + apply occurs_at_suffix; [exact Hsuf|]. by exists rest.
    + intros pre' d' t' q' name' rest' Hocc'.
      apply occurs_at_suffix in Hocc' as (r' & _ & Hocc'); [|exact Hsuf].
      by apply Hleft in Hocc'.
  - apply search_None_no_shape. intros pre d t q name rest Hocc.
    apply occurs_at_suffix in Hocc as (r' & _ & Hocc); [|exact Hsuf].
    revert Hocc. by apply search_None_no_shape.
Qed.

(** X11. Text without a period at the end of a line, such as the newline that
    [readline] leaves there, changes nothing to what [parse_log_line]
    returns or raises. *)
Theorem parse_ignores_suffix_without_period (line suf : string) :
  no_period suf -> parse_log_line (line +:+ suf) = parse_log_line line.
Proof.
  intros Hsuf. unfold parse_log_line. by rewrite re_search_suffix.
Qed.

Lemma parse_ignores_suffix_without_period_witness :
  parse_log_line ("[24/11/25] [00:29:29]: You receive 5 Yang." +:+ String newline "")
  = parse_log_line "[24/11/25] [00:29:29]: You receive 5 Yang.".
Proof.
  apply parse_ignores_suffix_without_period. reflexivity.
Defined.

Lemma days_before_year_bounds y :
  1969 <= y <= 2068 ->
  718797 <= days_before_year y
  /\ days_before_year y + 365 + (if is_leap y then 1 else 0) <= 755322.
Proof.
  intros Hy. destruct (decide (y = 2068)) as [->|Hne].
  - vm_compute. split; discriminate.
  - assert (Hleap : (if is_leap y then 1 else 0) <= 1) by (destruct (is_leap y); lia).
    revert Hleap. generalize (if is_leap y then 1 else 0). intros l Hl.
    unfold days_before_year. cbv zeta.
    Z.div_mod_to_equations. lia.
Qed.

Lemma day_of_year_bound y m d :
  1 <= m <= 12 -> 1 <= d <= days_in_month y m ->
  1 <= days_before_month y m + d <= 365 + (if is_leap y then 1 else 0).
Proof.
  intros Hm Hd.
  assert (Hcases : m = 1 \/ m = 2 \/ m = 3 \/ m = 4 \/ m = 5 \/ m = 6 \/ m = 7
                   \/ m = 8 \/ m = 9 \/ m = 10 \/ m = 11 \/ m = 12) by lia.
  revert Hd. unfold days_before_month.
  repeat (destruct Hcases as [->|Hcases]); try subst m;
    match goal with |- context [Z.to_nat ?e] =>
      let n := eval vm_compute in (Z.to_nat e) in change (Z.to_nat e) with n end;
    cbn [days_before_month_aux]; unfold days_in_month; simpl;
    destruct (is_leap y); simpl; lia.
Qed.

Lemma mk_datetime_range y m d hh mm ss t :
  mk_datetime y m d hh mm ss = Ok t ->
  1969 <= y <= 2068 ->
  t mod US_PER_SECOND = 0
  /\ 62104060800 * US_PER_SECOND <= t < 65259820800 * US_PER_SECOND.
Proof.
  unfold mk_datetime. intros H Hy.
  destruct (_ && _) eqn:Hc in H; [|discriminate]. injection H as <-.
  rewrite !andb_true_iff in Hc. rewrite !Z.leb_le in Hc.
  destruct Hc as (((((((((? & ?) & ?) & ?) & ?) & ?) & ?) & ?) & ?) & ?).
  split; [apply Z.mod_mul; unfold US_PER_SECOND; lia|].
  pose proof (days_before_year_bounds y Hy) as [Hlo Hhi].
  pose proof (day_of_year_bound y m d ltac:(lia) ltac:(lia)) as Hdoy.
  unfold US_PER_SECOND. lia.
Qed.

Lemma three_fields_range sep s a b c :
  three_fields sep s = Some (a, b, c) ->
  0 <= a <= 99 /\ 0 <= b <= 99 /\ 0 <= c <= 99.
Proof.
  intros H. assert (Hs : is_Some (three_fields sep s)) by eauto.
  apply three_fields_inv in Hs
    as (a1 & a2 & b1 & b2 & c1 & c2 & -> & Ha1 & Ha2 & Hb1 & Hb2 & Hc1 & Hc2).
  unfold three_fields in H.
  rewrite Ha1, Ha2, Hb1, Hb2, Hc1, Hc2, !Ascii.eqb_refl in H. simpl in H.
  injection H as <- <- <-.
  assert (Hdig : forall x, is_digit x = true -> 0 <= digit_val x <= 9).
  { intros x Hx. unfold is_digit in Hx. apply andb_true_iff in Hx as [H1 H2].
    apply Nat.leb_le in H1, H2. unfold digit_val. lia. }
  pose proof (Hdig _ Ha1). pose proof (Hdig _ Ha2). pose proof (Hdig _ Hb1).
  pose proof (Hdig _ Hb2). pose proof (Hdig _ Hc1). pose proof (Hdig _ Hc2). lia.
Qed.

Lemma parse_datetime_range date_str time_str t :
  parse_datetime_from_log date_str time_str = Ok t ->
  t mod US_PER_SECOND = 0
  /\ 62104060800 * US_PER_SECOND <= t < 65259820800 * US_PER_SECOND.
Proof.
  unfold parse_datetime_from_log.
  destruct (three_fields "/" date_str) as [[[d m] yy]|] eqn:Hd; [|discriminate].
  destruct (three_fields ":" time_str) as [[[hh mm] ss]|]; [|discriminate].
  intros H. apply mk_datetime_range in H; [exact H|].
  apply three_fields_range in Hd as (_ & _ & Hyy).
  destruct (Z.leb_spec yy 68); lia.
Qed.

(** X12. An event returned by [parse_log_line] has a quantity that is not
    negative, an item name that is not empty, holds no newline and no period
    after its first character, and a timestamp of whole seconds between the
    start of 1969 and the end of 2068. *)
Theorem parsed_event_well_formed (line : string) (ev : LootEvent) :
  parse_log_line line = Ok (Some ev) ->
  0 <= quantity ev
  /\ name_shape (item ev)
  /\ ts ev mod US_PER_SECOND = 0
  /\ 62104060800 * US_PER_SECOND <= ts ev < 65259820800 * US_PER_SECOND.
Proof.
  intros H. split; [by apply (parsed_quantity_nonneg line)|].
  apply (proj2 (parse_log_line_facts line)) in H
    as (pre & d & t & q & name & rest & [(_ & _ & _ & _ & Hn) _] & Hts & _ & ->).
  split; [exact Hn|]. by apply (parse_datetime_range d t).
Qed.

Lemma parsed_event_well_formed_witness :
  0 <= quantity (mkLootEvent 63899540969000000 5 "Yang")
  /\ name_shape (item (mkLootEvent 63899540969000000 5 "Yang")).
Proof.
  pose proof (parsed_event_well_formed
                "[24/11/25] [00:29:29]: You receive 5 Yang."
                (mkLootEvent 63899540969000000 5 "Yang")
                ltac:(vm_compute; reflexivity)) as (H1 & H2 & _).
  exact (conj H1 H2).
Defined.

(** ** What the operations keep *)

Lemma observe_pass_grows costs ps entry name s :
  ps !! name = Some s ->
  exists s',
    observe_pass costs ps entry !! name = Some s'
    /\ total s <= total s' /\ dropped s' = dropped s
    /\ crafted s' - crafted s = total s' - total s.
Proof.
  destruct entry as [n q]. intros Hs.
  destruct (decide (n = name)) as [->|Hne].
  - unfold observe_pass. destruct (costs !! name).
    + rewrite Hs. destruct (Z.ltb_spec 0 (q - total s)).
      * rewrite lookup_insert_eq. eexists. split; [reflexivity|]. simpl. lia.
      * exists s. split; [exact Hs|lia].
    + exists s. split; [exact Hs|lia].
  - rewrite observe_pass_other by done. exists s. split; [exact Hs|lia].
Qed.

Lemma observe_passes_grows costs bi : forall ps name s,
  ps !! name = Some s ->
  exists s',
    observe_passes costs bi ps !! name = Some s'
    /\ total s <= total s' /\ dropped s' = dropped s
    /\ crafted s' - crafted s = total s' - total s.
Proof.
  unfold observe_passes.
  induction bi as [|e bi IH]; intros ps name s Hs; simpl.
  - exists s. split; [exact Hs|lia].
  - destruct (observe_pass_grows costs ps e name s Hs) as (s1 & H1 & Ha & Hb & Hc).
    destruct (IH _ _ _ H1) as (s2 & H2 & Ha' & Hb' & Hc').
    exists s2. split; [exact H2|lia].
Qed.

(** X13. A snapshot never lowers what is known of a tracked pass: its total and
    its crafted count grow by the same amount, possibly zero, and its
    dropped count stays, also when the pass is no longer in the window or its
    quantity there went down. *)
Theorem snapshot_never_lowers (app : App) (st : Stats) (name : string) (s : PassState) :
  pass_states app !! name = Some s ->
  exists app' s',
    update_stats app (SnapStats st) = Ok app'
    /\ pass_states app' !! name = Some s'
    /\ total s <= total s'
    /\ crafted s' - crafted s = total s' - total s
    /\ dropped s' = dropped s.
Proof.
  intros Hs. destruct (update_stats_fields app st)
    as (app' & Hu & _ & _ & _ & _ & _ & _ & _ & Hps & _).
  destruct (observe_passes_grows (pass_costs app) (base_items_of (items st)) _ _ _ Hs)
    as (s' & Hs' & Ha & Hb & Hc).
  exists app', s'. rewrite Hps. auto.
Qed.

Lemma snapshot_never_lowers_witness :
  exists app' s',
    update_stats sample_tracking_app (SnapStats (sample_stats 2)) = Ok app'
    /\ pass_states app' !! "Hellish Pass" = Some s'
    /\ 5 <= total s'.
Proof.
  destruct (snapshot_never_lowers sample_tracking_app (sample_stats 2) "Hellish Pass"
              (mkPassState 5 5 0) ltac:(vm_compute; reflexivity))
    as (app' & s' & Hu & Hs & Ht & _).
  exists app', s'. auto.
Defined.

Lemma observe_pass_dom costs ps entry name :
  is_Some (observe_pass costs ps entry !! name) ->
  is_Some (ps !! name) \/ (is_Some (costs !! name) /\ name = fst entry).
Proof.
  destruct entry as [n q]. destruct (decide (n = name)) as [->|Hne].
  - unfold observe_pass. destruct (costs !! name) eqn:Hc; [|by left].
    intros _. right. split; [eauto|reflexivity].
  - rewrite observe_pass_other by done. by left.
Qed.

Lemma observe_passes_dom costs bi : forall ps name,
  is_Some (observe_passes costs bi ps !! name) ->
  is_Some (ps !! name) \/ (is_Some (costs !! name) /\ name ∈ map fst bi).
Proof.
  unfold observe_passes.
  induction bi as [|e bi IH]; intros ps name Hs; simpl in *; [by left|].
  apply IH in Hs as [Hs|[Hc Hin]].
  - apply observe_pass_dom in Hs as [Hs|[Hc ->]]; [by left|].
    right. split; [exact Hc|apply list_elem_of_here].
  - right. split; [exact Hc|by apply list_elem_of_further].
Qed.

Lemma covers_fixed costs bi : forall ps,
  covers costs ps bi -> observe_passes costs bi ps = ps.
Proof.
  unfold observe_passes.
  induction bi as [|[n q] bi IH]; intros ps Hcov; cbn [fold_left]; [reflexivity|].
  assert (H1 : observe_pass costs ps (n, q) = ps).
  { unfold observe_pass. destruct (costs !! n) eqn:Hc; [|reflexivity].
    destruct (Hcov n q (list_elem_of_here _ _)) as (s & -> & Hq); [eauto|].
    destruct (Z.ltb_spec 0 (q - total s)); [lia|reflexivity]. }
  rewrite H1. apply IH. intros name q' Hin. apply Hcov. by apply list_elem_of_further.
Qed.

Lemma observe_passes_covers costs bi : forall ps,
  covers costs (observe_passes costs bi ps) bi.
Proof.
  induction bi as [|[n q] bi IH]; intros ps name q' Hin Hc.
  - by apply elem_of_nil in Hin.
  - change (observe_passes costs ((n, q) :: bi) ps)
      with (observe_passes costs bi (observe_pass costs ps (n, q))).
    apply elem_of_cons in Hin as [[= -> ->]|Hin]; [|by apply IH].
    destruct Hc as [c Hc].
    assert (H1 : exists s, observe_pass costs ps (n, q) !! n = Some s /\ q <= total s).
    { unfold observe_pass. rewrite Hc. destruct (ps !! n) as [s|] eqn:Hs.
      - destruct (Z.ltb_spec 0 (q - total s)).
        + rewrite lookup_insert_eq. eexists. split; [reflexivity|]. simpl. lia.
        + exists s. split; [exact Hs|lia].
      - rewrite lookup_insert_eq. eexists. split; [reflexivity|]. simpl. lia. }
    destruct H1 as (s & Hs & Hq).
    destruct (observe_passes_grows costs bi _ _ _ Hs) as (s' & Hs' & Ha & _).
    exists s'. split; [exact Hs'|lia].
Qed.

Lemma covers_insert costs ps bi name s s' :
  covers costs ps bi -> ps !! name = Some s -> total s' = total s ->
  covers costs (<[name := s']> ps) bi.
Proof.
  intros Hcov Hs Ht n q Hin Hc. destruct (Hcov n q Hin Hc) as (s0 & Hs0 & Hq).
  destruct (decide (name = n)) as [->|Hne].
  - rewrite lookup_insert_eq. exists s'. split; [reflexivity|].
    rewrite Hs in Hs0. injection Hs0 as <-. lia.
  - rewrite lookup_insert_ne by done. eauto.
Qed.

(** What a step is: nothing, a snapshot or an error, a new state of the
    same total for a tracked pass followed by the recalculation and the
    snapshot kept, or a reset *)
Lemma step_cases app op app' :
  step app op = Ok app' ->
  app' = app
  \/ (exists st, op = OpTick st /\ update_stats app (SnapStats st) = Ok app')
  \/ (exists msg, op = OpError msg /\ update_stats app (SnapError msg) = Ok app')
  \/ (exists name s s' snap,
        pass_states app !! name = Some s /\ total s' = total s
        /\ last_stats app = Some snap
        /\ update_stats
             (recalc_crafting_deltas_from_passes
                (set_pass_states app (<[name := s']> (pass_states app)))) snap
           = Ok app'
        /\ (reconciled op name s = Some s'
            \/ (op = OpIncrementDropped /\ get_last_seen_pass app = Some name
                /\ name <> "" /\ 0 < crafted s
                /\ s' = mkPassState (total s) (crafted s - 1) (dropped s + 1))))
  \/ (op = OpReset /\ app' = reset_session_data app).
Proof.
  assert (Hrefresh : forall X, refresh X = Ok app' ->
            exists snap, last_stats X = Some snap /\ update_stats X snap = Ok app').
  { intros X. unfold refresh. destruct (last_stats X) as [snap|]; [eauto|discriminate]. }
  destruct op as [st|msg|name d|name|name| |]; cbn [step].
  - intros Hstep. right. left. eauto.
  - intros Hstep. right. right. left. eauto.
  - unfold open_pass_count_editor_apply.
    destruct (pass_states app !! name) as [s|] eqn:Hs; [|intros [= <-]; by left].
    destruct (Z.ltb_spec d 0); [intros [= <-]; by left|].
    destruct (Z.ltb_spec (total s) d); [intros [= <-]; by left|]. cbn [orb].
    intros Hstep. apply Hrefresh in Hstep as (snap & Hl & Hu).
    right. right. right. left. exists name, s, (mkPassState (total s) (total s - d) d), snap.
    split; [exact Hs|]. split; [reflexivity|]. split; [exact Hl|].
    split; [exact Hu|]. left. simpl. rewrite String.eqb_refl. simpl.
    destruct (Z.leb_spec 0 d); [|lia]. destruct (Z.leb_spec d (total s)); [|lia].
    reflexivity.
  - unfold set_pass_all_crafted.
    destruct (pass_states app !! name) as [s|] eqn:Hs; [|intros [= <-]; by left].
    intros Hstep. apply Hrefresh in Hstep as (snap & Hl & Hu).
    right. right. right. left. exists name, s, (mkPassState (total s) (total s) 0), snap.
    split; [exact Hs|]. split; [reflexivity|]. split; [exact Hl|].
    split; [exact Hu|]. left. simpl. by rewrite String.eqb_refl.
  - unfold set_pass_all_dropped.
    destruct (pass_states app !! name) as [s|] eqn:Hs; [|intros [= <-]; by left].
    intros Hstep. apply Hrefresh in Hstep as (snap & Hl & Hu).
    right. right. right. left. exists name, s, (mkPassState (total s) 0 (total s)), snap.
    split; [exact Hs|]. split; [reflexivity|]. split; [exact Hl|].
    split; [exact Hu|]. left. simpl. by rewrite String.eqb_refl.
  - unfold increment_last_pass_dropped.
    destruct (get_last_seen_pass app) as [name|] eqn:Hg; [|intros [= <-]; by left].
    destruct (String.eqb_spec name ""); [intros [= <-]; by left|].
    destruct (pass_states app !! name) as [s|] eqn:Hs; [|intros [= <-]; by left].
    destruct (Z.leb_spec (crafted s) 0); [intros [= <-]; by left|].
    intros Hstep. apply Hrefresh in Hstep as (snap & Hl & Hu).
    right. right. right. left. exists name, s, (mkPassState (total s) (crafted s - 1) (dropped s + 1)), snap.
    split; [exact Hs|]. split; [reflexivity|]. split; [exact Hl|].
    split; [exact Hu|]. right. auto.
  - intros [= <-]. right. right. right. right. auto.
Qed.

Lemma reach_inv_init : reach_inv init_app.
Proof.
  split; [reflexivity|]. split.
  - intros name Hs. simpl in Hs. rewrite lookup_empty in Hs. by destruct Hs.
  - split; [reflexivity|]. split; [by left|done].
Qed.

Lemma reach_inv_tick app st app' :
  pass_costs app = PASS_COSTS ->
  (forall name, is_Some (pass_states app !! name) -> is_Some (PASS_COSTS !! name)) ->
  pass_applied app = ∅ ->
  update_stats app (SnapStats st) = Ok app' ->
  reach_inv app'.
Proof.
  intros Hc Hk Hpa Hu.
  destruct (update_stats_fields app st)
    as (a & Hu' & Hc' & Hpa' & Hl & _ & _ & _ & _ & Hps & Hy & _ & Hn & _).
  rewrite Hu' in Hu. injection Hu as ->.
  split; [congruence|]. split.
  { intros name Hs. rewrite Hps in Hs. apply observe_passes_dom in Hs as [Hs|[Hs _]].
    - by apply Hk.
    - by rewrite <- Hc. }
  split; [congruence|]. rewrite Hl. split.
  - right. rewrite Hps, Hc'. apply observe_passes_covers.
  - intros _. by rewrite Hn, Hy.
Qed.

Lemma reach_inv_step app op app' :
  reach_inv app -> step app op = Ok app' -> reach_inv app'.
Proof.
  intros Hinv Hstep. pose proof Hinv as (Hc & Hk & Hpa & Hcov & Hnet).
  apply step_cases in Hstep
    as [->|[(st & -> & Hu)|[(msg & -> & Hu)|[(name & s & s' & snap & Hs & Ht & Hl & Hu & _)
       |[-> ->]]]]].
  - exact Hinv.
  - by apply (reach_inv_tick app st).
  - injection Hu as <-. split; [exact Hc|]. split; [exact Hk|]. split; [exact Hpa|].
    cbn [pass_states last_stats]. split; [|done].
    destruct Hcov as [He|_]; [by left|by right].
  - set (X := recalc_crafting_deltas_from_passes
                (set_pass_states app (<[name := s']> (pass_states app)))) in *.
    assert (HkX : forall n, is_Some (pass_states X !! n) -> is_Some (PASS_COSTS !! n)).
    { intros n Hn. apply Hk. unfold X in Hn. simpl in Hn.
      destruct (decide (name = n)) as [<-|Hne]; [by rewrite Hs|].
      by rewrite lookup_insert_ne in Hn. }
    destruct snap as [msg|st].
    + injection Hu as <-. split; [exact Hc|]. split; [exact HkX|].
      split; [exact Hpa|]. cbn [last_stats]. split; [by right|done].
    + by apply (reach_inv_tick X st).
  - split; [exact Hc|]. split.
    { intros n Hn. simpl in Hn. rewrite lookup_empty in Hn. by destruct Hn. }
    split; [reflexivity|]. split; [by left|].
    cbn [last_stats reset_session_data pass_states].
    destruct (last_stats app) as [[?|?]|]; done.
Qed.

Lemma reach_inv_run ops : forall app app',
  reach_inv app -> run_ops app ops = Ok app' -> reach_inv app'.
Proof.
  induction ops as [|op ops IH]; intros app app' Hinv Hrun; simpl in Hrun.
  - by injection Hrun as <-.
  - destruct (step app op) as [a| |] eqn:Hstep; simpl in Hrun; try discriminate.
    apply (IH a); [|exact Hrun]. by apply (reach_inv_step app op).
Qed.

(** X14. After any sequence of operations only keys of [PASS_COSTS] have a pass
    state, never one of their fragments or any other item, and
    [pass_applied] is still empty: the incremental adjustment of
    [apply_pass_adjustment] has never been made. *)
Theorem only_passes_tracked (ops : list Op) (app : App) :
  run_ops init_app ops = Ok app ->
  (forall name, is_Some (pass_states app !! name) -> is_Some (PASS_COSTS !! name))
  /\ pass_states app !! "Shard" = None
  /\ pass_states app !! "Fragment of a Pass [U-1]" = None
  /\ pass_applied app = ∅.
Proof.
  intros Hrun. destruct (reach_inv_run ops _ _ reach_inv_init Hrun)
    as (_ & Hk & Hpa & _).
  split; [exact Hk|].
  assert (Hnot : forall name, PASS_COSTS !! name = None -> pass_states app !! name = None).
  { intros name Hn. destruct (pass_states app !! name) eqn:Hs; [|reflexivity].
    destruct (Hk name) as [c Hc]; [eauto|congruence]. }
  split; [by apply Hnot|]. split; [by apply Hnot|exact Hpa].
Qed.

Lemma only_passes_tracked_witness :
  exists app,
    run_ops init_app [OpTick (sample_stats 5); OpAllDropped "Hellish Pass"] = Ok app
    /\ pass_states app !! "Shard" = None.
Proof.
  destruct (run_ops init_app [OpTick (sample_stats 5); OpAllDropped "Hellish Pass"])
    as [app| |] eqn:Hrun; [|vm_compute in Hrun; discriminate..].
  exists app. split; [reflexivity|].
  exact (proj1 (proj2 (only_passes_tracked _ app Hrun))).
Defined.
(** ** Reconciliation on the states the application can be in *)



Lemma tracked_has_snapshot app name s :
  reach_inv app -> pass_states app !! name = Some s ->
  exists snap,
    last_stats app = Some snap
    /\ match snap with
       | SnapStats st =>
           covers (pass_costs app) (pass_states app) (base_items_of (items st))
           /\ net_yang app =
                total_yang st
                - total_crafting_currency_delta (pass_costs app) (pass_states app)
       | SnapError _ => True
       end.
Proof.
  intros (_ & _ & _ & Hcov & Hnet) Hs.
  assert (Hne : pass_states app <> ∅).
  { intros He. rewrite He, lookup_empty in Hs. discriminate. }
  destruct Hcov as [He|Hcov]; [done|].
  destruct (last_stats app) as [[msg|st]|]; [| |done].
  - exists (SnapError msg). by split.
  - exists (SnapStats st). split; [reflexivity|]. split; [exact Hcov|by apply Hnet].
Qed.








(** ** Snapshots delivered again, resets *)

Lemma row_of_ext a b entry :
  pass_costs a = pass_costs b ->
  pass_states a = pass_states b ->
  (forall it, get0 (crafting_item_delta a) it = get0 (crafting_item_delta b) it) ->
  base_item_rates a = base_item_rates b ->
  data_hours a = data_hours b ->
  row_of a entry = row_of b entry.
Proof.
  intros Hc Hp Hd Hr Hh. destruct entry as [name qty].
  unfold row_of, net_per_hour. by rewrite Hc, Hp, Hd, Hr, Hh.
Qed.

(** X18. The same snapshot delivered a second time changes no pass state, no
    net quantity and no row of the item table; only the net hourly rate
    moves, and after the second delivery it is the raw total less the
    current crafting delta over the elapsed hours, in line with the net
    currency shown. *)
Theorem repeated_snapshot_settles (app : App) (st : Stats) :
  exists app1 app2,
    update_stats app (SnapStats st) = Ok app1
    /\ update_stats app1 (SnapStats st) = Ok app2
    /\ pass_states app2 = pass_states app1
    /\ net_yang app2 = net_yang app1
    /\ yang_label app2 = yang_label app1
    /\ tree app2 = tree app1
    /\ net_yang_per_hour app2 =
         (let elapsed_hours := if Qpositive (hours st) then hours st else tiny in
          fsub (fdiv (float_of_int (total_yang st)) elapsed_hours)
            (fdiv (float_of_int (total_yang st - net_yang app2))
               elapsed_hours)).
Proof.
  destruct (update_stats_fields app st)
    as (app1 & Hu1 & Hc1 & _ & _ & Hb1 & Hbr1 & Hh1 & _ & Hps1 & Hy1 & Hd1 & Hn1
        & Hl1 & _ & Ht1).
  destruct (update_stats_fields app1 st)
    as (app2 & Hu2 & Hc2 & _ & _ & Hb2 & Hbr2 & Hh2 & _ & Hps2 & Hy2 & Hd2 & Hn2
        & Hl2 & Hr2 & Ht2).
  assert (Hps : pass_states app2 = pass_states app1).
  { rewrite Hps2. apply covers_fixed. rewrite Hps1, Hc1. apply observe_passes_covers. }
  assert (Hy : crafting_yang_delta app2 = crafting_yang_delta app1).
  { by rewrite Hy2, Hy1, Hc2, Hps. }
  exists app1, app2. split; [exact Hu1|]. split; [exact Hu2|]. split; [exact Hps|].
  split; [by rewrite Hn2, Hn1, Hy|]. split; [by rewrite Hl2, Hl1, Hy|]. split.
  - rewrite Ht2, Ht1, Hb2, Hb1. apply map_ext. intros entry. apply row_of_ext.
    + exact Hc2.
    + exact Hps.
    + intros it. by rewrite Hd2, Hd1, Hc2, Hps.
    + by rewrite Hbr2, Hbr1.
    + by rewrite Hh2, Hh1.
  - rewrite Hr2, Hn2, Hy. cbv zeta.
    replace (total_yang st - (total_yang st - crafting_yang_delta app1))
      with (crafting_yang_delta app1) by lia.
    reflexivity.
Qed.

Lemma run_ops_app ops1 : forall a0 ops2,
  run_ops a0 (ops1 ++ ops2) = bind (run_ops a0 ops1) (fun a => run_ops a ops2).
Proof.
  induction ops1 as [|op ops1 IH]; intros a0 ops2; [reflexivity|].
  simpl. destruct (step a0 op) as [a| |]; [|reflexivity..].
  simpl. apply IH.
Qed.

Lemma update_stats_reset app st :
  pass_costs app = PASS_COSTS ->
  update_stats (reset_session_data app) (SnapStats st)
  = update_stats init_app (SnapStats st).
Proof.
  intros Hc. unfold update_stats, reset_session_data. cbn [pass_costs pass_states
    pass_applied crafting_yang_delta crafting_item_delta net_yang net_yang_per_hour
    yang_label yang_per_hour_label tree init_app].
  rewrite Hc. reflexivity.
Qed.

(** X19. A reset followed by a snapshot erases the history: whatever was done
    before, the application is then in the state the same snapshot gives as
    the first event of a fresh start, so every later operation behaves the
    same too. *)
Theorem reset_forgets (ops : list Op) (app : App) (st : Stats) (rest : list Op) :
  run_ops init_app ops = Ok app ->
  run_ops init_app (ops ++ OpReset :: OpTick st :: rest)
  = run_ops init_app (OpTick st :: rest).
Proof.
  intros Hrun.
  pose proof (reach_inv_run ops _ _ reach_inv_init Hrun) as (Hc & _).
  rewrite run_ops_app, Hrun. cbn [bind run_ops step].
  by rewrite update_stats_reset.
Qed.

Lemma reset_forgets_witness :
  run_ops init_app
    ([OpTick (sample_stats 5); OpAllDropped "Hellish Pass"]
     ++ OpReset :: OpTick (sample_stats 8) :: [OpIncrementDropped])
  = run_ops init_app (OpTick (sample_stats 8) :: [OpIncrementDropped]).
Proof.
  destruct (run_ops init_app [OpTick (sample_stats 5); OpAllDropped "Hellish Pass"])
    as [app| |] eqn:Hrun; [|vm_compute in Hrun; discriminate..].
  exact (reset_forgets _ app (sample_stats 8) [OpIncrementDropped] Hrun).
Defined.
(** ** The pass of the increment button *)

Lemma find_rev_split {A : Type} (p : A -> bool) (l : list A) x :
  List.find p (rev l) = Some x ->
  exists l1 l2, l = l1 ++ x :: l2 /\ p x = true /\ Forall (fun y => p y = false) l2.
Proof.
  induction l as [|a l IH] using rev_ind; [discriminate|].
  rewrite rev_app_distr. cbn [rev List.app List.find].
  destruct (p a) eqn:Hp.
  - intros [= ->]. exists l, []. split; [reflexivity|]. split; [exact Hp|constructor].
  - intros Hf. destruct (IH Hf) as (l1 & l2 & -> & Hx & Hall).
    exists l1, (l2 ++ [a]). split; [by rewrite <- app_assoc|]. split; [exact Hx|].
    apply Forall_app. split; [exact Hall|]. by constructor.
Qed.

Lemma find_rev_none {A : Type} (p : A -> bool) (l : list A) :
  List.find p (rev l) = None -> Forall (fun y => p y = false) l.
Proof.
  intros Hf. apply Forall_forall. intros y Hy.
  apply (find_none p _ Hf). apply in_rev. rewrite rev_involutive.
  by apply list_elem_of_In.
Qed.

Lemma refresh_insert_states app name s s' :
  reach_inv app ->
  pass_states app !! name = Some s ->
  total s' = total s ->
  exists app',
    refresh (recalc_crafting_deltas_from_passes
               (set_pass_states app (<[name := s']> (pass_states app)))) = Ok app'
    /\ pass_states app' = <[name := s']> (pass_states app).
Proof.
  intros Hinv Hs Ht.
  destruct (tracked_has_snapshot app name s Hinv Hs) as (snap & Hl & Hsnap).
  unfold refresh.
  change (last_stats (recalc_crafting_deltas_from_passes
            (set_pass_states app (<[name := s']> (pass_states app)))))
    with (last_stats app).
  rewrite Hl. destruct snap as [msg|st].
  - eexists. split; reflexivity.
  - destruct Hsnap as [Hcov _].
    destruct (update_stats_fields
                (recalc_crafting_deltas_from_passes
                   (set_pass_states app (<[name := s']> (pass_states app)))) st)
      as (a & Hu & _ & _ & _ & _ & _ & _ & _ & Hps & _).
    exists a. split; [exact Hu|].
    rewrite Hps. apply covers_fixed. by apply (covers_insert _ _ _ name s s').
Qed.

(** X20. The increment button, on every state the application can reach: it
    returns; it acts on the last item, in the order of the snapshot, that has
    a pass state, and that item is a key of the cost table; if that pass has a
    crafted unit, exactly one unit moves from crafted to dropped and
    nothing else changes in the pass states; otherwise, and when no item of
    the snapshot has a pass state, the application is left as it is. *)
Theorem increment_last_pass_effect (ops : list Op) (app : App) :
  run_ops init_app ops = Ok app ->
  exists app',
    step app OpIncrementDropped = Ok app'
    /\ match get_last_seen_pass app with
       | None =>
           app' = app
           /\ forall name, name ∈ map fst (base_items app) ->
                pass_states app !! name = None
       | Some name =>
           exists l1 l2 s,
             map fst (base_items app) = l1 ++ name :: l2
             /\ (forall n, n ∈ l2 -> pass_states app !! n = None)
             /\ pass_states app !! name = Some s
             /\ is_Some (PASS_COSTS !! name)
             /\ if 0 <? crafted s
                then pass_states app' =
                       <[name := mkPassState (total s) (crafted s - 1) (dropped s + 1)]>
                         (pass_states app)
                else app' = app
       end.
Proof.
  intros Hrun.
  pose proof (reach_inv_run ops _ _ reach_inv_init Hrun) as Hinv.
  cbn [step]. unfold increment_last_pass_dropped.
  destruct (get_last_seen_pass app) as [name|] eqn:Hg.
  - unfold get_last_seen_pass in Hg.
    apply find_rev_split in Hg as (l1 & l2 & Hkeys & Hname & Hl2).
    apply bool_decide_eq_true_1 in Hname as [s Hs].
    pose proof Hinv as (_ & Hk & _).
    assert (Hcost : is_Some (PASS_COSTS !! name)) by (apply Hk; eauto).
    assert (Hne : String.eqb name "" = false).
    { destruct (String.eqb_spec name "") as [->|]; [|reflexivity].
      destruct Hcost as [c Hc]. vm_compute in Hc. discriminate. }
    rewrite Hne, Hs.
    assert (Hrest : forall n, n ∈ l2 -> pass_states app !! n = None).
    { intros n Hn. rewrite Forall_forall in Hl2. specialize (Hl2 n Hn).
      apply bool_decide_eq_false_1 in Hl2.
      destruct (pass_states app !! n); [exfalso; apply Hl2; eauto|reflexivity]. }
    destruct (Z.leb_spec (crafted s) 0) as [Hle|Hgt].
    + exists app. split; [reflexivity|]. exists l1, l2, s.
      destruct (Z.ltb_spec 0 (crafted s)); [lia|]. auto.
    + destruct (refresh_insert_states app name s
                  (mkPassState (total s) (crafted s - 1) (dropped s + 1)) Hinv Hs eq_refl)
        as (app' & Hr & Hps).
      exists app'. split; [exact Hr|]. exists l1, l2, s.
      destruct (Z.ltb_spec 0 (crafted s)); [|lia]. auto.
  - exists app. split; [reflexivity|]. split; [reflexivity|].
    intros name Hin. unfold get_last_seen_pass in Hg.
    apply find_rev_none in Hg. rewrite Forall_forall in Hg. specialize (Hg name Hin).
    apply bool_decide_eq_false_1 in Hg.
    destruct (pass_states app !! name); [exfalso; apply Hg; eauto|reflexivity].
Qed.

Lemma increment_last_pass_effect_witness :
  exists app app',
    run_ops init_app [OpTick (sample_stats 5)] = Ok app
    /\ step app OpIncrementDropped = Ok app'.
Proof.
  destruct (run_ops init_app [OpTick (sample_stats 5)]) as [app| |] eqn:Hrun;
    [|vm_compute in Hrun; discriminate..].
  destruct (increment_last_pass_effect [OpTick (sample_stats 5)] app Hrun)
    as (app' & Hstep & _).
  exists app, app'. auto.
Defined.

Lemma compute_stats_sorted w st :
  compute_stats_from_window w = Some st ->
  StronglySorted (fun a b : string * Z * Z => snd (fst b) <= snd (fst a)) (items st).
Proof.
  intros Hc. pose proof (compute_stats_unfold w st Hc)
    as (first & rest & _ & _ & _ & _ & _ & _ & _ & _ & Hitems).
  rewrite Hitems. apply sort_desc_sorted.
Qed.

(** X21. Which pass the increment button means, after a snapshot computed from a
    window: the items being sorted by quantity, largest first, the last one
    with a pass state is a key of the cost table whose quantity in the window
    is the least among the keys of the cost table present, not the pass that
    was received most recently.  There is none exactly when the window holds
    no key of the cost table. *)
Theorem last_seen_pass_is_rarest (ops : list Op) (app : App) (w : Worker) (st : Stats) :
  run_ops init_app ops = Ok app ->
  compute_stats_from_window w = Some st ->
  exists app',
    step app (OpTick st) = Ok app'
    /\ match get_last_seen_pass app' with
       | Some name =>
           is_Some (PASS_COSTS !! name)
           /\ exists q ph,
                (name, q, ph) ∈ items st
                /\ forall n q' ph',
                     (n, q', ph') ∈ items st -> is_Some (PASS_COSTS !! n) -> q <= q'
       | None =>
           forall n q' ph', (n, q', ph') ∈ items st -> PASS_COSTS !! n = None
       end.
Proof.
  intros Hrun Hc.
  pose proof (reach_inv_run ops _ _ reach_inv_init Hrun) as Hinv.
  destruct (update_stats_fields app st)
    as (app' & Hu & _ & _ & _ & Hb & _ & _ & _ & Hps & _).
  exists app'. split; [exact Hu|].
  pose proof (reach_inv_step app (OpTick st) app' Hinv Hu) as (_ & Hk' & _).
  destruct Hinv as (Hcosts & _).
  destruct (compute_stats_items w st Hc) as (Hnd & _).
  pose proof (compute_stats_sorted w st Hc) as Hsorted.
  rewrite (base_items_of_distinct _ Hnd) in Hb.
  assert (Htracked : forall n q' ph',
            (n, q', ph') ∈ items st -> is_Some (PASS_COSTS !! n) ->
            bool_decide (is_Some (pass_states app' !! n)) = true).
  { intros n q' ph' Hin Hn. apply bool_decide_eq_true_2. rewrite Hps.
    apply (observe_passes_tracked _ _ _ n q').
    - rewrite (base_items_of_distinct _ Hnd). apply list_elem_of_fmap.
      by exists (n, q', ph').
    - by rewrite Hcosts. }
  unfold get_last_seen_pass. rewrite Hb, map_map.
  destruct (List.find _ _) as [name|] eqn:Hf.
  - apply find_rev_split in Hf as (l1 & l2 & Hkeys & Hname & Hl2).
    apply bool_decide_eq_true_1 in Hname.
    split; [by apply Hk'|].
    apply fmap_app_inv in Hkeys as (i1 & i2 & -> & Hi2 & Hitems).
    symmetry in Hi2. apply fmap_cons_inv in Hi2 as ([[x q] ph] & i2' & Hx & -> & ->).
    cbn [fst] in Hx. subst x. exists q, ph. rewrite Hitems. split.
    { apply elem_of_app. right. apply list_elem_of_here. }
    intros n q' ph' Hin Hn.
    assert (Hp := Htracked n q' ph' ltac:(by rewrite Hitems) Hn).
    apply elem_of_app in Hin as [Hin|Hin].
    + rewrite Hitems in Hsorted.
      exact (StronglySorted_app_1_elem_of
               (fun a b : string * Z * Z => snd (fst b) <= snd (fst a))
               i1 ((name, q, ph) :: i2') (n, q', ph') (name, q, ph) Hsorted Hin
               (list_elem_of_here _ _)).
    + apply elem_of_cons in Hin as [[= -> -> ->]|Hin]; [lia|].
      exfalso. rewrite Forall_forall in Hl2.
      assert (Hn2 : n ∈ map (fun e : string * Z * Z => fst (fst e)) i2').
      { apply list_elem_of_fmap. by exists (n, q', ph'). }
      specialize (Hl2 n Hn2). cbv beta in Hl2. congruence.
  - apply find_rev_none in Hf. rewrite Forall_forall in Hf.
    intros n q' ph' Hin.
    destruct (PASS_COSTS !! n) as [c|] eqn:Hn; [|reflexivity]. exfalso.
    assert (Hn2 : n ∈ map (fun e : string * Z * Z => fst (fst e)) (items st)).
    { apply list_elem_of_fmap. by exists (n, q', ph'). }
    specialize (Hf n Hn2). cbv beta in Hf.
    rewrite (Htracked n q' ph' Hin) in Hf; [discriminate|]. rewrite Hn. eauto.
Qed.

Lemma last_seen_pass_is_rarest_witness :
  exists st app',
    compute_stats_from_window (mkWorker 60 None false sample_pass_window) = Some st
    /\ step init_app (OpTick st) = Ok app'.
Proof.
  destruct (compute_stats_from_window (mkWorker 60 None false sample_pass_window))
    as [st|] eqn:Hc; [|vm_compute in Hc; discriminate].
  destruct (last_seen_pass_is_rarest [] init_app _ st eq_refl Hc) as (app' & Hstep & _).
  exists st, app'. auto.
Defined.
(** ** The item table *)

Lemma row_of_name app entry : row_name (row_of app entry) = fst entry.
Proof. by destruct entry. Qed.

Lemma row_of_qty app entry :
  row_qty (row_of app entry) = snd entry - get0 (crafting_item_delta app) (fst entry).
Proof. by destruct entry. Qed.

(** X22. The item table after a snapshot computed from a window has one row per
    item of the snapshot, in the order of the snapshot: sorting the items
    again in [render_items] moves nothing, because the sort is stable and
    the snapshot is already sorted by the same key.  The rows are thus ordered
    by raw quantity, while the quantity each one shows is the raw quantity
    less the crafting delta of the item. *)
Theorem item_table_in_snapshot_order (w : Worker) (st : Stats) (app : App) :
  compute_stats_from_window w = Some st ->
  exists app',
    update_stats app (SnapStats st) = Ok app'
    /\ map row_name (tree app') = map (fun e : string * Z * Z => fst (fst e)) (items st)
    /\ map row_qty (tree app')
       = map (fun e : string * Z * Z =>
                snd (fst e)
                - per_item_crafting_delta (pass_costs app') (pass_states app') (fst (fst e)))
           (items st)
    /\ StronglySorted (fun a b : string * Z * Z => snd (fst b) <= snd (fst a)) (items st).
Proof.
  intros Hc. destruct (compute_stats_items w st Hc) as (Hnd & _).
  pose proof (compute_stats_sorted w st Hc) as Hsorted.
  destruct (update_stats_fields app st)
    as (app' & Hu & _ & _ & _ & Hbi & _ & _ & _ & _ & _ & Hd & _ & _ & _ & Ht).
  exists app'. split; [exact Hu|].
  assert (Htree : tree app' = map (row_of app') (map fst (items st))).
  { rewrite Ht, Hbi, (base_items_of_distinct _ Hnd).
    rewrite (sort_desc_of_sorted snd); [reflexivity|].
    apply (StronglySorted_fmap fst
             (fun a b : string * Z * Z => snd (fst b) <= snd (fst a))
             (fun a b : string * Z => snd b <= snd a)); [auto|exact Hsorted]. }
  split; [|split; [|exact Hsorted]].
  - rewrite Htree, !map_map. apply map_ext. intros e. apply row_of_name.
  - rewrite Htree, !map_map. apply map_ext. intros e. by rewrite row_of_qty, Hd.
Qed.

Lemma item_table_in_snapshot_order_witness :
  exists st app',
    compute_stats_from_window (mkWorker 60 None false sample_shard_window) = Some st
    /\ update_stats init_app (SnapStats st) = Ok app'
    /\ map row_name (tree app') = map (fun e : string * Z * Z => fst (fst e)) (items st).
Proof.
  destruct (compute_stats_from_window (mkWorker 60 None false sample_shard_window))
    as [st|] eqn:Hc; [|vm_compute in Hc; discriminate].
  destruct (item_table_in_snapshot_order _ st init_app Hc) as (app' & Hu & Hn & _).
  exists st, app'. auto.
Defined.
(** ** The retention mode [start_monitor] gives the worker *)

Lemma dt_sub_Some t delta r :
  dt_sub t delta = Some r -> r = t - delta /\ 0 <= r <= MAX_DATETIME.
Proof.
  unfold dt_sub. cbv zeta.
  destruct (Z.leb_spec 0 (t - delta)); [|discriminate].
  destruct (Z.leb_spec (t - delta) MAX_DATETIME); [|discriminate].
  simpl. intros [= <-]. lia.
Qed.

Lemma dt_sub_in_range t delta :
  0 <= t - delta <= MAX_DATETIME -> dt_sub t delta = Some (t - delta).
Proof.
  intros [Ha Hb]. unfold dt_sub. cbv zeta.
  destruct (Z.leb_spec 0 (t - delta)); [|lia].
  destruct (Z.leb_spec (t - delta) MAX_DATETIME); [|lia]. reflexivity.
Qed.

(** X23. The presets of the calendar.  At any time of [datetime]'s range the
    worker is created, no [OverflowError] is raised, and its fixed start is
    a midnight not after [now]: for [today] the midnight of the day of
    [now], less than a day back; for [this_week] the midnight that begins
    the Monday of the week of [now], less than seven days back. *)
Theorem calendar_presets_start (now window_mins : Z) (from_start : bool) :
  in_datetime_range now ->
  (exists t,
     start_monitor_worker "today" now window_mins from_start
     = Some (mkWorker window_mins (Some t) false [], from_start)
     /\ t mod US_PER_DAY = 0 /\ t <= now < t + US_PER_DAY)
  /\ (exists t,
        start_monitor_worker "this_week" now window_mins from_start
        = Some (mkWorker window_mins (Some t) false [], from_start)
        /\ t mod US_PER_DAY = 0 /\ weekday t = 0
        /\ t <= now < t + 7 * US_PER_DAY).
Proof.
  intros [Hlo Hhi]. split.
  - exists (midnight now). split; [reflexivity|].
    unfold midnight, US_PER_DAY, US_PER_SECOND.
    split; [|Z.div_mod_to_equations; lia].
    Z.div_mod_to_equations. lia.
  - assert (Hsub : dt_sub now (weekday now * US_PER_DAY)
                   = Some (now - weekday now * US_PER_DAY)).
    { apply dt_sub_in_range. unfold weekday, US_PER_DAY, US_PER_SECOND in *.
      Z.div_mod_to_equations. lia. }
    exists (midnight (now - weekday now * US_PER_DAY)).
    split; [unfold start_monitor_worker; simpl; by rewrite Hsub|].
    unfold midnight, weekday, US_PER_DAY, US_PER_SECOND.
    split; [Z.div_mod_to_equations; lia|].
    split; Z.div_mod_to_equations; lia.
Qed.

Lemma calendar_presets_start_witness :
  exists t,
    start_monitor_worker "this_week" 63899625600000000 60 false
    = Some (mkWorker 60 (Some t) false [], false)
    /\ weekday t = 0.
Proof.
  destruct (calendar_presets_start 63899625600000000 60 false
              ltac:(unfold in_datetime_range; vm_compute; split; discriminate))
    as [_ (t & Hw & _ & Hd & _)].
  exists t. auto.
Defined.

(** X24. What the preset means for the window.  For events appended in
    non-decreasing order of time to the worker [start_monitor] creates:
    [alltime] keeps every event; [1h], [today], [this_week] and also
    [custom] keep the events from a start fixed when monitoring began, for
    [custom] the window length before [now], so that window never slides;
    only a preset value that is none of the five, such as the initial
    [Custom], gives the window that trails the latest event. *)
Theorem start_monitor_window (preset : string) (now window_mins : Z)
    (from_start : bool) (w : Worker) (fs : bool) (evs : list LootEvent) :
  start_monitor_worker preset now window_mins from_start = Some (w, fs) ->
  nondecreasing evs ->
  window (fold_left add_event evs w) =
    (match fixed_start_ts w with
     | Some fixed => filter (fun e => fixed <= ts e) evs
     | None =>
         if unlimited w then evs
         else
           match rev evs with
           | [] => []
           | ev :: _ =>
               filter (fun e => ts ev - timedelta_minutes window_mins <= ts e) evs
           end
     end)
  /\ (unlimited w = true <-> preset = "alltime")
  /\ (is_Some (fixed_start_ts w)
      <-> preset ∈ ["1h"; "today"; "this_week"; "custom"])
  /\ (preset = "custom" -> fixed_start_ts w = Some (now - timedelta_minutes window_mins)).
Proof.
  intros Hstart Hs.
  assert (Hss : StronglySorted le_ts evs).
  { apply Sorted_StronglySorted; [apply le_ts_trans|exact Hs]. }
  unfold start_monitor_worker in Hstart.
  destruct (String.eqb_spec preset "1h") as [->|H1].
  { destruct (dt_sub now (3600 * US_PER_SECOND)) as [fixed|]; [|discriminate].
    injection Hstart as <- <-. cbn [fixed_start_ts unlimited].
    split; [by apply fixed_window_filter|]. split; [split; discriminate|].
    split; [|discriminate]. split; [intros _; apply list_elem_of_here|eauto]. }
  destruct (String.eqb_spec preset "today") as [->|H2].
  { injection Hstart as <- <-. cbn [fixed_start_ts unlimited].
    split; [by apply fixed_window_filter|]. split; [split; discriminate|].
    split; [|discriminate].
    split; [intros _; apply list_elem_of_further, list_elem_of_here|eauto]. }
  destruct (String.eqb_spec preset "this_week") as [->|H3].
  { destruct (dt_sub now (weekday now * US_PER_DAY)) as [fixed|]; [|discriminate].
    injection Hstart as <- <-. cbn [fixed_start_ts unlimited].
    split; [by apply fixed_window_filter|]. split; [split; discriminate|].
    split; [|discriminate].
    split; [intros _; do 2 apply list_elem_of_further; apply list_elem_of_here|eauto]. }
  destruct (String.eqb_spec preset "alltime") as [->|H4].
  { injection Hstart as <- <-. cbn [fixed_start_ts unlimited].
    split; [exact (proj2 (unlimited_mode_run evs (mkWorker window_mins None true [])
                            eq_refl))|].
    split; [by split|]. split; [|discriminate]. split.
    - intros [t Ht]. discriminate.
    - rewrite !elem_of_cons, elem_of_nil. intros [?|[?|[?|[?|[]]]]]; discriminate. }
  destruct (String.eqb_spec preset "custom") as [->|H5].
  { destruct (dt_sub now (timedelta_minutes window_mins)) as [fixed|] eqn:Hsub;
      [|discriminate].
    apply dt_sub_Some in Hsub as [-> _].
    injection Hstart as <- <-. cbn [fixed_start_ts unlimited].
    split; [by apply fixed_window_filter|]. split; [split; discriminate|].
    split; [|reflexivity].
    split; [intros _; do 3 apply list_elem_of_further; apply list_elem_of_here|eauto]. }
  injection Hstart as <- <-. cbn [fixed_start_ts unlimited]. split.
  { destruct evs as [|ev evs'] using rev_ind; [reflexivity|].
    rewrite rev_app_distr. cbn [rev List.app].
    exact (trailing_window_filter window_mins evs' ev Hss). }
  split; [split; [discriminate|congruence]|]. split; [|congruence]. split.
  - intros [t Ht]. discriminate.
  - rewrite !elem_of_cons, elem_of_nil. intros [?|[?|[?|[?|[]]]]]; congruence.
Qed.

Lemma start_monitor_window_witness :
  window (fold_left add_event
            [mkLootEvent 0 5 "Yang"; mkLootEvent 3600000000 1 "Shard";
             mkLootEvent 7200000000 2 "Shard"]
            (mkWorker 1 (Some 3540000000) false []))
  = filter (fun e => 3540000000 <= ts e)
      [mkLootEvent 0 5 "Yang"; mkLootEvent 3600000000 1 "Shard";
       mkLootEvent 7200000000 2 "Shard"].
Proof.
  refine (proj1 (start_monitor_window "custom" 3600000000 1 false
                   (mkWorker 1 (Some 3540000000) false []) false _ _ _)).
  - vm_compute. reflexivity.
  - repeat constructor; unfold le_ts; simpl; lia.
Defined.
(** ** The dungeon counters *)

Lemma values_sum_insert (m : gmap string Z) d q :
  Zsum (map snd (map_to_list (<[d := get0 m d + q]> m)))
  = Zsum (map snd (map_to_list m)) + q.
Proof.
  unfold get0. destruct (m !! d) as [v|] eqn:Hd; cbn [default].
  - rewrite <- (insert_delete_eq m d (v + q)).
    rewrite (Zsum_perm _ _ (Permutation_map snd
               (map_to_list_insert (delete d m) d (v + q) (lookup_delete_eq m d)))).
    rewrite <- (Zsum_perm _ _ (Permutation_map snd (map_to_list_delete m d v Hd))).
    cbn [map snd]. change (Zsum (?x :: ?l)) with (x + Zsum l). lia.
  - rewrite (Zsum_perm _ _ (Permutation_map snd (map_to_list_insert m d (0 + q) Hd))).
    cbn [map snd]. change (Zsum (?x :: ?l)) with (x + Zsum l). lia.
Qed.

Lemma dungeon_fold bi : forall acc,
  (forall d, get0 (fst (fold_left dungeon_step bi acc)) d
             = get0 (fst acc) d + chests_of d bi)
  /\ snd (fold_left dungeon_step bi acc)
       - Zsum (map snd (map_to_list (fst (fold_left dungeon_step bi acc))))
     = snd acc - Zsum (map snd (map_to_list (fst acc)))
  /\ (forall d, is_Some (fst (fold_left dungeon_step bi acc) !! d) ->
        is_Some (fst acc !! d)
        \/ exists chest, chest ∈ map fst bi /\ DUNGEON_CHESTS !! chest = Some d).
Proof.
  induction bi as [|[name qty] bi IH]; intros acc.
  - cbn [fold_left]. unfold chests_of. cbn [map]. unfold Zsum. cbn [fold_right].
    split; [intros d; lia|]. split; [reflexivity|]. intros d Hd. by left.
  - cbn [fold_left]. destruct (IH (dungeon_step acc (name, qty))) as (Hg & Hsum & Hk).
    assert (Hch : forall d, chests_of d ((name, qty) :: bi)
                  = (if bool_decide (DUNGEON_CHESTS !! name = Some d) then qty else 0)
                    + chests_of d bi).
    { intros d. reflexivity. }
    unfold dungeon_step in *. destruct (DUNGEON_CHESTS !! name) as [dungeon|] eqn:Hn.
    + cbn [fst snd] in *. split; [|split].
      * intros d. rewrite Hg, Hch, get0_insert.
        destruct (String.eqb_spec dungeon d) as [->|Hne].
        -- rewrite bool_decide_eq_true_2 by reflexivity. lia.
        -- rewrite bool_decide_eq_false_2 by congruence. lia.
      * rewrite Hsum, values_sum_insert. lia.
      * intros d Hd. apply Hk in Hd as [Hd|(chest & Hin & Hc)].
        -- destruct (decide (dungeon = d)) as [<-|Hne].
           ++ right. exists name. split; [apply list_elem_of_here|exact Hn].
           ++ left. by rewrite lookup_insert_ne in Hd.
        -- right. exists chest. split; [by apply list_elem_of_further|exact Hc].
    + split; [|split].
      * intros d. rewrite Hg, Hch. rewrite bool_decide_eq_false_2 by discriminate. lia.
      * exact Hsum.
      * intros d Hd. apply Hk in Hd as [Hd|(chest & Hin & Hc)]; [by left|].
        right. exists chest. split; [by apply list_elem_of_further|exact Hc].
Qed.

(** X25. The dungeon counters of a snapshot: the count of a dungeon is the
    quantity of its chests among the items, the total is the sum of the
    counts of the dungeons, so an item that is no chest is never counted,
    and only dungeons whose chest is among the items get a count at all. *)
Theorem dungeon_counters (bi : odict Z) :
  (forall d, get0 (fst (count_dungeon_runs bi)) d = chests_of d bi)
  /\ snd (count_dungeon_runs bi)
     = Zsum (map snd (map_to_list (fst (count_dungeon_runs bi))))
  /\ (forall d, is_Some (fst (count_dungeon_runs bi) !! d) ->
        exists chest, chest ∈ map fst bi /\ DUNGEON_CHESTS !! chest = Some d)
  /\ ((forall name, name ∈ map fst bi -> DUNGEON_CHESTS !! name = None) ->
      count_dungeon_runs bi = (∅, 0)).
Proof.
  unfold count_dungeon_runs.
  destruct (dungeon_fold bi (∅, 0)) as (Hg & Hsum & Hk). cbn [fst snd] in *.
  split; [intros d; rewrite Hg; unfold get0; by rewrite lookup_empty|].
  split.
  { rewrite map_to_list_empty in Hsum. cbn [map] in Hsum. unfold Zsum at 2 in Hsum.
    cbn [fold_right] in Hsum. lia. }
  split.
  { intros d Hd. apply Hk in Hd as [Hd|Hd]; [|exact Hd].
    rewrite lookup_empty in Hd. by destruct Hd. }
  intros Hno. clear Hg Hsum Hk. generalize (∅ : gmap string Z, 0).
  induction bi as [|[name qty] bi IH]; intros acc; [reflexivity|].
  cbn [fold_left]. unfold dungeon_step at 2.
  rewrite (Hno name (list_elem_of_here _ _)). apply IH.
  intros n Hn. apply Hno. by apply list_elem_of_further.
Qed.
(** ** [render_items] and [apply_pass_adjustment] from any state *)

Lemma filter_length_mono {A : Type} (p q : A -> bool) (l : list A) :
  (forall x, x ∈ l -> p x = true -> q x = true) ->
  (length (List.filter p l) <= length (List.filter q l))%nat.
Proof.
  induction l as [|a l IH]; intros Hpq; [reflexivity|].
  assert (IH' := IH (fun x Hx => Hpq x (list_elem_of_further _ _ _ Hx))).
  pose proof (Hpq a (list_elem_of_here _ _)) as Ha. cbn [List.filter].
  destruct (p a); [rewrite Ha by reflexivity; simpl; lia|].
  destruct (q a); simpl; lia.
Qed.

Lemma filter_length_lt {A : Type} (p q : A -> bool) (l : list A) x :
  (forall y, y ∈ l -> p y = true -> q y = true) ->
  x ∈ l -> q x = true -> p x = false ->
  (length (List.filter p l) < length (List.filter q l))%nat.
Proof.
  induction l as [|a l IH]; intros Hpq Hx Hq Hp; [by apply elem_of_nil in Hx|].
  assert (Hpq' : forall y, y ∈ l -> p y = true -> q y = true).
  { intros y Hy. apply Hpq. by apply list_elem_of_further. }
  pose proof (Hpq a (list_elem_of_here _ _)) as Ha. cbn [List.filter].
  apply elem_of_cons in Hx as [<-|Hx].
  - rewrite Hq, Hp. pose proof (filter_length_mono p q l Hpq'). simpl. lia.
  - specialize (IH Hpq' Hx Hq Hp).
    destruct (p a); [rewrite Ha by reflexivity; simpl; lia|].
    destruct (q a); simpl; lia.
Qed.

Lemma extends_refl a : extends a a.
Proof. by repeat split. Qed.

Lemma extends_trans a b c : extends a b -> extends b c -> extends a c.
Proof.
  intros (Hb1 & Hc1 & Hs1) (Hb2 & Hc2 & Hs2).
  split; [congruence|]. split; [congruence|]. intros name Hn. by apply Hs2, Hs1.
Qed.

Lemma untracked_mono a a' entry :
  extends a a' -> untracked a' entry = true -> untracked a entry = true.
Proof.
  intros (_ & Hc & Hs). unfold untracked. rewrite Hc.
  destruct (bool_decide (is_Some (pass_costs a !! fst entry))); [|done]. cbn [andb].
  intros Hn. apply negb_true_iff, bool_decide_eq_false_1 in Hn.
  apply negb_true_iff, bool_decide_eq_false_2. intros H. by apply Hn, Hs.
Qed.

Lemma untracked_count_le a a' :
  extends a a' -> (untracked_count a' <= untracked_count a)%nat.
Proof.
  intros Hext. unfold untracked_count. rewrite (proj1 Hext).
  apply filter_length_mono. intros x _. by apply untracked_mono.
Qed.

Lemma untracked_count_lt a a' name qty :
  extends a a' -> (name, qty) ∈ base_items a ->
  untracked a (name, qty) = true -> is_Some (pass_states a' !! name) ->
  (untracked_count a' < untracked_count a)%nat.
Proof.
  intros Hext Hin Hu Hs. unfold untracked_count. rewrite (proj1 Hext).
  apply (filter_length_lt _ _ _ (name, qty)); [|exact Hin|exact Hu|].
  - intros y _. by apply untracked_mono.
  - unfold untracked. cbn [fst]. rewrite (bool_decide_eq_true_2 _ Hs).
    apply andb_false_r.
Qed.

Lemma extends_track a name s : extends a (set_pass_states a (<[name := s]> (pass_states a))).
Proof.
  split; [reflexivity|]. split; [reflexivity|]. intros n Hn. cbn [set_pass_states pass_states].
  destruct (decide (name = n)) as [->|Hne];
    [rewrite lookup_insert_eq; eauto|by rewrite lookup_insert_ne].
Qed.

Section RenderFuel.

Variable n : nat.
Hypothesis IHn :
  forall a, (untracked_count a < n)%nat ->
  exists a', render_items n a = Ok a' /\ extends a a'.

Lemma adjust_first_seen cur name qty c :
  (untracked_count cur <= n)%nat ->
  (name, qty) ∈ base_items cur ->
  pass_costs cur !! name = Some c ->
  pass_states cur !! name = None ->
  exists app1,
    apply_pass_adjustment (render_items n)
      (set_pass_states cur (<[name := mkPassState qty qty 0]> (pass_states cur)))
      name "Crafted" = Ok app1
    /\ extends cur app1
    /\ is_Some (pass_states app1 !! name).
Proof.
  intros HM Hin Hc Hs.
  set (cur1 := set_pass_states cur (<[name := mkPassState qty qty 0]> (pass_states cur))).
  assert (He1 : extends cur cur1) by apply extends_track.
  assert (Ht1 : is_Some (pass_states cur1 !! name)).
  { unfold cur1. cbn [set_pass_states pass_states]. rewrite lookup_insert_eq. eauto. }
  unfold apply_pass_adjustment.
  change (pass_costs cur1) with (pass_costs cur). rewrite Hc.
  destruct (default 0 (odict_get name (base_items cur1)) <=? 0); [by exists cur1|].
  change (String.eqb "Crafted" "Crafted") with true.
  change (String.eqb "Crafted" "Dropped") with false.
  destruct (bool_decide (name ∈ pass_applied cur1)); cbn [negb andb]; [by exists cur1|].
  match goal with |- context [render_items n ?X] => set (app2 := X) end.
  assert (He2 : extends cur app2).
  { split; [reflexivity|]. split; [reflexivity|]. exact (proj2 (proj2 He1)). }
  assert (Ht2 : is_Some (pass_states app2 !! name)) by exact Ht1.
  destruct (IHn app2) as (a' & Hr & He').
  { apply Nat.lt_le_trans with (untracked_count cur); [|exact HM].
    apply (untracked_count_lt cur app2 name qty He2 Hin); [|exact Ht2].
    unfold untracked. cbn [fst]. rewrite Hc, Hs.
    rewrite bool_decide_eq_true_2 by eauto.
    rewrite bool_decide_eq_false_2; [reflexivity|]. intros [? ?]. discriminate. }
  exists a'. split; [exact Hr|]. split; [by apply (extends_trans _ app2)|].
  by apply (proj2 (proj2 He')).
Qed.

Lemma render_rows_fuel l : forall cur,
  (forall e, e ∈ l -> e ∈ base_items cur) ->
  (untracked_count cur <= n)%nat ->
  exists a',
    render_rows (render_items n) l cur = Ok a'
    /\ extends cur a'
    /\ forall name q, (name, q) ∈ l -> is_Some (pass_costs cur !! name) ->
         is_Some (pass_states a' !! name).
Proof.
  induction l as [|[name qty] rest IH]; intros cur Hsub HM.
  - exists cur. split; [reflexivity|]. split; [apply extends_refl|].
    intros name q Hin. by apply elem_of_nil in Hin.
  - cbn [render_rows].
    assert (HB : exists app1,
              (match pass_costs cur !! name, pass_states cur !! name with
               | Some _, None =>
                   apply_pass_adjustment (render_items n)
                     (set_pass_states cur
                        (<[name := mkPassState qty qty 0]> (pass_states cur)))
                     name "Crafted"
               | _, _ => Ok cur
               end) = Ok app1
              /\ extends cur app1
              /\ (is_Some (pass_costs cur !! name) -> is_Some (pass_states app1 !! name))).
    { destruct (pass_costs cur !! name) as [c|] eqn:Hc;
        destruct (pass_states cur !! name) as [s|] eqn:Hs.
      - exists cur. split; [reflexivity|]. split; [apply extends_refl|].
        intros _. rewrite Hs. eauto.
      - destruct (adjust_first_seen cur name qty c HM
                    (Hsub _ (list_elem_of_here _ _)) Hc Hs) as (app1 & Ha & He & Ht).
        exists app1. auto.
      - exists cur. split; [reflexivity|]. split; [apply extends_refl|].
        intros [? ?]. discriminate.
      - exists cur. split; [reflexivity|]. split; [apply extends_refl|].
        intros [? ?]. discriminate. }
    destruct HB as (app1 & -> & Hext & Htr). cbn [bind].
    match goal with |- context [render_rows _ rest ?X] => set (next := X) end.
    assert (Hen : extends app1 next).
    { split; [reflexivity|]. split; [reflexivity|]. intros nm Hn. exact Hn. }
    destruct (IH next) as (a' & Hr & He' & Hall).
    + intros e He. rewrite (proj1 Hen), (proj1 Hext). apply Hsub.
      by apply list_elem_of_further.
    + pose proof (untracked_count_le _ _ (extends_trans _ _ _ Hext Hen)). lia.
    + exists a'. split; [exact Hr|].
      split; [exact (extends_trans _ _ _ (extends_trans _ _ _ Hext Hen) He')|].
      intros nm q Hin Hcost. apply elem_of_cons in Hin as [[= -> ->]|Hin].
      * apply (proj2 (proj2 He')), (proj2 (proj2 Hen)). by apply Htr.
      * apply (Hall nm q Hin). by rewrite (proj1 (proj2 Hen)), (proj1 (proj2 Hext)).
Qed.

End RenderFuel.

Lemma render_items_fuel : forall fuel app,
  (untracked_count app < fuel)%nat ->
  exists app',
    render_items fuel app = Ok app'
    /\ extends app app'
    /\ forall name q, (name, q) ∈ base_items app -> is_Some (pass_costs app !! name) ->
         is_Some (pass_states app' !! name).
Proof.
  induction fuel as [|n IH]; intros app HM; [lia|].
  cbn [render_items].
  assert (IHn : forall a, (untracked_count a < n)%nat ->
                  exists a', render_items n a = Ok a' /\ extends a a').
  { intros a Ha. destruct (IH a Ha) as (a' & Hr & He & _). eauto. }
  destruct (render_rows_fuel n IHn (sort_desc snd (base_items app)) (set_tree app []))
    as (a' & Hr & He & Hall).
  - intros e He. by apply elem_of_sort_desc in He.
  - change (untracked_count (set_tree app [])) with (untracked_count app). lia.
  - exists a'. split; [exact Hr|]. split; [exact He|].
    intros name q Hin. apply (Hall name q). by apply elem_of_sort_desc.
Qed.

(** X26. [render_items] ends from every state, also one with passes it has to
    start tracking, for which it calls itself through
    [apply_pass_adjustment]: a depth of calls of one more than the number of
    items is never exceeded.  It keeps the items and the cost table, loses no
    pass state, and leaves every item that is a key of the cost table with a
    pass state. *)
Theorem render_items_terminates (app : App) (fuel : nat) :
  (length (base_items app) < fuel)%nat ->
  exists app',
    render_items fuel app = Ok app'
    /\ base_items app' = base_items app
    /\ pass_costs app' = pass_costs app
    /\ (forall name, is_Some (pass_states app !! name) ->
          is_Some (pass_states app' !! name))
    /\ forall name q, (name, q) ∈ base_items app -> is_Some (pass_costs app !! name) ->
         is_Some (pass_states app' !! name).
Proof.
  intros Hfuel. destruct (render_items_fuel fuel app) as (app' & Hr & (Hb & Hc & Hs) & Hall).
  - apply Nat.le_lt_trans with (length (base_items app)); [|exact Hfuel].
    unfold untracked_count. apply List.filter_length_le.
  - exists app'. auto.
Qed.

Lemma render_items_terminates_witness :
  exists app',
    render_items 2
      (mkApp PASS_COSTS ∅ ∅ 0 0 [("Hellish Pass", 2)] ∅ ∅ 1%Q 0 0%Q None 0 0 []) = Ok app'
    /\ is_Some (pass_states app' !! "Hellish Pass").
Proof.
  destruct (render_items_terminates
              (mkApp PASS_COSTS ∅ ∅ 0 0 [("Hellish Pass", 2)] ∅ ∅ 1%Q 0 0%Q None 0 0 [])
              2 ltac:(simpl; lia))
    as (app' & Hr & _ & _ & _ & Hall).
  exists app'. split; [exact Hr|].
  apply (Hall "Hellish Pass" 2); [apply list_elem_of_here|].
  vm_compute. eauto.
Defined.
